(** * Verification of [scripts/bib_to_cv_publications.py]

    A shallow embedding of the BibTeX scanner, the record normaliser and the
    merge step of [scripts/bib_to_cv_publications.py], together with the
    theorems that settle the properties stated for them.

    Layout of the development:
    - [Unicode]: the character tables the interpreter consults
      ([str.isspace], [str.isalnum], [str.isdigit], [str.lower], ...);
    - results and exceptions, the [while] loop combinator;
    - the [str] methods and the fragment of [re] used by the script;
    - the script itself, function by function, under the source's names;
    - the theorems. *)

From Stdlib Require Import ZArith NArith Lia Bool Ascii String List.
From Stdlib Require Import DecimalString Sorting.Sorted Sorting.Permutation.
From stdpp Require Import gmap list.
Import ListNotations.

Local Open Scope Z_scope.

(** ** Characters and strings

    A Python [str] is a sequence of Unicode code points; a character is a
    code point, kept as a binary natural number.  Python has no character
    type: [s[i]] is a string of length one, which the model identifies with
    its code point. *)

Abbreviation char := N.
Abbreviation str := (list N).

(** [chr a] is the code point of an ASCII character, [lit s] the Python
    string literal with the (ASCII) characters of [s]. *)
Definition chr (a : ascii) : char := N_of_ascii a.
Definition lit (s : string) : str := map chr (list_ascii_of_string s).
Arguments chr : simpl never.
Arguments lit : simpl never.

(** Characters that cannot be written inside a literal. *)
Definition TAB : char := 9%N.
Definition LF : char := 10%N.
Definition CR : char := 13%N.
Definition DQUOTE : char := 34%N.
Definition BACKSLASH : char := 92%N.

Module Unicode.

(** Tables of the Unicode Character Database, version 14.0, as CPython 3.11
    consults them; each table is a list of inclusive code point ranges. *)

Definition in_ranges (t : list (N * N)) (c : char) : bool :=
  existsb (fun r => (fst r <=? c)%N && (c <=? snd r)%N) t.

(** White space: the characters [str.isspace] accepts. *)
Definition space_ranges : list (N * N) :=
  [(9,13);(28,32);(133,133);(160,160);(5760,5760);(8192,8202);(8232,8233);(8239,8239);(8287,8287);
   (12288,12288)]%N.

(** Letters and numbers: the characters [str.isalnum] accepts. *)
Definition alnum_ranges : list (N * N) :=
  [(48,57);(65,90);(97,122);(170,170);(178,179);(181,181);(185,186);(188,190);(192,214);(216,246);
   (248,705);(710,721);(736,740);(748,748);(750,750);(880,884);(886,887);(890,893);(895,895);
   (902,902);(904,906);(908,908);(910,929);(931,1013);(1015,1153);(1162,1327);(1329,1366);
   (1369,1369);(1376,1416);(1488,1514);(1519,1522);(1568,1610);(1632,1641);(1646,1647);(1649,1747);
   (1749,1749);(1765,1766);(1774,1788);(1791,1791);(1808,1808);(1810,1839);(1869,1957);(1969,1969);
   (1984,2026);(2036,2037);(2042,2042);(2048,2069);(2074,2074);(2084,2084);(2088,2088);(2112,2136);
   (2144,2154);(2160,2183);(2185,2190);(2208,2249);(2308,2361);(2365,2365);(2384,2384);(2392,2401);
   (2406,2415);(2417,2432);(2437,2444);(2447,2448);(2451,2472);(2474,2480);(2482,2482);(2486,2489);
   (2493,2493);(2510,2510);(2524,2525);(2527,2529);(2534,2545);(2548,2553);(2556,2556);(2565,2570);
   (2575,2576);(2579,2600);(2602,2608);(2610,2611);(2613,2614);(2616,2617);(2649,2652);(2654,2654);
   (2662,2671);(2674,2676);(2693,2701);(2703,2705);(2707,2728);(2730,2736);(2738,2739);(2741,2745);
   (2749,2749);(2768,2768);(2784,2785);(2790,2799);(2809,2809);(2821,2828);(2831,2832);(2835,2856);
   (2858,2864);(2866,2867);(2869,2873);(2877,2877);(2908,2909);(2911,2913);(2918,2927);(2929,2935);
   (2947,2947);(2949,2954);(2958,2960);(2962,2965);(2969,2970);(2972,2972);(2974,2975);(2979,2980);
   (2984,2986);(2990,3001);(3024,3024);(3046,3058);(3077,3084);(3086,3088);(3090,3112);(3114,3129);
   (3133,3133);(3160,3162);(3165,3165);(3168,3169);(3174,3183);(3192,3198);(3200,3200);(3205,3212);
   (3214,3216);(3218,3240);(3242,3251);(3253,3257);(3261,3261);(3293,3294);(3296,3297);(3302,3311);
   (3313,3314);(3332,3340);(3342,3344);(3346,3386);(3389,3389);(3406,3406);(3412,3414);(3416,3425);
   (3430,3448);(3450,3455);(3461,3478);(3482,3505);(3507,3515);(3517,3517);(3520,3526);(3558,3567);
   (3585,3632);(3634,3635);(3648,3654);(3664,3673);(3713,3714);(3716,3716);(3718,3722);(3724,3747);
   (3749,3749);(3751,3760);(3762,3763);(3773,3773);(3776,3780);(3782,3782);(3792,3801);(3804,3807);
   (3840,3840);(3872,3891);(3904,3911);(3913,3948);(3976,3980);(4096,4138);(4159,4169);(4176,4181);
   (4186,4189);(4193,4193);(4197,4198);(4206,4208);(4213,4225);(4238,4238);(4240,4249);(4256,4293);
   (4295,4295);(4301,4301);(4304,4346);(4348,4680);(4682,4685);(4688,4694);(4696,4696);(4698,4701);
   (4704,4744);(4746,4749);(4752,4784);(4786,4789);(4792,4798);(4800,4800);(4802,4805);(4808,4822);
   (4824,4880);(4882,4885);(4888,4954);(4969,4988);(4992,5007);(5024,5109);(5112,5117);(5121,5740);
   (5743,5759);(5761,5786);(5792,5866);(5870,5880);(5888,5905);(5919,5937);(5952,5969);(5984,5996);
   (5998,6000);(6016,6067);(6103,6103);(6108,6108);(6112,6121);(6128,6137);(6160,6169);(6176,6264);
   (6272,6276);(6279,6312);(6314,6314);(6320,6389);(6400,6430);(6470,6509);(6512,6516);(6528,6571);
   (6576,6601);(6608,6618);(6656,6678);(6688,6740);(6784,6793);(6800,6809);(6823,6823);(6917,6963);
   (6981,6988);(6992,7001);(7043,7072);(7086,7141);(7168,7203);(7232,7241);(7245,7293);(7296,7304);
   (7312,7354);(7357,7359);(7401,7404);(7406,7411);(7413,7414);(7418,7418);(7424,7615);(7680,7957);
   (7960,7965);(7968,8005);(8008,8013);(8016,8023);(8025,8025);(8027,8027);(8029,8029);(8031,8061);
   (8064,8116);(8118,8124);(8126,8126);(8130,8132);(8134,8140);(8144,8147);(8150,8155);(8160,8172);
   (8178,8180);(8182,8188);(8304,8305);(8308,8313);(8319,8329);(8336,8348);(8450,8450);(8455,8455);
   (8458,8467);(8469,8469);(8473,8477);(8484,8484);(8486,8486);(8488,8488);(8490,8493);(8495,8505);
   (8508,8511);(8517,8521);(8526,8526);(8528,8585);(9312,9371);(9450,9471);(10102,10131);
   (11264,11492);(11499,11502);(11506,11507);(11517,11517);(11520,11557);(11559,11559);
   (11565,11565);(11568,11623);(11631,11631);(11648,11670);(11680,11686);(11688,11694);
   (11696,11702);(11704,11710);(11712,11718);(11720,11726);(11728,11734);(11736,11742);
   (11823,11823);(12293,12295);(12321,12329);(12337,12341);(12344,12348);(12353,12438);
   (12445,12447);(12449,12538);(12540,12543);(12549,12591);(12593,12686);(12690,12693);
   (12704,12735);(12784,12799);(12832,12841);(12872,12879);(12881,12895);(12928,12937);
   (12977,12991);(13312,19903);(19968,42124);(42192,42237);(42240,42508);(42512,42539);
   (42560,42606);(42623,42653);(42656,42735);(42775,42783);(42786,42888);(42891,42954);
   (42960,42961);(42963,42963);(42965,42969);(42994,43009);(43011,43013);(43015,43018);
   (43020,43042);(43056,43061);(43072,43123);(43138,43187);(43216,43225);(43250,43255);
   (43259,43259);(43261,43262);(43264,43301);(43312,43334);(43360,43388);(43396,43442);
   (43471,43481);(43488,43492);(43494,43518);(43520,43560);(43584,43586);(43588,43595);
   (43600,43609);(43616,43638);(43642,43642);(43646,43695);(43697,43697);(43701,43702);
   (43705,43709);(43712,43712);(43714,43714);(43739,43741);(43744,43754);(43762,43764);
   (43777,43782);(43785,43790);(43793,43798);(43808,43814);(43816,43822);(43824,43866);
   (43868,43881);(43888,44002);(44016,44025);(44032,55203);(55216,55238);(55243,55291);
   (63744,64109);(64112,64217);(64256,64262);(64275,64279);(64285,64285);(64287,64296);
   (64298,64310);(64312,64316);(64318,64318);(64320,64321);(64323,64324);(64326,64433);
   (64467,64829);(64848,64911);(64914,64967);(65008,65019);(65136,65140);(65142,65276);
   (65296,65305);(65313,65338);(65345,65370);(65382,65470);(65474,65479);(65482,65487);
   (65490,65495);(65498,65500);(65536,65547);(65549,65574);(65576,65594);(65596,65597);
   (65599,65613);(65616,65629);(65664,65786);(65799,65843);(65856,65912);(65930,65931);
   (66176,66204);(66208,66256);(66273,66299);(66304,66339);(66349,66378);(66384,66421);
   (66432,66461);(66464,66499);(66504,66511);(66513,66517);(66560,66717);(66720,66729);
   (66736,66771);(66776,66811);(66816,66855);(66864,66915);(66928,66938);(66940,66954);
   (66956,66962);(66964,66965);(66967,66977);(66979,66993);(66995,67001);(67003,67004);
   (67072,67382);(67392,67413);(67424,67431);(67456,67461);(67463,67504);(67506,67514);
   (67584,67589);(67592,67592);(67594,67637);(67639,67640);(67644,67644);(67647,67669);
   (67672,67702);(67705,67742);(67751,67759);(67808,67826);(67828,67829);(67835,67867);
   (67872,67897);(67968,68023);(68028,68047);(68050,68096);(68112,68115);(68117,68119);
   (68121,68149);(68160,68168);(68192,68222);(68224,68255);(68288,68295);(68297,68324);
   (68331,68335);(68352,68405);(68416,68437);(68440,68466);(68472,68497);(68521,68527);
   (68608,68680);(68736,68786);(68800,68850);(68858,68899);(68912,68921);(69216,69246);
   (69248,69289);(69296,69297);(69376,69415);(69424,69445);(69457,69460);(69488,69505);
   (69552,69579);(69600,69622);(69635,69687);(69714,69743);(69745,69746);(69749,69749);
   (69763,69807);(69840,69864);(69872,69881);(69891,69926);(69942,69951);(69956,69956);
   (69959,69959);(69968,70002);(70006,70006);(70019,70066);(70081,70084);(70096,70106);
   (70108,70108);(70113,70132);(70144,70161);(70163,70187);(70272,70278);(70280,70280);
   (70282,70285);(70287,70301);(70303,70312);(70320,70366);(70384,70393);(70405,70412);
   (70415,70416);(70419,70440);(70442,70448);(70450,70451);(70453,70457);(70461,70461);
   (70480,70480);(70493,70497);(70656,70708);(70727,70730);(70736,70745);(70751,70753);
   (70784,70831);(70852,70853);(70855,70855);(70864,70873);(71040,71086);(71128,71131);
   (71168,71215);(71236,71236);(71248,71257);(71296,71338);(71352,71352);(71360,71369);
   (71424,71450);(71472,71483);(71488,71494);(71680,71723);(71840,71922);(71935,71942);
   (71945,71945);(71948,71955);(71957,71958);(71960,71983);(71999,71999);(72001,72001);
   (72016,72025);(72096,72103);(72106,72144);(72161,72161);(72163,72163);(72192,72192);
   (72203,72242);(72250,72250);(72272,72272);(72284,72329);(72349,72349);(72368,72440);
   (72704,72712);(72714,72750);(72768,72768);(72784,72812);(72818,72847);(72960,72966);
   (72968,72969);(72971,73008);(73030,73030);(73040,73049);(73056,73061);(73063,73064);
   (73066,73097);(73112,73112);(73120,73129);(73440,73458);(73648,73648);(73664,73684);
   (73728,74649);(74752,74862);(74880,75075);(77712,77808);(77824,78894);(82944,83526);
   (92160,92728);(92736,92766);(92768,92777);(92784,92862);(92864,92873);(92880,92909);
   (92928,92975);(92992,92995);(93008,93017);(93019,93025);(93027,93047);(93053,93071);
   (93760,93846);(93952,94026);(94032,94032);(94099,94111);(94176,94177);(94179,94179);
   (94208,100343);(100352,101589);(101632,101640);(110576,110579);(110581,110587);(110589,110590);
   (110592,110882);(110928,110930);(110948,110951);(110960,111355);(113664,113770);(113776,113788);
   (113792,113800);(113808,113817);(119520,119539);(119648,119672);(119808,119892);(119894,119964);
   (119966,119967);(119970,119970);(119973,119974);(119977,119980);(119982,119993);(119995,119995);
   (119997,120003);(120005,120069);(120071,120074);(120077,120084);(120086,120092);(120094,120121);
   (120123,120126);(120128,120132);(120134,120134);(120138,120144);(120146,120485);(120488,120512);
   (120514,120538);(120540,120570);(120572,120596);(120598,120628);(120630,120654);(120656,120686);
   (120688,120712);(120714,120744);(120746,120770);(120772,120779);(120782,120831);(122624,122654);
   (123136,123180);(123191,123197);(123200,123209);(123214,123214);(123536,123565);(123584,123627);
   (123632,123641);(124896,124902);(124904,124907);(124909,124910);(124912,124926);(124928,125124);
   (125127,125135);(125184,125251);(125259,125259);(125264,125273);(126065,126123);(126125,126127);
   (126129,126132);(126209,126253);(126255,126269);(126464,126467);(126469,126495);(126497,126498);
   (126500,126500);(126503,126503);(126505,126514);(126516,126519);(126521,126521);(126523,126523);
   (126530,126530);(126535,126535);(126537,126537);(126539,126539);(126541,126543);(126545,126546);
   (126548,126548);(126551,126551);(126553,126553);(126555,126555);(126557,126557);(126559,126559);
   (126561,126562);(126564,126564);(126567,126570);(126572,126578);(126580,126583);(126585,126588);
   (126590,126590);(126592,126601);(126603,126619);(126625,126627);(126629,126633);(126635,126651);
   (127232,127244);(130032,130041);(131072,173791);(173824,177976);(177984,178205);(178208,183969);
   (183984,191456);(194560,195101);(196608,201546)]%N.

(** Digits: the characters [str.isdigit] accepts. *)
Definition digit_ranges : list (N * N) :=
  [(48,57);(178,179);(185,185);(1632,1641);(1776,1785);(1984,1993);(2406,2415);(2534,2543);
   (2662,2671);(2790,2799);(2918,2927);(3046,3055);(3174,3183);(3302,3311);(3430,3439);(3558,3567);
   (3664,3673);(3792,3801);(3872,3881);(4160,4169);(4240,4249);(4969,4977);(6112,6121);(6160,6169);
   (6470,6479);(6608,6618);(6784,6793);(6800,6809);(6992,7001);(7088,7097);(7232,7241);(7248,7257);
   (8304,8304);(8308,8313);(8320,8329);(9312,9320);(9332,9340);(9352,9360);(9450,9450);(9461,9469);
   (9471,9471);(10102,10110);(10112,10120);(10122,10130);(42528,42537);(43216,43225);(43264,43273);
   (43472,43481);(43504,43513);(43600,43609);(44016,44025);(65296,65305);(66720,66729);
   (68160,68163);(68912,68921);(69216,69224);(69714,69722);(69734,69743);(69872,69881);
   (69942,69951);(70096,70105);(70384,70393);(70736,70745);(70864,70873);(71248,71257);
   (71360,71369);(71472,71481);(71904,71913);(72016,72025);(72784,72793);(73040,73049);
   (73120,73129);(92768,92777);(92864,92873);(93008,93017);(120782,120831);(123200,123209);
   (123632,123641);(125264,125273);(127232,127242);(130032,130041)]%N.

(** Decimal digits: the characters [str.isdecimal] accepts, in runs that
    start at a digit zero. *)
Definition decimal_ranges : list (N * N) :=
  [(48,57);(1632,1641);(1776,1785);(1984,1993);(2406,2415);(2534,2543);(2662,2671);(2790,2799);
   (2918,2927);(3046,3055);(3174,3183);(3302,3311);(3430,3439);(3558,3567);(3664,3673);(3792,3801);
   (3872,3881);(4160,4169);(4240,4249);(6112,6121);(6160,6169);(6470,6479);(6608,6617);(6784,6793);
   (6800,6809);(6992,7001);(7088,7097);(7232,7241);(7248,7257);(42528,42537);(43216,43225);
   (43264,43273);(43472,43481);(43504,43513);(43600,43609);(44016,44025);(65296,65305);
   (66720,66729);(68912,68921);(69734,69743);(69872,69881);(69942,69951);(70096,70105);
   (70384,70393);(70736,70745);(70864,70873);(71248,71257);(71360,71369);(71472,71481);
   (71904,71913);(72016,72025);(72784,72793);(73040,73049);(73120,73129);(92768,92777);
   (92864,92873);(93008,93017);(120782,120831);(123200,123209);(123632,123641);(125264,125273);
   (130032,130041)]%N.

(** Cased characters that are not case-ignorable (the final-sigma rule
    only asks whether a character is cased after it found it not
    ignorable). *)
Definition cased_ranges : list (N * N) :=
  [(65,90);(97,122);(170,170);(181,181);(186,186);(192,214);(216,246);(248,442);(444,447);(452,659);
   (661,687);(880,883);(886,887);(891,893);(895,895);(902,902);(904,906);(908,908);(910,929);
   (931,1013);(1015,1153);(1162,1327);(1329,1366);(1376,1416);(4256,4293);(4295,4295);(4301,4301);
   (4304,4346);(4349,4351);(5024,5109);(5112,5117);(7296,7304);(7312,7354);(7357,7359);(7424,7467);
   (7531,7543);(7545,7578);(7680,7957);(7960,7965);(7968,8005);(8008,8013);(8016,8023);(8025,8025);
   (8027,8027);(8029,8029);(8031,8061);(8064,8116);(8118,8124);(8126,8126);(8130,8132);(8134,8140);
   (8144,8147);(8150,8155);(8160,8172);(8178,8180);(8182,8188);(8450,8450);(8455,8455);(8458,8467);
   (8469,8469);(8473,8477);(8484,8484);(8486,8486);(8488,8488);(8490,8493);(8495,8500);(8505,8505);
   (8508,8511);(8517,8521);(8526,8526);(8544,8575);(8579,8580);(9398,9449);(11264,11387);
   (11390,11492);(11499,11502);(11506,11507);(11520,11557);(11559,11559);(11565,11565);
   (42560,42605);(42624,42651);(42786,42863);(42865,42887);(42891,42894);(42896,42954);
   (42960,42961);(42963,42963);(42965,42969);(42997,42998);(43002,43002);(43824,43866);
   (43872,43880);(43888,43967);(64256,64262);(64275,64279);(65313,65338);(65345,65370);
   (66560,66639);(66736,66771);(66776,66811);(66928,66938);(66940,66954);(66956,66962);
   (66964,66965);(66967,66977);(66979,66993);(66995,67001);(67003,67004);(68736,68786);
   (68800,68850);(71840,71903);(93760,93823);(119808,119892);(119894,119964);(119966,119967);
   (119970,119970);(119973,119974);(119977,119980);(119982,119993);(119995,119995);(119997,120003);
   (120005,120069);(120071,120074);(120077,120084);(120086,120092);(120094,120121);(120123,120126);
   (120128,120132);(120134,120134);(120138,120144);(120146,120485);(120488,120512);(120514,120538);
   (120540,120570);(120572,120596);(120598,120628);(120630,120654);(120656,120686);(120688,120712);
   (120714,120744);(120746,120770);(120772,120779);(122624,122633);(122635,122654);(125184,125251);
   (127280,127305);(127312,127337);(127344,127369)]%N.

(** Case-ignorable characters. *)
Definition case_ignorable_ranges : list (N * N) :=
  [(39,39);(46,46);(58,58);(94,94);(96,96);(168,168);(173,173);(175,175);(180,180);(183,184);
   (688,879);(884,885);(890,890);(900,901);(903,903);(1155,1161);(1369,1369);(1375,1375);
   (1425,1469);(1471,1471);(1473,1474);(1476,1477);(1479,1479);(1524,1524);(1536,1541);(1552,1562);
   (1564,1564);(1600,1600);(1611,1631);(1648,1648);(1750,1757);(1759,1768);(1770,1773);(1807,1807);
   (1809,1809);(1840,1866);(1958,1968);(2027,2037);(2042,2042);(2045,2045);(2070,2093);(2137,2139);
   (2184,2184);(2192,2193);(2200,2207);(2249,2306);(2362,2362);(2364,2364);(2369,2376);(2381,2381);
   (2385,2391);(2402,2403);(2417,2417);(2433,2433);(2492,2492);(2497,2500);(2509,2509);(2530,2531);
   (2558,2558);(2561,2562);(2620,2620);(2625,2626);(2631,2632);(2635,2637);(2641,2641);(2672,2673);
   (2677,2677);(2689,2690);(2748,2748);(2753,2757);(2759,2760);(2765,2765);(2786,2787);(2810,2815);
   (2817,2817);(2876,2876);(2879,2879);(2881,2884);(2893,2893);(2901,2902);(2914,2915);(2946,2946);
   (3008,3008);(3021,3021);(3072,3072);(3076,3076);(3132,3132);(3134,3136);(3142,3144);(3146,3149);
   (3157,3158);(3170,3171);(3201,3201);(3260,3260);(3263,3263);(3270,3270);(3276,3277);(3298,3299);
   (3328,3329);(3387,3388);(3393,3396);(3405,3405);(3426,3427);(3457,3457);(3530,3530);(3538,3540);
   (3542,3542);(3633,3633);(3636,3642);(3654,3662);(3761,3761);(3764,3772);(3782,3782);(3784,3789);
   (3864,3865);(3893,3893);(3895,3895);(3897,3897);(3953,3966);(3968,3972);(3974,3975);(3981,3991);
   (3993,4028);(4038,4038);(4141,4144);(4146,4151);(4153,4154);(4157,4158);(4184,4185);(4190,4192);
   (4209,4212);(4226,4226);(4229,4230);(4237,4237);(4253,4253);(4348,4348);(4957,4959);(5906,5908);
   (5938,5939);(5970,5971);(6002,6003);(6068,6069);(6071,6077);(6086,6086);(6089,6099);(6103,6103);
   (6109,6109);(6155,6159);(6211,6211);(6277,6278);(6313,6313);(6432,6434);(6439,6440);(6450,6450);
   (6457,6459);(6679,6680);(6683,6683);(6742,6742);(6744,6750);(6752,6752);(6754,6754);(6757,6764);
   (6771,6780);(6783,6783);(6823,6823);(6832,6862);(6912,6915);(6964,6964);(6966,6970);(6972,6972);
   (6978,6978);(7019,7027);(7040,7041);(7074,7077);(7080,7081);(7083,7085);(7142,7142);(7144,7145);
   (7149,7149);(7151,7153);(7212,7219);(7222,7223);(7288,7293);(7376,7378);(7380,7392);(7394,7400);
   (7405,7405);(7412,7412);(7416,7417);(7468,7530);(7544,7544);(7579,7679);(8125,8125);(8127,8129);
   (8141,8143);(8157,8159);(8173,8175);(8189,8190);(8203,8207);(8216,8217);(8228,8228);(8231,8231);
   (8234,8238);(8288,8292);(8294,8303);(8305,8305);(8319,8319);(8336,8348);(8400,8432);
   (11388,11389);(11503,11505);(11631,11631);(11647,11647);(11744,11775);(11823,11823);
   (12293,12293);(12330,12333);(12337,12341);(12347,12347);(12441,12446);(12540,12542);
   (40981,40981);(42232,42237);(42508,42508);(42607,42610);(42612,42621);(42623,42623);
   (42652,42655);(42736,42737);(42752,42785);(42864,42864);(42888,42890);(42994,42996);
   (43000,43001);(43010,43010);(43014,43014);(43019,43019);(43045,43046);(43052,43052);
   (43204,43205);(43232,43249);(43263,43263);(43302,43309);(43335,43345);(43392,43394);
   (43443,43443);(43446,43449);(43452,43453);(43471,43471);(43493,43494);(43561,43566);
   (43569,43570);(43573,43574);(43587,43587);(43596,43596);(43632,43632);(43644,43644);
   (43696,43696);(43698,43700);(43703,43704);(43710,43711);(43713,43713);(43741,43741);
   (43756,43757);(43763,43764);(43766,43766);(43867,43871);(43881,43883);(44005,44005);
   (44008,44008);(44013,44013);(64286,64286);(64434,64450);(65024,65039);(65043,65043);
   (65056,65071);(65106,65106);(65109,65109);(65279,65279);(65287,65287);(65294,65294);
   (65306,65306);(65342,65342);(65344,65344);(65392,65392);(65438,65439);(65507,65507);
   (65529,65531);(66045,66045);(66272,66272);(66422,66426);(67456,67461);(67463,67504);
   (67506,67514);(68097,68099);(68101,68102);(68108,68111);(68152,68154);(68159,68159);
   (68325,68326);(68900,68903);(69291,69292);(69446,69456);(69506,69509);(69633,69633);
   (69688,69702);(69744,69744);(69747,69748);(69759,69761);(69811,69814);(69817,69818);
   (69821,69821);(69826,69826);(69837,69837);(69888,69890);(69927,69931);(69933,69940);
   (70003,70003);(70016,70017);(70070,70078);(70089,70092);(70095,70095);(70191,70193);
   (70196,70196);(70198,70199);(70206,70206);(70367,70367);(70371,70378);(70400,70401);
   (70459,70460);(70464,70464);(70502,70508);(70512,70516);(70712,70719);(70722,70724);
   (70726,70726);(70750,70750);(70835,70840);(70842,70842);(70847,70848);(70850,70851);
   (71090,71093);(71100,71101);(71103,71104);(71132,71133);(71219,71226);(71229,71229);
   (71231,71232);(71339,71339);(71341,71341);(71344,71349);(71351,71351);(71453,71455);
   (71458,71461);(71463,71467);(71727,71735);(71737,71738);(71995,71996);(71998,71998);
   (72003,72003);(72148,72151);(72154,72155);(72160,72160);(72193,72202);(72243,72248);
   (72251,72254);(72263,72263);(72273,72278);(72281,72283);(72330,72342);(72344,72345);
   (72752,72758);(72760,72765);(72767,72767);(72850,72871);(72874,72880);(72882,72883);
   (72885,72886);(73009,73014);(73018,73018);(73020,73021);(73023,73029);(73031,73031);
   (73104,73105);(73109,73109);(73111,73111);(73459,73460);(78896,78904);(92912,92916);
   (92976,92982);(92992,92995);(94031,94031);(94095,94111);(94176,94177);(94179,94180);
   (110576,110579);(110581,110587);(110589,110590);(113821,113822);(113824,113827);(118528,118573);
   (118576,118598);(119143,119145);(119155,119170);(119173,119179);(119210,119213);(119362,119364);
   (121344,121398);(121403,121452);(121461,121461);(121476,121476);(121499,121503);(121505,121519);
   (122880,122886);(122888,122904);(122907,122913);(122915,122916);(122918,122922);(123184,123197);
   (123566,123566);(123628,123631);(125136,125142);(125252,125259);(127995,127999);(917505,917505);
   (917536,917631);(917760,917999)]%N.

(** The characters whose lower case is one other character. *)
Definition lower_table : list (N * N * N * N) :=
  [(65,90,1,97);(192,214,1,224);(216,222,1,248);(256,302,2,257);(306,310,2,307);(313,327,2,314);
   (330,374,2,331);(376,376,1,255);(377,381,2,378);(385,385,1,595);(386,388,2,387);(390,390,1,596);
   (391,391,1,392);(393,394,1,598);(395,395,1,396);(398,398,1,477);(399,399,1,601);(400,400,1,603);
   (401,401,1,402);(403,403,1,608);(404,404,1,611);(406,406,1,617);(407,407,1,616);(408,408,1,409);
   (412,412,1,623);(413,413,1,626);(415,415,1,629);(416,420,2,417);(422,422,1,640);(423,423,1,424);
   (425,425,1,643);(428,428,1,429);(430,430,1,648);(431,431,1,432);(433,434,1,650);(435,437,2,436);
   (439,439,1,658);(440,440,1,441);(444,444,1,445);(452,452,1,454);(453,453,1,454);(455,455,1,457);
   (456,456,1,457);(458,458,1,460);(459,475,2,460);(478,494,2,479);(497,497,1,499);(498,500,2,499);
   (502,502,1,405);(503,503,1,447);(504,542,2,505);(544,544,1,414);(546,562,2,547);
   (570,570,1,11365);(571,571,1,572);(573,573,1,410);(574,574,1,11366);(577,577,1,578);
   (579,579,1,384);(580,580,1,649);(581,581,1,652);(582,590,2,583);(880,882,2,881);(886,886,1,887);
   (895,895,1,1011);(902,902,1,940);(904,906,1,941);(908,908,1,972);(910,911,1,973);(913,929,1,945);
   (932,939,1,964);(975,975,1,983);(984,1006,2,985);(1012,1012,1,952);(1015,1015,1,1016);
   (1017,1017,1,1010);(1018,1018,1,1019);(1021,1023,1,891);(1024,1039,1,1104);(1040,1071,1,1072);
   (1120,1152,2,1121);(1162,1214,2,1163);(1216,1216,1,1231);(1217,1229,2,1218);(1232,1326,2,1233);
   (1329,1366,1,1377);(4256,4293,1,11520);(4295,4295,1,11559);(4301,4301,1,11565);
   (5024,5103,1,43888);(5104,5109,1,5112);(7312,7354,1,4304);(7357,7359,1,4349);(7680,7828,2,7681);
   (7838,7838,1,223);(7840,7934,2,7841);(7944,7951,1,7936);(7960,7965,1,7952);(7976,7983,1,7968);
   (7992,7999,1,7984);(8008,8013,1,8000);(8025,8031,2,8017);(8040,8047,1,8032);(8072,8079,1,8064);
   (8088,8095,1,8080);(8104,8111,1,8096);(8120,8121,1,8112);(8122,8123,1,8048);(8124,8124,1,8115);
   (8136,8139,1,8050);(8140,8140,1,8131);(8152,8153,1,8144);(8154,8155,1,8054);(8168,8169,1,8160);
   (8170,8171,1,8058);(8172,8172,1,8165);(8184,8185,1,8056);(8186,8187,1,8060);(8188,8188,1,8179);
   (8486,8486,1,969);(8490,8490,1,107);(8491,8491,1,229);(8498,8498,1,8526);(8544,8559,1,8560);
   (8579,8579,1,8580);(9398,9423,1,9424);(11264,11311,1,11312);(11360,11360,1,11361);
   (11362,11362,1,619);(11363,11363,1,7549);(11364,11364,1,637);(11367,11371,2,11368);
   (11373,11373,1,593);(11374,11374,1,625);(11375,11375,1,592);(11376,11376,1,594);
   (11378,11378,1,11379);(11381,11381,1,11382);(11390,11391,1,575);(11392,11490,2,11393);
   (11499,11501,2,11500);(11506,11506,1,11507);(42560,42604,2,42561);(42624,42650,2,42625);
   (42786,42798,2,42787);(42802,42862,2,42803);(42873,42875,2,42874);(42877,42877,1,7545);
   (42878,42886,2,42879);(42891,42891,1,42892);(42893,42893,1,613);(42896,42898,2,42897);
   (42902,42920,2,42903);(42922,42922,1,614);(42923,42923,1,604);(42924,42924,1,609);
   (42925,42925,1,620);(42926,42926,1,618);(42928,42928,1,670);(42929,42929,1,647);
   (42930,42930,1,669);(42931,42931,1,43859);(42932,42946,2,42933);(42948,42948,1,42900);
   (42949,42949,1,642);(42950,42950,1,7566);(42951,42953,2,42952);(42960,42960,1,42961);
   (42966,42968,2,42967);(42997,42997,1,42998);(65313,65338,1,65345);(66560,66599,1,66600);
   (66736,66771,1,66776);(66928,66938,1,66967);(66940,66954,1,66979);(66956,66962,1,66995);
   (66964,66965,1,67003);(68736,68786,1,68800);(71840,71871,1,71872);(93760,93791,1,93792);
   (125184,125217,1,125218)]%N.

(** [str.isspace] on one character (also the class [\s] of [re]). *)
Definition isspace (c : char) : bool := in_ranges space_ranges c.

(** [str.isalnum] on one character. *)
Definition isalnum (c : char) : bool := in_ranges alnum_ranges c.

(** [str.isdigit] on one character: decimal digits and the digits that
    need special handling, such as superscript digits. *)
Definition isdigit (c : char) : bool := in_ranges digit_ranges c.

(** The value of a decimal digit; every run of decimal digits in the
    table starts at a digit zero. *)
Definition decimal_value (c : char) : option Z :=
  match List.find (fun r => (fst r <=? c)%N && (c <=? snd r)%N) decimal_ranges with
  | Some r => Some (Z.of_N ((c - fst r) mod 10)%N)
  | None => None
  end.

(** Simple lower-case mapping of one character.  An entry
    [(lo, hi, step, tlo)] maps [lo + k * step <= hi] to [tlo + k * step]. *)
Definition tolower (c : char) : char :=
  match List.find (fun e => match e with
                       | (lo, hi, step, _) =>
                           (lo <=? c)%N && (c <=? hi)%N && (((c - lo) mod step) =? 0)%N
                       end) lower_table with
  | Some (lo, _, _, tlo) => (tlo + (c - lo))%N
  | None => c
  end.

(** Context classes of the final-sigma rule. *)
Definition case_ignorable (c : char) : bool := in_ranges case_ignorable_ranges c.
Definition cased (c : char) : bool := in_ranges cased_ranges c.

End Unicode.

(** ** Results, exceptions and loops

    A call returns a value or raises.  [Timeout] is the model's own third
    outcome: every [while] loop of the script is run with a bound, and the
    theorems on termination show that the bound is never reached. *)

Inductive exn : Type :=
| IndexError | KeyError | ValueError | TypeError | AttributeError
| UnicodeDecodeError | FileNotFoundError | YAMLError
| SystemExit (code : Z).

Inductive res (A : Type) : Type :=
| Ret (a : A)
| Raise (e : exn)
| Timeout.
Arguments Ret {A} a.
Arguments Raise {A} e.
Arguments Timeout {A}.

Definition bind {A B : Type} (m : res A) (k : A -> res B) : res B :=
  match m with
  | Ret a => k a
  | Raise e => Raise e
  | Timeout => Timeout
  end.

Notation "'let*' x ':=' m 'in' k" := (bind m (fun x => k))
  (at level 10, x pattern, m at level 100, k at level 200).

(** What one iteration of a loop body asks for: the next test of the
    condition, or [break]. *)
Inductive ctl (S : Type) : Type :=
| Next (s : S)
| Break (s : S).
Arguments Next {S} s.
Arguments Break {S} s.

(** [while cond: body] on the loop's variables [s], at most [fuel] tests of
    the condition. *)
Fixpoint while {S : Type} (fuel : nat) (cond : S -> res bool)
    (body : S -> res (ctl S)) (s : S) : res S :=
  match fuel with
  | O => Timeout
  | Datatypes.S fuel' =>
      let* b := cond s in
      if b then
        let* c := body s in
        match c with
        | Next s' => while fuel' cond body s'
        | Break s' => Ret s'
        end
      else Ret s
  end.

(** [for x in xs: body], the loop's variables threaded through. *)
Fixpoint for_each {A S : Type} (xs : list A) (body : A -> S -> res S) (s : S) : res S :=
  match xs with
  | [] => Ret s
  | x :: xs' => let* s' := body x s in for_each xs' body s'
  end.

(** ** The [str] operations the script uses *)

Definition len (s : str) : Z := Z.of_nat (length s).

(** [s[i]]: a negative index counts from the end; out of range raises. *)
Definition getitem (s : str) (i : Z) : res char :=
  let i := if i <? 0 then i + len s else i in
  if (0 <=? i) && (i <? len s) then
    match s !! Z.to_nat i with
    | Some c => Ret c
    | None => Raise IndexError
    end
  else Raise IndexError.

(** [s[lo:hi]]: negative bounds count from the end, both bounds are
    clamped to the string, and an empty range gives the empty string. *)
Definition adjust_index (s : str) (i : Z) : Z :=
  let i := if i <? 0 then i + len s else i in
  if i <? 0 then 0 else if len s <=? i then len s else i.

Definition slice (s : str) (lo hi : Z) : str :=
  let lo := adjust_index s lo in
  let hi := adjust_index s hi in
  take (Z.to_nat (hi - lo)) (drop (Z.to_nat lo) s).

(** [s.startswith(p)], [s.endswith(p)] and [sub in s]. *)
Fixpoint startswith (s p : str) : bool :=
  match p, s with
  | [], _ => true
  | _ :: _, [] => false
  | a :: p', b :: s' => (a =? b)%N && startswith s' p'
  end.

Definition endswith (s p : str) : bool := startswith (rev s) (rev p).

Fixpoint contains (s sub : str) : bool :=
  startswith s sub ||
  match s with
  | [] => false
  | _ :: s' => contains s' sub
  end.

(** [c in chars] for a character [c]. *)
Definition char_in (c : char) (chars : str) : bool := existsb (N.eqb c) chars.

(** [s.replace(old, new)]: the occurrences of [old] from left to right,
    without overlap; [skip] counts the characters of a replaced occurrence
    still to pass.  [old] is not empty at any call of the script. *)
Fixpoint replace_from (old new : str) (skip : nat) (s : str) : str :=
  match s with
  | [] => []
  | c :: s' =>
      match skip with
      | Datatypes.S k => replace_from old new k s'
      | O =>
          if startswith s old
          then new ++ replace_from old new (length old - 1) s'
          else c :: replace_from old new O s'
      end
  end.

Definition replace (s old new : str) : str := replace_from old new O s.

(** [s.count(sub)]: occurrences without overlap, [sub] not empty. *)
Fixpoint count_from (sub : str) (skip : nat) (s : str) : Z :=
  match s with
  | [] => 0
  | _ :: s' =>
      match skip with
      | Datatypes.S k => count_from sub k s'
      | O =>
          if startswith s sub
          then 1 + count_from sub (length sub - 1) s'
          else count_from sub O s'
      end
  end.

Definition count (s sub : str) : Z := count_from sub O s.

(** [s.split(sep, 1)]: at most one split, at the first [sep]. *)
Fixpoint split_once_from (sep : str) (before_rev : str) (s : str) : list str :=
  match s with
  | [] => [rev before_rev]
  | c :: s' =>
      if startswith s sep
      then [rev before_rev; drop (length sep) s]
      else split_once_from sep (c :: before_rev) s'
  end.

Definition split_once (s sep : str) : list str := split_once_from sep [] s.

(** [s.strip()]: leading and trailing white space removed. *)
Fixpoint lstrip_by (p : char -> bool) (s : str) : str :=
  match s with
  | [] => []
  | c :: s' => if p c then lstrip_by p s' else s
  end.

Definition strip (s : str) : str :=
  rev (lstrip_by Unicode.isspace (rev (lstrip_by Unicode.isspace s))).

(** [s.lower()]: every character by its lower-case mapping; capital I
    with dot above (U+0130) becomes two characters, and capital sigma
    (U+03A3) becomes final sigma when it ends a word: preceded by a cased
    letter and not followed by one, case-ignorable characters skipped. *)
Definition final_sigma (before_rev after : str) : bool :=
  match lstrip_by Unicode.case_ignorable before_rev with
  | [] => false
  | c :: _ =>
      Unicode.cased c &&
      match lstrip_by Unicode.case_ignorable after with
      | [] => true
      | d :: _ => negb (Unicode.cased d)
      end
  end.

Fixpoint lower_from (before_rev : str) (s : str) : str :=
  match s with
  | [] => []
  | c :: s' =>
      (if (c =? 304)%N then [105; 775]%N
       else if (c =? 931)%N then [if final_sigma before_rev s' then 962 else 963]%N
       else [Unicode.tolower c])
      ++ lower_from (c :: before_rev) s'
  end.

Definition lower (s : str) : str := lower_from [] s.

(** [s.isdigit()]: not empty and made of digit characters. *)
Definition isdigit (s : str) : bool :=
  match s with
  | [] => false
  | _ => forallb Unicode.isdigit s
  end.

(** [int(s)] in base ten: white space around, a sign, then decimal digits
    of any script with single underscores between them; anything else
    raises [ValueError].

    The white space [int] skips is not quite that of [str.strip]: the
    string is first brought to ASCII, which turns the white space above
    U+007F into blanks and leaves the characters below as they are, and the
    number parser then skips the blank and U+0009 ... U+000D only; the
    separators U+001C ... U+001F, which [str.isspace] accepts, are not
    skipped.

    A literal with more digits than the interpreter's limit raises
    [ValueError] too.  The limit is the default one, 4300 digits
    ([sys.get_int_max_str_digits()]; the script does not change it); the
    underscores are not counted, the leading zeros are. *)
Definition int_space (c : char) : bool :=
  Unicode.isspace c && negb ((28 <=? c) && (c <=? 31))%N.

Definition MAX_STR_DIGITS : Z := 4300.

Fixpoint int_digits (after_digit : bool) (acc : Z) (d : str) : option Z :=
  match d with
  | [] => if after_digit then Some acc else None
  | c :: d' =>
      if (c =? chr "_")%N
      then (if after_digit then int_digits false acc d' else None)
      else match Unicode.decimal_value c with
           | Some v => int_digits true (10 * acc + v) d'
           | None => None
           end
  end.

(** The number of digits of a literal. *)
Definition count_digits (d : str) : Z :=
  len (List.filter (fun c => negb (c =? chr "_")%N) d).

Definition int (s : str) : res Z :=
  let t := rev (lstrip_by int_space (rev (lstrip_by int_space s))) in
  let '(negative, d) :=
    match t with
    | c :: r => if (c =? chr "-")%N then (true, r)
                else if (c =? chr "+")%N then (false, r) else (false, t)
    | [] => (false, t)
    end in
  match int_digits false 0 d with
  | Some v =>
      if MAX_STR_DIGITS <? count_digits d then Raise ValueError
      else Ret (if negative then - v else v)
  | None => Raise ValueError
  end.

(** [s.zfill(width)]: zeros on the left up to [width] characters, after
    the sign if there is one; a string already that long is unchanged. *)
Definition zfill (s : str) (width : Z) : str :=
  let zeros := repeat (chr "0") (Z.to_nat (width - len s)) in
  match s with
  | c :: r => if (c =? chr "-")%N || (c =? chr "+")%N then c :: zeros ++ r else zeros ++ s
  | [] => zeros
  end.

(** [a < b] on strings: lexicographic on code points. *)
Fixpoint str_ltb (a b : str) : bool :=
  match a, b with
  | _, [] => false
  | [], _ :: _ => true
  | x :: a', y :: b' => (x <? y)%N || ((x =? y)%N && str_ltb a' b')
  end.

(** Truth value of a string, and of a value that may be [None]. *)
Definition truthy (s : str) : bool :=
  match s with
  | [] => false
  | _ => true
  end.

Definition truthy_opt (o : option str) : bool :=
  match o with
  | Some s => truthy s
  | None => false
  end.

(** ** The fragment of [re] the script uses

    Every pattern of the script is a sequence of character classes, each
    taken once, or repeated greedily by [*] or [+], and possibly wrapped in
    a capturing group.  Matching backtracks as [re] does: a repetition first
    takes as many characters as it can and gives them back one at a time
    while the rest of the pattern fails.  No pattern of the script matches
    the empty string. *)

Module Re.

Inductive quant : Type := One | Star | Plus.

Record item : Type := Item { cls : char -> bool; rep : quant; captured : bool }.

Definition regex : Type := list item.

(** The character classes. *)
Definition only (a : ascii) : char -> bool := fun c => (c =? chr a)%N.
Definition all_but (a : ascii) : char -> bool := fun c => negb (c =? chr a)%N.
Definition word : char -> bool := fun c => Unicode.isalnum c || (c =? chr "_")%N.
Definition space : char -> bool := Unicode.isspace.
Definition ascii_letter : char -> bool :=
  fun c => ((chr "a" <=? c) && (c <=? chr "z") || (chr "A" <=? c) && (c <=? chr "Z"))%N.

(** Length of the longest prefix of [s] inside the class [p]. *)
Fixpoint run (p : char -> bool) (s : str) : nat :=
  match s with
  | [] => O
  | c :: s' => if p c then S (run p s') else O
  end.

(** A repetition that may take [n] characters and must take [lo]: try the
    rest of the pattern [k] after [n], [n - 1], ..., [lo] characters. *)
Fixpoint backtrack (k : str -> option (list nat)) (s : str) (lo n : nat)
    : option (list nat) :=
  if (n <? lo)%nat then None
  else match k (drop n s) with
       | Some ls => Some (n :: ls)
       | None =>
           match n with
           | O => None
           | S n' => backtrack k s lo n'
           end
       end.

(** Match [re] at the head of [s]: the number of characters each item
    took, or [None]. *)
Fixpoint match_here (re : regex) (s : str) : option (list nat) :=
  match re with
  | [] => Some []
  | it :: re' =>
      match rep it with
      | One =>
          match s with
          | c :: s' =>
              if cls it c then option_map (cons 1%nat) (match_here re' s') else None
          | [] => None
          end
      | Star => backtrack (match_here re') s 0 (run (cls it) s)
      | Plus => backtrack (match_here re') s 1 (run (cls it) s)
      end
  end.

(** A match object: [m.start()], [m.end()] and the spans of the groups. *)
Record match_obj : Type :=
  Match { m_start : Z; m_end : Z; m_groups : list (Z * Z) }.

Fixpoint spans (re : regex) (taken : list nat) (at_ : Z) : Z * list (Z * Z) :=
  match re, taken with
  | it :: re', n :: taken' =>
      let next := at_ + Z.of_nat n in
      let '(e, gs) := spans re' taken' next in
      (e, if captured it then (at_, next) :: gs else gs)
  | _, _ => (at_, [])
  end.

Definition match_at (re : regex) (taken : list nat) (p : Z) : match_obj :=
  let '(e, gs) := spans re taken p in Match p e gs.

(** [pattern.search(text, pos)]: the leftmost match that starts at [pos]
    or later; [pos] is clamped to the text. *)
Fixpoint search_from (re : regex) (s : str) (p : Z) : option match_obj :=
  match match_here re s with
  | Some taken => Some (match_at re taken p)
  | None =>
      match s with
      | [] => None
      | _ :: s' => search_from re s' (p + 1)
      end
  end.

Definition search (re : regex) (text : str) (pos : Z) : option match_obj :=
  let pos := if pos <? 0 then 0 else if len text <? pos then len text else pos in
  search_from re (drop (Z.to_nat pos) text) pos.

(** [m.group(k)] for a match in [text], [k] from 1. *)
Definition group (text : str) (m : match_obj) (k : nat) : res str :=
  match m_groups m !! (k - 1)%nat with
  | Some (a, b) => Ret (slice text a b)
  | None => Raise IndexError
  end.

(** The successive matches of [re] in a text, left to right and without
    overlap; [skip] counts the characters of the last match still to
    pass. *)
Fixpoint find_all_from (re : regex) (skip : nat) (p : Z) (s : str) : list (Z * Z) :=
  match skip with
  | S k =>
      match s with
      | [] => []
      | _ :: s' => find_all_from re k (p + 1) s'
      end
  | O =>
      match match_here re s with
      | Some taken =>
          let n := list_sum taken in
          (p, p + Z.of_nat n) ::
          match s with
          | [] => []
          | _ :: s' => find_all_from re (n - 1) (p + 1) s'
          end
      | None =>
          match s with
          | [] => []
          | _ :: s' => find_all_from re O (p + 1) s'
          end
      end
  end.

Definition find_all (re : regex) (text : str) : list (Z * Z) :=
  find_all_from re O 0 text.

(** The pieces of [text] between the matches. *)
Fixpoint pieces (text : str) (last : Z) (ms : list (Z * Z)) : list str :=
  match ms with
  | [] => [slice text last (len text)]
  | (a, b) :: ms' => slice text last a :: pieces text b ms'
  end.

(** [re.split(pattern, text)] for a pattern without groups. *)
Definition split (re : regex) (text : str) : list str :=
  pieces text 0 (find_all re text).

Fixpoint join (sep : str) (l : list str) : str :=
  match l with
  | [] => []
  | [x] => x
  | x :: l' => x ++ sep ++ join sep l'
  end.

(** [re.sub(pattern, repl, text)] for a replacement without group
    references. *)
Definition sub (re : regex) (repl text : str) : str :=
  join repl (split re text).

End Re.

(** ** The script: constants *)

(** A parsed entry is a [dict] from field names to raw values. *)
Abbreviation entry := (gmap (list N) (list N)).

(** The CV owner's last name, in Latin and in Cyrillic letters. *)
Definition OWNER_LAST_NAMES : list str :=
  [lit "Rozhkov"; [1056; 1086; 1078; 1082; 1086; 1074]%N].

Definition MONTH_MAP : gmap (list N) (list N) :=
  list_to_map
    [(lit "jan", lit "01"); (lit "feb", lit "02"); (lit "mar", lit "03");
     (lit "apr", lit "04"); (lit "may", lit "05"); (lit "jun", lit "06");
     (lit "jul", lit "07"); (lit "aug", lit "08"); (lit "sep", lit "09");
     (lit "oct", lit "10"); (lit "nov", lit "11"); (lit "dec", lit "12")].

(** The character sets of the scanner: [" \t\n\r"], the same with a comma,
    and the characters that end a bare value. *)
Definition WHITESPACE : str := [chr " "; TAB; LF; CR].
Definition WHITESPACE_COMMA : str := [chr " "; TAB; LF; CR; chr ","].
Definition BARE_END : str := [chr " "; TAB; LF; CR; chr ","; chr "}"].

(** The bound given to a loop that moves an index [i] up to [len s]. *)
Definition loop_bound (s : str) (i : Z) : nat := S (Z.to_nat (len s - i)).

(** The patterns.  [entry_pattern] is compiled with [re.IGNORECASE], which
    changes nothing: its literals [@], [{] and [,] have no case. *)
Definition entry_pattern : Re.regex :=          (* @(\w+)\s*\{([^,]+), *)
  [Re.Item (Re.only "@") Re.One false; Re.Item Re.word Re.Plus true;
   Re.Item Re.space Re.Star false; Re.Item (Re.only "{") Re.One false;
   Re.Item (Re.all_but ",") Re.Plus true; Re.Item (Re.only ",") Re.One false].

Definition field_re : Re.regex :=               (* (\w+)\s*=\s* *)
  [Re.Item Re.word Re.Plus true; Re.Item Re.space Re.Star false;
   Re.Item (Re.only "=") Re.One false; Re.Item Re.space Re.Star false].

Definition and_separator : Re.regex :=          (* \s+and\s+ *)
  [Re.Item Re.space Re.Plus false; Re.Item (Re.only "a") Re.One false;
   Re.Item (Re.only "n") Re.One false; Re.Item (Re.only "d") Re.One false;
   Re.Item Re.space Re.Plus false].

Definition latex_command : Re.regex :=          (* \\[a-zA-Z]+\s* *)
  [Re.Item (Re.only "\") Re.One false; Re.Item Re.ascii_letter Re.Plus false;
   Re.Item Re.space Re.Star false].

(** ** The script: the BibTeX parser *)

(** Remove outermost matching braces from [value]. *)
Definition _strip_braces (value : str) : res str :=
  while (S (length value))
    (fun value => Ret (startswith value (lit "{") && endswith value (lit "}")))
    (fun value => Ret (Next (slice value 1 (-1))))
    value.

(** Normalise common LaTeX commands to plain Unicode. *)
Definition _clean_latex (value : str) : str :=
  let value := replace value (lit "\flqq") [171%N] in
  let value := replace value (lit "\frqq") [187%N] in
  let value := replace value (lit "\dq") [DQUOTE] in
  let value := replace value (lit "~") (lit " ") in
  let value := replace value (lit "--") [8211%N] in
  let value := Re.sub latex_command [] value in
  let value := replace (replace value (lit "{") []) (lit "}") [] in
  strip value.

(** What one [part] of the author field adds to [names]: the body of the
    loop of [_parse_author_list]. *)
Definition author_part (part : str) (names : list str) : res (list str) :=
  let part := strip part in
  if negb (truthy part) then Ret names
  else if 2 <=? count part (lit ",") then Ret names
  else
    let* name :=
      if contains part (lit ",") then
        match split_once part (lit ",") with
        | [last; first] => Ret (strip first ++ lit " " ++ strip last)
        | _ => Raise ValueError
        end
      else Ret part in
    let name := _clean_latex name in
    if truthy name then Ret (names ++ [name]) else Ret names.

(** Split a BibTeX [author] field into individual names. *)
Definition _parse_author_list (raw : str) : res (list str) :=
  let parts := Re.split and_separator raw in
  for_each parts author_part [].

(** The loop [while i < len(body) and p(body[i]): i += 1]. *)
Definition advance_while (body : str) (p : char -> bool) (i : Z) : res Z :=
  while (loop_bound body i)
    (fun i => if i <? len body
              then let* c := getitem body i in Ret (p c)
              else Ret false)
    (fun i => Ret (Next (i + 1)))
    i.

(** The loop that passes the characters of [chars] from index [i] on. *)
Definition skip_chars (body chars : str) (i : Z) : res Z :=
  advance_while body (fun c => char_in c chars) i.

(** One step of the brace counter: [text[i]] opens, closes or leaves the
    depth, and the index moves on. *)
Definition brace_step (text : str) (st : Z * Z) : res (ctl (Z * Z)) :=
  let '(i, depth) := st in
  let* c := getitem text i in
  let depth :=
    if (c =? chr "{")%N then depth + 1
    else if (c =? chr "}")%N then depth - 1
    else depth in
  Ret (Next (i + 1, depth)).

(** The loop [while i < len(text) and depth > 0] around [brace_step]. *)
Definition match_braces (text : str) (i depth : Z) : res (Z * Z) :=
  while (loop_bound text i)
    (fun '(i, depth) => Ret ((i <? len text) && (0 <? depth)))
    (brace_step text)
    (i, depth).

(** The loop over a quoted value from index [j] on: up to the closing
    quote, a backslash taking the character after it along. *)
Definition quoted_end (body : str) (j : Z) : res Z :=
  while (loop_bound body j)
    (fun j => if j <? len body
              then let* c := getitem body j in Ret (negb (c =? DQUOTE)%N)
              else Ret false)
    (fun j =>
       let* c := getitem body j in
       let j := if (c =? BACKSLASH)%N then j + 1 else j in  (* skip escaped char *)
       Ret (Next (j + 1)))
    j.

(** Extract a BibTeX field value starting at [start]: brace-delimited,
    quoted, or bare. *)
Definition _extract_value (body : str) (start : Z) : res (str * Z) :=
  (* Skip whitespace *)
  let* i := skip_chars body WHITESPACE start in
  if len body <=? i then Ret ([], i)
  else
    let* c := getitem body i in
    if (c =? chr "{")%N then
      (* Brace-delimited: find matching close *)
      let* (j, _) := match_braces body (i + 1) 1 in
      let value := slice body (i + 1) (j - 1) in
      (* Skip trailing comma / whitespace *)
      let* j := skip_chars body WHITESPACE_COMMA j in
      Ret (value, j)
    else if (c =? DQUOTE)%N then
      (* Quoted value *)
      let* j := quoted_end body (i + 1) in
      let value := slice body (i + 1) j in
      let j := j + 1 in  (* skip closing quote *)
      let* j := skip_chars body WHITESPACE_COMMA j in
      Ret (value, j)
    else
      (* Bare value (number or month abbreviation) *)
      let* j := advance_while body (fun c => negb (char_in c BARE_END)) i in
      let value := slice body i j in
      let* j := skip_chars body WHITESPACE_COMMA j in
      Ret (value, j).

(** One turn of the loop over the [key = value] pairs of an entry body:
    the next field name from [fpos] on, its value, and the index after
    it. *)
Definition field_step (body : str) (st : Z * entry) : res (ctl (Z * entry)) :=
  let '(fpos, fields) := st in
  match Re.search field_re body fpos with
  | None => Ret (Break (fpos, fields))
  | Some fm =>
      let* name := Re.group body fm 1 in
      let key := lower name in
      let vstart := Re.m_end fm in
      let* (value, vend) := _extract_value body vstart in
      Ret (Next (vend, <[key := value]> fields))
  end.

(** The loop [while fpos < len(body)] around [field_step]. *)
Definition parse_fields (body : str) (fields : entry) : res entry :=
  let* (_, fields) :=
    while (loop_bound body 0)
      (fun st => Ret (fst st <? len body))
      (field_step body)
      (0, fields) in
  Ret fields.

(** One turn of the loop over the entries: the next [@type{key,] from
    [pos] on, the body up to the balanced closing brace, its fields. *)
Definition entry_step (text : str) (st : Z * list entry) : res (ctl (Z * list entry)) :=
  let '(pos, entries) := st in
  match Re.search entry_pattern text pos with
  | None => Ret (Break (pos, entries))
  | Some m =>
      let* type_name := Re.group text m 1 in
      let entry_type := lower type_name in
      (* Find the balanced closing brace for the whole entry *)
      let start := Re.m_end m in
      let* (i, _) := match_braces text start 1 in
      let body := slice text start (i - 1) in
      let pos := i in
      let fields : entry := {[ lit "_type" := entry_type ]} in
      (* Parse key = value pairs from body *)
      let* fields := parse_fields body fields in
      Ret (Next (pos, entries ++ [fields]))
  end.

(** Return a list of dicts, one per BibTeX entry, with lowercased field
    keys: the loop [while pos < len(text)] around [entry_step]. *)
Definition _parse_bib (text : str) : res (list entry) :=
  let* (_, entries) :=
    while (loop_bound text 0)
      (fun st => Ret (fst st <? len text))
      (entry_step text)
      (0, []) in
  Ret entries.

(** ** The script: from entries to publication records *)

(** Convert a month field (abbrev or numeric) to two-digit string. *)
Definition _resolve_month (raw : option str) : res (option str) :=
  match raw with
  | None => Ret None
  | Some raw =>
      let raw := lower (strip raw) in
      match MONTH_MAP !! raw with
      | Some month => Ret (Some month)
      | None =>
          if isdigit raw then
            let* n := int raw in
            if (1 <=? n) && (n <=? 12) then Ret (Some (zfill raw 2)) else Ret None
          else Ret None
      end
  end.

(** Wrap the CV owner's name with [***] for emphasis. *)
Definition _emphasise_owner (authors : list str) : list str :=
  map (fun name =>
         if existsb (fun ln => contains (lower name) (lower ln)) OWNER_LAST_NAMES
         then lit "***" ++ name ++ lit "***"
         else name)
      authors.

(** A publication record: the dict with the keys [title], [authors],
    [journal] (optional), [date] and [doi] (optional). *)
Record Publication : Type := {
  title : str;
  authors : list str;
  journal : option str;
  date : str;
  doi : option str
}.

(** [a or b] on strings. *)
Definition str_or (a b : str) : str := if truthy a then a else b.

(** Convert one parsed BibTeX entry to a publication record; [None] if the
    entry lacks required data (title + year). *)
Definition bib_entry_to_publication (e : entry) : res (option Publication) :=
  match e !! lit "title", e !! lit "year" with
  | Some raw_title, Some raw_year =>
      if negb (truthy raw_title) || negb (truthy raw_year) then Ret None
      else
        let* stripped := _strip_braces raw_title in
        let title := _clean_latex stripped in
        (* Authors *)
        let raw_authors := default [] (e !! lit "author") in
        let* authors := _parse_author_list raw_authors in
        let authors := _emphasise_owner authors in
        (* Venue: journal > booktitle *)
        let venue :=
          str_or (default [] (e !! lit "journal"))
                 (str_or (default [] (e !! lit "booktitle")) []) in
        let* venue := _strip_braces venue in
        let venue := _clean_latex venue in
        (* Date *)
        let* month := _resolve_month (e !! lit "month") in
        let year := strip raw_year in
        let date :=
          match month with
          | Some m => if truthy m then year ++ lit "-" ++ m else year
          | None => year
          end in
        let* doi :=
          if truthy_opt (e !! lit "doi") then
            match e !! lit "doi" with
            | Some d => let* d := _strip_braces d in Ret (Some d)
            | None => Raise KeyError
            end
          else Ret None in
        Ret (Some {| title := title;
                     authors := authors;
                     journal := if truthy venue then Some venue else None;
                     date := date;
                     doi := doi |})
  | _, _ => Ret None
  end.

(** ** The script: sorting and merging *)

(** [publications.sort(key=lambda p: p["date"], reverse=True)]: a stable
    sort, newest first; among equal dates the original order is kept.
    [insert_by_date p l] puts [p] in front of the first record whose date
    is not greater. *)
Fixpoint insert_by_date (p : Publication) (l : list Publication) : list Publication :=
  match l with
  | [] => [p]
  | q :: l' =>
      if str_ltb (date p) (date q) then q :: insert_by_date p l' else p :: q :: l'
  end.

Definition sort_by_date_reverse (l : list Publication) : list Publication :=
  foldr insert_by_date [] l.

(** The loop of [main] over the entries: the records of the entries that
    have one, in source order. *)
Definition collect_publications (entries : list entry) : res (list Publication) :=
  for_each entries
    (fun e publications =>
       let* pub := bib_entry_to_publication e in
       match pub with
       | Some p => Ret (publications ++ [p])
       | None => Ret publications
       end)
    [].

(** From the text of the bibliography to the sorted records. *)
Definition publications_of (bib_text : str) : res (list Publication) :=
  let* entries := _parse_bib bib_text in
  let* publications := collect_publications entries in
  Ret (sort_by_date_reverse publications).

(** ** The objects of the loaded document

    [yaml.safe_load] builds Python objects.  The scalars ([None],
    booleans, integers, strings) cannot be changed, and the model holds
    them by value.  Lists and dicts can be changed, and one list or dict
    can be the value of several keys (an alias in the YAML text gives the
    object of its anchor, not a copy), or hold itself: the model holds them
    in a store, and a value is a scalar or a reference to an object of the
    store.  The address of an object is its index in the store; it only
    serves to tell objects apart.  A dict is held as the list of its items
    in insertion order. *)
Abbreviation addr := nat.

#[warnings="-register-all"]
Inductive yaml : Type :=
| YNone
| YBool (b : bool)
| YInt (n : Z)
| YStr (s : str)
| YRef (a : addr).

#[warnings="-register-all"]
Inductive object : Type :=
| ODict (d : list (yaml * yaml))
| OList (l : list yaml).

Abbreviation heap := (list object).

Definition is_key (key : str) (v : yaml) : bool :=
  match v with
  | YStr s => bool_decide (s = key)
  | _ => false
  end.

Definition dict_get (d : list (yaml * yaml)) (key : str) : option yaml :=
  match List.find (fun kv => is_key key (fst kv)) d with
  | Some kv => Some (snd kv)
  | None => None
  end.

Fixpoint dict_set (d : list (yaml * yaml)) (key : str) (v : yaml) : list (yaml * yaml) :=
  match d with
  | [] => [(YStr key, v)]
  | kv :: d' => if is_key key (fst kv) then (fst kv, v) :: d' else kv :: dict_set d' key v
  end.

(** The operations below follow a reference to its object.  The stores
    that [yaml.safe_load] returns are closed; a reference to no object, which
    they do not have, is taken as a value without the operation. *)

(** [key in v] for a string [key]. *)
Definition yaml_contains (h : heap) (v : yaml) (key : str) : res bool :=
  match v with
  | YStr s => Ret (contains s key)
  | YRef a =>
      match h !! a with
      | Some (ODict d) => Ret (match dict_get d key with Some _ => true | None => false end)
      | Some (OList l) => Ret (existsb (is_key key) l)
      | None => Raise TypeError
      end
  | _ => Raise TypeError
  end.

(** [v[key]] for a string [key]. *)
Definition yaml_getitem (h : heap) (v : yaml) (key : str) : res yaml :=
  match v with
  | YRef a =>
      match h !! a with
      | Some (ODict d) =>
          match dict_get d key with Some x => Ret x | None => Raise KeyError end
      | _ => Raise TypeError
      end
  | _ => Raise TypeError
  end.

(** [v[key] = x] for a string [key]: the dict [v] refers to is changed
    in place, and the store after the assignment is returned. *)
Definition yaml_setitem (h : heap) (v : yaml) (key : str) (x : yaml) : res heap :=
  match v with
  | YRef a =>
      match h !! a with
      | Some (ODict d) => Ret (<[a := ODict (dict_set d key x)]> h)
      | _ => Raise TypeError
      end
  | _ => Raise TypeError
  end.

(** [v.setdefault(key, {})]: the value under [key], and the store after
    the call.  When the key is not there the new empty dict becomes an
    object of the store and the dict [v] refers to is changed in place;
    when it is there the new dict is dropped, and the model does not put it
    in the store. *)
Definition yaml_setdefault (h : heap) (v : yaml) (key : str) : res (yaml * heap) :=
  match v with
  | YRef a =>
      match h !! a with
      | Some (ODict d) =>
          match dict_get d key with
          | Some y => Ret (y, h)
          | None =>
              let e := length h in
              Ret (YRef e, <[a := ODict (dict_set d key (YRef e))]> (h ++ [ODict []]))
          end
      | _ => Raise AttributeError
      end
  | _ => Raise AttributeError
  end.

(** An object that the script builds and nothing else refers to, with the
    objects inside it: a tree.  The keys of its dicts are strings. *)
#[warnings="-register-all"]
Inductive tree : Type :=
| TNone
| TBool (b : bool)
| TInt (n : Z)
| TStr (s : str)
| TList (l : list tree)
| TDict (d : list (str * tree)).

(** A publication record as the dict the script builds, keys in the order
    of their insertion. *)
Definition publication_dict (p : Publication) : tree :=
  TDict
    ([(lit "title", TStr (title p));
      (lit "authors", TList (map TStr (authors p)))]
     ++ match journal p with Some v => [(lit "journal", TStr v)] | None => [] end
     ++ [(lit "date", TStr (date p))]
     ++ match doi p with Some d => [(lit "doi", TStr d)] | None => [] end).

(** The objects of a tree put in the store, each at a new address, and
    the value that refers to the tree. *)
Fixpoint new_object (t : tree) (h : heap) : yaml * heap :=
  match t with
  | TNone => (YNone, h)
  | TBool b => (YBool b, h)
  | TInt n => (YInt n, h)
  | TStr s => (YStr s, h)
  | TList l =>
      let '(vs, h) :=
        (fix items (l : list tree) (h : heap) : list yaml * heap :=
           match l with
           | [] => ([], h)
           | t :: l' =>
               let '(v, h) := new_object t h in
               let '(vs, h) := items l' h in
               (v :: vs, h)
           end) l h in
      (YRef (length h), h ++ [OList vs])
  | TDict d =>
      let '(kvs, h) :=
        (fix items (d : list (str * tree)) (h : heap) : list (yaml * yaml) * heap :=
           match d with
           | [] => ([], h)
           | (k, t) :: d' =>
               let '(v, h) := new_object t h in
               let '(kvs, h) := items d' h in
               ((YStr k, v) :: kvs, h)
           end) d h in
      (YRef (length h), h ++ [ODict kvs])
  end.

(** [str(n)] for an integer. *)
Definition str_of_int (n : Z) : str :=
  lit (NilZero.string_of_int (Z.to_int n)).

(** The two files of the script. *)
Inductive path : Type := BIB_PATH | CV_PATH.

Section Main.

(** What the script takes from outside: the contents of files and their
    UTF-8 coding, PyYAML's loader and dumper, and the printed form of the
    two paths (they depend on where the repository is checked out). *)
Context {bytes : Type}.
Variable decode : bytes -> option str.      (* [None]: not valid UTF-8 *)
Variable encode : str -> bytes.
Variable safe_load : str -> option (heap * yaml).  (* [None]: not a YAML document *)
Variable dump : heap -> yaml -> option str.        (* [None]: the dumper raises *)
Variable path_str : path -> str.

(** The world of the script: the two files, absent or with a content, and
    what was printed so far on the two streams. *)
Record world : Type := World {
  bib_file : option bytes;
  cv_file : option bytes;
  stdout : list str;
  stderr : list str
}.

Definition file (w : world) (p : path) : option bytes :=
  match p with
  | BIB_PATH => bib_file w
  | CV_PATH => cv_file w
  end.

(** Computations in a world: a result and the world after. *)
Definition io (A : Type) : Type := world -> res A * world.

Definition io_bind {A B : Type} (m : io A) (k : A -> io B) : io B :=
  fun w =>
    match m w with
    | (Ret a, w') => k a w'
    | (Raise e, w') => (Raise e, w')
    | (Timeout, w') => (Timeout, w')
    end.

Notation "'let!' x ':=' m 'in' k" := (io_bind m (fun x => k))
  (at level 10, x pattern, m at level 100, k at level 200).

Definition pure {A : Type} (r : res A) : io A := fun w => (r, w).

(** The result of a call to the outside that raises [e] when it fails. *)
Definition or_raise {A : Type} (e : exn) (o : option A) : res A :=
  match o with
  | Some a => Ret a
  | None => Raise e
  end.

Definition exists_ (p : path) : io bool :=
  fun w => (Ret (match file w p with Some _ => true | None => false end), w).

Definition read_text (p : path) : io str :=
  fun w =>
    match file w p with
    | Some content => (or_raise UnicodeDecodeError (decode content), w)
    | None => (Raise FileNotFoundError, w)
    end.

(** [write_text] replaces the content of the file; the write itself is
    taken to succeed. *)
Definition write_text (p : path) (data : str) : io unit :=
  fun w =>
    (Ret tt,
     match p with
     | BIB_PATH => World (Some (encode data)) (cv_file w) (stdout w) (stderr w)
     | CV_PATH => World (bib_file w) (Some (encode data)) (stdout w) (stderr w)
     end).

Definition print (line : str) : io unit :=
  fun w => (Ret tt, World (bib_file w) (cv_file w) (stdout w ++ [line]) (stderr w)).

Definition print_stderr (line : str) : io unit :=
  fun w => (Ret tt, World (bib_file w) (cv_file w) (stdout w) (stderr w ++ [line])).

Definition sys_exit {A : Type} (code : Z) : io A := pure (Raise (SystemExit code)).

Definition MISSING_CV_KEY : str := lit "ERROR: cv.yml missing top-level 'cv' key".

Definition main : io unit :=
  let! bib_exists := exists_ BIB_PATH in
  if negb bib_exists then
    let! _ := print_stderr (lit "ERROR: " ++ path_str BIB_PATH ++ lit " not found") in
    sys_exit 1
  else
  let! cv_exists := exists_ CV_PATH in
  if negb cv_exists then
    let! _ := print_stderr (lit "ERROR: " ++ path_str CV_PATH ++ lit " not found") in
    sys_exit 1
  else
  let! bib_text := read_text BIB_PATH in
  let! entries := pure (_parse_bib bib_text) in
  let! publications := pure (collect_publications entries) in
  (* Sort newest-first by date string (YYYY or YYYY-MM) *)
  let publications := sort_by_date_reverse publications in
  (* Read cv.yml *)
  let! cv_text := read_text CV_PATH in
  let! (h, cv_data) := pure (or_raise YAMLError (safe_load cv_text)) in
  (* Inject publications into sections *)
  let! has_cv := pure (yaml_contains h cv_data (lit "cv")) in
  if negb has_cv then
    let! _ := print_stderr MISSING_CV_KEY in
    sys_exit 1
  else
  let! cv := pure (yaml_getitem h cv_data (lit "cv")) in
  let! (sections, h) := pure (yaml_setdefault h cv (lit "sections")) in
  (* the records are objects of the interpreter since the loop above; they
     enter the store of the document here, where the document first
     refers to them *)
  let '(publications_list, h) :=
    new_object (TList (map publication_dict publications)) h in
  let! h := pure (yaml_setitem h sections (lit "Publications") publications_list) in
  (* Write back *)
  let! dumped := pure (or_raise YAMLError (dump h cv_data)) in
  let! _ := write_text CV_PATH dumped in
  print (lit "Injected " ++ str_of_int (Z.of_nat (length publications))
         ++ lit " publications into " ++ path_str CV_PATH).

(** The exit status of the process for a result of [main]: [sys.exit(n)]
    gives [n], any other exception that reaches the top gives 1. *)
Definition exit_status (r : res unit) : option Z :=
  match r with
  | Ret _ => Some 0
  | Raise (SystemExit code) => Some code
  | Raise _ => Some 1
  | Timeout => None
  end.

End Main.

(** ** Definitions used to state the theorems *)

(** Case analysis on every integer comparison of the goal. *)
Ltac zcases :=
  cbv zeta;
  repeat match goal with
         | |- context [Z.ltb ?a ?b] => destruct (Z.ltb_spec a b)
         | |- context [Z.leb ?a ?b] => destruct (Z.leb_spec a b)
         | H : context [Z.ltb ?a ?b] |- _ => destruct (Z.ltb_spec a b)
         | H : context [Z.leb ?a ?b] |- _ => destruct (Z.leb_spec a b)
         end.

(** Where the brace counter stops on [s], started at [depth]: the number
    of characters it passes and the depth it ends with. *)
Fixpoint braces_end (depth : Z) (s : str) : nat * Z :=
  match s with
  | [] => (O, depth)
  | c :: s' =>
      if 0 <? depth then
        let d := if (c =? chr "{")%N then depth + 1
                 else if (c =? chr "}")%N then depth - 1 else depth in
        let '(n, d') := braces_end d s' in (S n, d')
      else (O, depth)
  end.

(** Where the scan of a quoted value stops on [s]: the number of
    characters it passes (one more than there are when [s] ends in a
    backslash). *)
Fixpoint quoted_run (s : str) : nat :=
  match s with
  | [] => O
  | c :: s' =>
      if (c =? DQUOTE)%N then O
      else if (c =? BACKSLASH)%N then
        match s' with
        | [] => 2%nat
        | _ :: s'' => S (S (quoted_run s''))
        end
      else S (quoted_run s')
  end.

(** Brace depth after [s], from [depth]; [None] if a closing brace comes
    with nothing open.  [s] has balanced braces when it goes from depth 0
    back to depth 0. *)
Fixpoint depth_after (depth : nat) (s : str) : option nat :=
  match s with
  | [] => Some depth
  | c :: s' =>
      if (c =? chr "{")%N then depth_after (S depth) s'
      else if (c =? chr "}")%N then
        match depth with
        | O => None
        | S d => depth_after d s'
        end
      else depth_after depth s'
  end.

Definition balanced (s : str) : bool :=
  match depth_after O s with
  | Some O => true
  | _ => false
  end.

(** The inside of a quoted value: characters other than the quote and the
    backslash, and backslashes each followed by one character, whatever it
    is.  Every quote in it is escaped, and it does not end in the middle
    of an escape. *)
Fixpoint escaped (s : str) : bool :=
  match s with
  | [] => true
  | c :: s' =>
      if (c =? BACKSLASH)%N then
        match s' with
        | [] => false
        | _ :: s'' => escaped s''
        end
      else negb (c =? DQUOTE)%N && escaped s'
  end.

(** All characters of [s] are in [chars]. *)
Definition all_in (chars s : str) : bool := forallb (fun c => char_in c chars) s.

(** [v] spells [key] in some letter case: every character of [v] is the
    character of [key] at its place, or the capital ASCII letter of which
    that character is the small one. *)
Fixpoint same_letters (v key : str) : bool :=
  match v, key with
  | [], [] => true
  | a :: v', b :: key' =>
      ((a =? b) || ((a + 32 =? b) && (chr "A" <=? a) && (a <=? chr "Z")))%N
      && same_letters v' key'
  | _, _ => false
  end.

(** [s] neither starts nor ends with white space. *)
Definition trimmed (s : str) : bool :=
  match s with
  | [] => true
  | c :: _ => negb (Unicode.isspace c)
  end
  && match rev s with
     | [] => true
     | c :: _ => negb (Unicode.isspace c)
     end.

(** Evaluate the string literals of the goal and of the hypotheses. *)
Ltac eval_lits :=
  repeat match goal with
         | H : context [lit ?s] |- _ =>
             let x := eval vm_compute in (lit s) in change (lit s) with x in H
         | |- context [lit ?s] =>
             let x := eval vm_compute in (lit s) in change (lit s) with x
         end.

(** The names one piece of the author field contributes. *)
Definition part_names (part : str) : list str :=
  match author_part part [] with
  | Ret names => names
  | _ => []
  end.

(** The sample entry of the round trip, on one line and laid out over
    several lines. *)
Definition sample_entry : str :=
  lit "@article{smith2020, title={Foo}, author={Smith, Jane and Doe, John}, journal={Bar}, year={2020}, month={mar}}".

Definition sample_entry_lines : str :=
  lit "@Article{smith2020," ++ [LF]
  ++ lit "  title   = {Foo}," ++ [LF]
  ++ lit "  author  = {Smith, Jane and Doe, John}," ++ [LF]
  ++ lit "  journal = {Bar}," ++ [LF]
  ++ lit "  year    = {2020}," ++ [LF]
  ++ lit "  month   = {mar}" ++ [LF]
  ++ lit "}" ++ [LF].

Definition sample_publication : Publication :=
  {| title := lit "Foo";
     authors := [lit "Jane Smith"; lit "John Doe"];
     journal := Some (lit "Bar");
     date := lit "2020-03";
     doi := None |}.

(** The same entry with the CV owner as first author. *)
Definition sample_entry_owner : str :=
  lit "@article{r2020, title={Foo}, author={Rozhkov, Ivan and Doe, John}, journal={Bar}, year={2020}, month={mar}}".

(** An entry whose month is the superscript digit two (U+00B2), as a dict
    and as the text it is scanned from. *)
Definition superscript_month_entry : entry :=
  <[lit "title" := lit "T"]> (<[lit "year" := lit "2020"]> (<[lit "month" := [178%N]]> ∅)).

Definition superscript_month_bib : str :=
  lit "@article{k, title={T}, year={2020}, month={" ++ [178%N] ++ lit "}}".

(** Three entries, dated 2021, June 2020 and January 2022. *)
Definition three_dates_bib : str :=
  lit "@article{a, title={A}, year={2021}}" ++ [LF]
  ++ lit "@article{b, title={B}, year={2020}, month={jun}}" ++ [LF]
  ++ lit "@article{c, title={C}, year={2022}, month={jan}}" ++ [LF].

(** [r] is a value, or an exception among those of [P]; it is not the
    model's [Timeout]. *)
Definition raises_only {A : Type} (P : exn -> Prop) (r : res A) : Prop :=
  match r with
  | Ret _ => True
  | Raise e => P e
  | Timeout => False
  end.

(** What an item of a pattern may take. *)
Definition fits (it : Re.item) (n : nat) : Prop :=
  match Re.rep it with
  | Re.One => n = 1%nat
  | Re.Plus => (1 <= n)%nat
  | Re.Star => True
  end.


(** [a] may stand before [b] in the sorted list: its date is not smaller. *)
Definition not_older (a b : Publication) : Prop := str_ltb (date a) (date b) = false.


(** The month of a raw value as the specification words it, to compare
    with [_resolve_month]: a three-letter lowercase abbreviation resolves to
    its fixed two-digit string; a numeric string whose integer value is
    between 1 and 12 resolves to that number zero-padded to two digits;
    any other value resolves to no month. *)
Definition month_as_specified (raw : str) : option str :=
  match MONTH_MAP !! raw with
  | Some month => Some month
  | None =>
      match int raw with
      | Ret n => if (1 <=? n) && (n <=? 12) then Some (zfill (str_of_int n) 2) else None
      | _ => None
      end
  end.

(** The table of [MONTH_MAP], as a list. *)
Definition month_table : list (str * str) :=
  [(lit "jan", lit "01"); (lit "feb", lit "02"); (lit "mar", lit "03");
   (lit "apr", lit "04"); (lit "may", lit "05"); (lit "jun", lit "06");
   (lit "jul", lit "07"); (lit "aug", lit "08"); (lit "sep", lit "09");
   (lit "oct", lit "10"); (lit "nov", lit "11"); (lit "dec", lit "12")].


(** The operations on loaded documents raise [TypeError], [KeyError] or
    [AttributeError] only. *)
Definition lookup_error (e : exn) : Prop :=
  e = TypeError \/ e = KeyError \/ e = AttributeError.


(** Unfold [main] and follow every branch it can take, innermost test
    first. *)
Ltac run_main :=
  unfold main, io_bind, exists_, read_text, pure, print_stderr, sys_exit,
    write_text, print, file, or_raise;
  cbv beta iota; cbn [bib_file cv_file stdout stderr];
  repeat match goal with
         | |- context [match ?x with _ => _ end] =>
             lazymatch x with
             | context [match _ with _ => _ end] => fail
             | _ => destruct x eqn:?; cbv beta iota; cbn [bib_file cv_file stdout stderr]
             end
         end.

(** ** Definitions used to state further properties *)

(** [v] spells [key] up to letter case: no character of [v] has a lower
    case that depends on its neighbours or is longer than one character
    (capital sigma, capital I with dot above), and the lower case of each
    is the character of [key] at its place. *)
Fixpoint spelling_of (v key : str) : bool :=
  match v, key with
  | [], [] => true
  | a :: v', b :: key' =>
      negb (a =? 304)%N && negb (a =? 931)%N && (Unicode.tolower a =? b)%N
      && spelling_of v' key'
  | _, _ => false
  end.

(** All characters of [s] are ASCII. *)
Definition is_ascii (s : str) : bool := forallb (fun c => (c <? 128)%N) s.

(** The ASCII characters. *)
Definition ascii_chars : list char := map N.of_nat (seq 0 128).

(** A value that is not a dict: a scalar, or a reference to a list. *)
Definition not_dict (h : heap) (v : yaml) : bool :=
  match v with
  | YRef a =>
      match h !! a with
      | Some (OList _) => true
      | _ => false
      end
  | _ => true
  end.

(** The tree a value of the store stands for, read to the depth [fuel]:
    the inverse of [new_object].  It is there for values whose dicts have
    strings as keys and that do not hold themselves. *)
Fixpoint all_some {A : Type} (l : list (option A)) : option (list A) :=
  match l with
  | [] => Some []
  | Some a :: l' =>
      match all_some l' with
      | Some r => Some (a :: r)
      | None => None
      end
  | None :: _ => None
  end.

Fixpoint read (fuel : nat) (h : heap) (v : yaml) : option tree :=
  match v with
  | YNone => Some TNone
  | YBool b => Some (TBool b)
  | YInt n => Some (TInt n)
  | YStr s => Some (TStr s)
  | YRef a =>
      match fuel with
      | O => None
      | Datatypes.S fuel =>
          match h !! a with
          | Some (OList l) => option_map TList (all_some (map (read fuel h) l))
          | Some (ODict d) =>
              option_map TDict
                (all_some
                   (map (fun kv =>
                           match fst kv, read fuel h (snd kv) with
                           | YStr k, Some t => Some (k, t)
                           | _, _ => None
                           end) d))
          | None => None
          end
      end
  end.

(** The depth of a tree: the number of lists and dicts on its longest
    branch. *)
Fixpoint depth (t : tree) : nat :=
  match t with
  | TList l => Datatypes.S (foldr (fun t n => Nat.max (depth t) n) O l)
  | TDict d => Datatypes.S (foldr (fun kt n => Nat.max (depth (snd kt)) n) O d)
  | _ => O
  end.

(** The loops of [new_object] over the items of a list and of a dict. *)
Fixpoint new_objects (l : list tree) (h : heap) : list yaml * heap :=
  match l with
  | [] => ([], h)
  | t :: l' =>
      let '(v, h) := new_object t h in
      let '(vs, h) := new_objects l' h in
      (v :: vs, h)
  end.

Fixpoint new_items (d : list (str * tree)) (h : heap) : list (yaml * yaml) * heap :=
  match d with
  | [] => ([], h)
  | (k, t) :: d' =>
      let '(v, h) := new_object t h in
      let '(kvs, h) := new_items d' h in
      ((YStr k, v) :: kvs, h)
  end.

(** A value of the store [h]: a scalar, or a reference to one of its
    objects.  A store with a value is closed when the value and all that
    the objects hold are values of the store: the documents that
    [yaml.safe_load] returns are. *)
Definition in_store (h : heap) (v : yaml) : bool :=
  match v with
  | YRef a => bool_decide (a < length h)%nat
  | _ => true
  end.

Definition closed (h : heap) (v : yaml) : bool :=
  in_store h v
  && forallb (fun o =>
                match o with
                | ODict d => forallb (fun kv => in_store h (fst kv) && in_store h (snd kv)) d
                | OList l => forallb (in_store h) l
                end) h.

(** From [h] to [h'] every dict is still a dict, with the same value
    under [key]. *)
Definition keeps (key : str) (h h' : heap) : Prop :=
  forall (a : addr) (d : list (yaml * yaml)),
    h !! a = Some (ODict d) ->
    exists d', h' !! a = Some (ODict d') /\ dict_get d' key = dict_get d key.

(** A match object moved [off] characters to the right. *)
Definition shift_match (off : Z) (m : Re.match_obj) : Re.match_obj :=
  Re.Match (off + Re.m_start m) (off + Re.m_end m)
    (map (fun g => (off + fst g, off + snd g)) (Re.m_groups m)).

(** A loop state, or a request of a loop body, moved [off] characters to
    the right. *)
Definition shift_ctl {A : Type} (off : Z) (f : A -> A) (c : ctl (Z * A)) : ctl (Z * A) :=
  match c with
  | Next (p, a) => Next (off + p, f a)
  | Break (p, a) => Break (off + p, f a)
  end.

Definition map_res {A B : Type} (f : A -> B) (r : res A) : res B :=
  match r with
  | Ret a => Ret (f a)
  | Raise e => Raise e
  | Timeout => Timeout
  end.

(** The ASCII digits [0] ... [9]. *)
Definition ascii_digit (c : char) : bool := ((chr "0" <=? c) && (c <=? chr "9"))%N.

(** [main] up to the test of the key [cv], when both files are read and
    the bibliography is normalised without error. *)
Ltac read_files Hdb Hpubs Hdc Hload :=
  unfold publications_of in Hpubs;
  match type of Hpubs with
  | context [_parse_bib ?t] =>
      let entries := fresh "entries" in
      let Hparse := fresh "Hparse" in
      destruct (_parse_bib t) as [entries| |] eqn:Hparse; try discriminate Hpubs;
      cbn [bind] in Hpubs;
      let ps := fresh "ps" in
      let Hcollect := fresh "Hcollect" in
      destruct (collect_publications entries) as [ps| |] eqn:Hcollect;
      try discriminate Hpubs;
      cbn [bind] in Hpubs; injection Hpubs as <-;
      unfold main, io_bind, exists_, read_text, pure, print_stderr, sys_exit, write_text,
        print, file, or_raise;
      cbv beta iota; cbn [bib_file cv_file stdout stderr negb];
      rewrite Hdb; cbv beta iota; rewrite Hparse; cbv beta iota; rewrite Hcollect;
      cbv beta iota; cbn [bib_file cv_file stdout stderr]; rewrite Hdc; cbv beta iota;
      rewrite Hload; cbv beta iota
  end.

(** * Theorems *)

(** ** Loops *)

Section While.
Context {S : Type} (cond : S -> res bool) (body : S -> res (ctl S)).

Lemma while_exit fuel s :
  cond s = Ret false -> while (Datatypes.S fuel) cond body s = Ret s.
Proof. intros H. simpl. rewrite H. reflexivity. Qed.

Lemma while_next fuel s s' :
  cond s = Ret true -> body s = Ret (Next s') ->
  while (Datatypes.S fuel) cond body s = while fuel cond body s'.
Proof. intros Hc Hb. simpl. rewrite Hc. simpl. rewrite Hb. reflexivity. Qed.

Lemma while_break fuel s s' :
  cond s = Ret true -> body s = Ret (Break s') ->
  while (Datatypes.S fuel) cond body s = Ret s'.
Proof. intros Hc Hb. simpl. rewrite Hc. simpl. rewrite Hb. reflexivity. Qed.

(** A loop whose condition and body never raise, and whose body lowers a
    measure [m] whenever it asks for another turn, returns within
    [m s + 1] tests of the condition, in a state where the invariant
    holds. *)
Lemma while_total (I : S -> Prop) (m : S -> nat) :
  (forall s, I s ->
     cond s = Ret false \/
     (cond s = Ret true /\
      ((exists s', body s = Ret (Break s') /\ I s') \/
       (exists s', body s = Ret (Next s') /\ I s' /\ (m s' < m s)%nat)))) ->
  forall fuel s, I s -> (m s < fuel)%nat ->
  exists s', while fuel cond body s = Ret s' /\ I s'.
Proof.
  intros Hstep fuel. induction fuel as [|fuel IH]; intros s Hs Hm; [lia|].
  destruct (Hstep s Hs) as [Hc | [Hc [[s' [Hb Hs']] | [s' [Hb [Hs' Hlt]]]]]].
  - exists s. split; [apply while_exit, Hc | exact Hs].
  - exists s'. split; [eapply while_break; eauto | exact Hs'].
  - destruct (IH s' Hs') as [s'' [Hw Hs'']]; [lia|].
    exists s''. split; [|exact Hs'']. erewrite while_next; eauto.
Qed.

End While.

(** ** Indexing *)

Lemma len_nonneg (s : str) : 0 <= len s.
Proof. unfold len. lia. Qed.

Lemma len_app (a b : str) : len (a ++ b) = len a + len b.
Proof. unfold len. rewrite length_app. lia. Qed.

Lemma len_cons (c : char) (s : str) : len (c :: s) = 1 + len s.
Proof. unfold len. simpl. lia. Qed.

Lemma getitem_lookup (s : str) (i : Z) (c : char) :
  0 <= i -> s !! Z.to_nat i = Some c -> getitem s i = Ret c.
Proof.
  intros Hi Hc. unfold getitem.
  assert (Hlt : (Z.to_nat i < length s)%nat) by (eapply lookup_lt_Some; eauto).
  zcases; unfold len in *; try lia. simpl. rewrite Hc. reflexivity.
Qed.

Lemma getitem_drop (s : str) (i : Z) (c : char) (rest : str) :
  0 <= i -> drop (Z.to_nat i) s = c :: rest ->
  getitem s i = Ret c /\ drop (Z.to_nat (i + 1)) s = rest /\ i < len s.
Proof.
  intros Hi Hd.
  assert (Hc : s !! Z.to_nat i = Some c).
  { rewrite <- (Nat.add_0_r (Z.to_nat i)), <- lookup_drop, Hd. reflexivity. }
  split; [apply getitem_lookup; auto|]. split.
  - replace (Z.to_nat (i + 1)) with (Datatypes.S (Z.to_nat i)) by lia.
    apply (drop_S _ _ _) in Hc. rewrite Hc in Hd. congruence.
  - apply lookup_lt_Some in Hc. unfold len. lia.
Qed.

Lemma drop_nil_len (s : str) (i : Z) :
  0 <= i -> drop (Z.to_nat i) s = [] -> len s <= i.
Proof.
  intros Hi Hd. apply (f_equal length) in Hd. rewrite length_drop in Hd.
  simpl in Hd. unfold len. lia.
Qed.

Lemma adjust_index_inside (s : str) (i : Z) :
  0 <= i <= len s -> adjust_index s i = i.
Proof.
  intros H. unfold adjust_index. zcases; lia.
Qed.

(** Python's [s[lo:hi]] for bounds inside the string. *)
Lemma slice_inside (s : str) (lo hi : Z) :
  0 <= lo <= hi -> hi <= len s ->
  slice s lo hi = take (Z.to_nat (hi - lo)) (drop (Z.to_nat lo) s).
Proof.
  intros H1 H2. unfold slice.
  rewrite !adjust_index_inside by lia. reflexivity.
Qed.

Lemma slice_middle (a b c : str) :
  slice (a ++ b ++ c) (len a) (len a + len b) = b.
Proof.
  rewrite slice_inside by (rewrite ?len_app; pose proof (len_nonneg a);
    pose proof (len_nonneg b); pose proof (len_nonneg c); lia).
  unfold len. rewrite Nat2Z.id.
  replace (Z.to_nat (Z.of_nat (length a) + Z.of_nat (length b) - Z.of_nat (length a)))
    with (length b) by lia.
  rewrite drop_app_length. rewrite take_app_length. reflexivity.
Qed.

(** ** The scanning loops, in closed form *)

Lemma advance_while_spec (body : str) (p : char -> bool) (i : Z) :
  0 <= i ->
  advance_while body p i = Ret (i + Z.of_nat (Re.run p (drop (Z.to_nat i) body))).
Proof.
  unfold advance_while, loop_bound.
  generalize (Datatypes.S (Z.to_nat (len body - i))) (Nat.lt_succ_diag_r (Z.to_nat (len body - i))).
  intros fuel. revert i. induction fuel as [|fuel IH]; intros i Hfuel Hi; [lia|].
  destruct (drop (Z.to_nat i) body) as [|c rest] eqn:Hd.
  - apply drop_nil_len in Hd; [|exact Hi].
    rewrite while_exit; [simpl; f_equal; lia|].
    zcases; [lia | reflexivity].
  - destruct (getitem_drop _ _ _ _ Hi Hd) as [Hg [Hd' Hlt]].
    simpl Re.run. destruct (p c) eqn:Hp.
    + rewrite (while_next _ _ _ i (i + 1)).
      * rewrite IH by lia. rewrite Hd'. f_equal. lia.
      * zcases; [|lia]. rewrite Hg. simpl. rewrite Hp. reflexivity.
      * reflexivity.
    + rewrite while_exit; [simpl; f_equal; lia|].
      zcases; [|lia]. rewrite Hg. simpl. rewrite Hp. reflexivity.
Qed.

Lemma skip_chars_spec (body chars : str) (i : Z) :
  0 <= i ->
  skip_chars body chars i
  = Ret (i + Z.of_nat (Re.run (fun c => char_in c chars) (drop (Z.to_nat i) body))).
Proof. apply advance_while_spec. Qed.

Lemma braces_end_cons (depth : Z) (c : char) (s : str) :
  braces_end depth (c :: s)
  = if 0 <? depth then
      let '(n, d') :=
        braces_end (if (c =? chr "{")%N then depth + 1
                    else if (c =? chr "}")%N then depth - 1 else depth) s in
      (Datatypes.S n, d')
    else (O, depth).
Proof. reflexivity. Qed.

Lemma match_braces_spec (text : str) (i depth : Z) :
  0 <= i ->
  match_braces text i depth
  = Ret (i + Z.of_nat (fst (braces_end depth (drop (Z.to_nat i) text))),
         snd (braces_end depth (drop (Z.to_nat i) text))).
Proof.
  unfold match_braces, loop_bound.
  generalize (Datatypes.S (Z.to_nat (len text - i))) (Nat.lt_succ_diag_r (Z.to_nat (len text - i))).
  intros fuel. revert i depth. induction fuel as [|fuel IH]; intros i depth Hfuel Hi; [lia|].
  destruct (drop (Z.to_nat i) text) as [|c rest] eqn:Hd.
  - apply drop_nil_len in Hd; [|exact Hi].
    rewrite while_exit; [simpl; do 2 f_equal; lia|].
    f_equal. destruct (Z.ltb_spec i (len text)); [lia | reflexivity].
  - destruct (getitem_drop _ _ _ _ Hi Hd) as [Hg [Hd' Hlt]].
    rewrite braces_end_cons. destruct (Z.ltb_spec 0 depth) as [Hpos|Hneg].
    + set (d := if (c =? chr "{")%N then depth + 1
                else if (c =? chr "}")%N then depth - 1 else depth).
      rewrite (while_next _ _ _ (i, depth) (i + 1, d)).
      * rewrite IH by lia. rewrite Hd'.
        destruct (braces_end d rest) as [n d']. cbn [fst snd]. do 2 f_equal. lia.
      * f_equal. destruct (Z.ltb_spec i (len text)); [|lia].
        destruct (Z.ltb_spec 0 depth); [reflexivity | lia].
      * unfold brace_step. rewrite Hg. reflexivity.
    + rewrite while_exit; [simpl; do 2 f_equal; lia|].
      f_equal. destruct (Z.ltb_spec 0 depth); [lia|]. apply andb_false_r.
Qed.

Lemma quoted_end_spec (body : str) (j : Z) :
  0 <= j ->
  quoted_end body j = Ret (j + Z.of_nat (quoted_run (drop (Z.to_nat j) body))).
Proof.
  unfold quoted_end, loop_bound.
  generalize (Datatypes.S (Z.to_nat (len body - j))) (Nat.lt_succ_diag_r (Z.to_nat (len body - j))).
  intros fuel. revert j. induction fuel as [|fuel IH]; intros j Hfuel Hj; [lia|].
  destruct (drop (Z.to_nat j) body) as [|c rest] eqn:Hd.
  - apply drop_nil_len in Hd; [|exact Hj].
    rewrite while_exit; [simpl; f_equal; lia|].
    zcases; [lia | reflexivity].
  - destruct (getitem_drop _ _ _ _ Hj Hd) as [Hg [Hd' Hlt]].
    simpl quoted_run. destruct (c =? DQUOTE)%N eqn:Hq.
    + rewrite while_exit; [simpl; f_equal; lia|].
      zcases; [|lia]. rewrite Hg. simpl. rewrite Hq. reflexivity.
    + destruct (c =? BACKSLASH)%N eqn:Hb.
      * rewrite (while_next _ _ _ j (j + 1 + 1)).
        -- rewrite IH by lia.
           assert (Hd2 : drop (Z.to_nat (j + 1 + 1)) body = drop 1 rest).
           { rewrite <- Hd', drop_drop. f_equal. lia. }
           rewrite Hd2.
           destruct rest as [|c' rest']; simpl; rewrite ?drop_0; f_equal; lia.
        -- zcases; [|lia]. rewrite Hg. simpl. rewrite Hq. reflexivity.
        -- rewrite Hg. simpl. rewrite Hb. reflexivity.
      * rewrite (while_next _ _ _ j (j + 1)).
        -- rewrite IH by lia. rewrite Hd'. f_equal. lia.
        -- zcases; [|lia]. rewrite Hg. simpl. rewrite Hq. reflexivity.
        -- rewrite Hg. simpl. rewrite Hb. reflexivity.
Qed.

Lemma getitem_inside (s : str) (i : Z) :
  0 <= i < len s -> exists c, getitem s i = Ret c.
Proof.
  intros H. destruct (lookup_lt_is_Some_2 s (Z.to_nat i)) as [c Hc].
  - unfold len in H. lia.
  - exists c. apply getitem_lookup; [lia | exact Hc].
Qed.

Lemma drop_len_app (a b : str) : drop (Z.to_nat (len a)) (a ++ b) = b.
Proof. unfold len. rewrite Nat2Z.id. apply drop_app_length. Qed.

Lemma run_app_all (p : char -> bool) (a b : str) :
  forallb p a = true -> Re.run p (a ++ b) = (length a + Re.run p b)%nat.
Proof.
  induction a as [|c a IH]; simpl; [reflexivity|].
  intros H. apply andb_prop in H as [Hc Ha]. rewrite Hc, IH by exact Ha. reflexivity.
Qed.

(** ** The value extractor *)

(** On any text and from any index inside or after it, the extractor
    returns, and does not move backwards. *)
Lemma _extract_value_total (body : str) (start : Z) :
  0 <= start ->
  exists value vend, _extract_value body start = Ret (value, vend) /\ start <= vend.
Proof.
  intros Hs. unfold _extract_value.
  rewrite skip_chars_spec by exact Hs. cbn [bind].
  set (i := start + Z.of_nat _). assert (Hi : start <= i) by (unfold i; lia).
  destruct (Z.leb_spec (len body) i) as [Hle|Hlt]; [eauto|].
  destruct (getitem_inside body i) as [c Hc]; [lia|]. rewrite Hc. cbn [bind].
  destruct (c =? chr "{")%N.
  - rewrite match_braces_spec by lia. cbn [bind].
    rewrite skip_chars_spec by lia. cbn [bind].
    do 2 eexists. split; [reflexivity | lia].
  - destruct (c =? DQUOTE)%N.
    + rewrite quoted_end_spec by lia. cbn [bind].
      rewrite skip_chars_spec by lia. cbn [bind].
      do 2 eexists. split; [reflexivity | lia].
    + rewrite advance_while_spec by lia. cbn [bind].
      rewrite skip_chars_spec by lia. cbn [bind].
      do 2 eexists. split; [reflexivity | lia].
Qed.

Lemma braces_end_closed (s : str) (depth : Z) :
  depth <= 0 -> braces_end depth s = (O, depth).
Proof.
  intros H. destruct s as [|c s]; [reflexivity|].
  rewrite braces_end_cons. destruct (Z.ltb_spec 0 depth); [lia | reflexivity].
Qed.

(** Over a stretch of text with [depth_after d0 w = Some d1] the counter
    passes every character and moves by the same amount. *)
Lemma braces_end_depth_after (w rest : str) (d0 d1 : nat) (D : Z) :
  depth_after d0 w = Some d1 -> 0 < D ->
  braces_end (D + Z.of_nat d0) (w ++ rest)
  = ((length w + fst (braces_end (D + Z.of_nat d1) rest))%nat,
     snd (braces_end (D + Z.of_nat d1) rest)).
Proof.
  revert d0. induction w as [|c w IH]; intros d0 Hd HD.
  - simpl in Hd. injection Hd as ->. simpl. destruct (braces_end _ rest). reflexivity.
  - cbn [app]. rewrite braces_end_cons.
    destruct (Z.ltb_spec 0 (D + Z.of_nat d0)); [|lia].
    cbn [depth_after] in Hd.
    destruct (c =? chr "{")%N.
    + replace (D + Z.of_nat d0 + 1) with (D + Z.of_nat (S d0)) by lia.
      rewrite (IH _ Hd HD). reflexivity.
    + destruct (c =? chr "}")%N.
      * destruct d0 as [|d0]; [discriminate|].
        replace (D + Z.of_nat (S d0) - 1) with (D + Z.of_nat d0) by lia.
        rewrite (IH _ Hd HD). reflexivity.
      * rewrite (IH _ Hd HD). reflexivity.
Qed.

Lemma braces_end_balanced (inner rest : str) :
  balanced inner = true ->
  braces_end 1 (inner ++ chr "}" :: rest) = (S (length inner), 0).
Proof.
  unfold balanced. intros H.
  destruct (depth_after 0 inner) as [[|d]|] eqn:Hd; try discriminate.
  change 1 with (1 + Z.of_nat 0).
  rewrite (braces_end_depth_after _ _ _ _ _ Hd) by lia.
  rewrite braces_end_cons. change (0 <? 1 + Z.of_nat 0) with true.
  change (chr "}" =? chr "{")%N with false. change (chr "}" =? chr "}")%N with true.
  cbv iota. rewrite braces_end_closed by lia. cbn [fst snd]. f_equal. lia.
Qed.

Lemma quoted_run_escaped (inner rest : str) :
  escaped inner = true -> quoted_run (inner ++ DQUOTE :: rest) = length inner.
Proof.
  remember (length inner) as n eqn:Hn. revert inner Hn.
  induction n as [n IH] using lt_wf_ind. intros inner Hn He.
  destruct inner as [|c inner]; [subst; reflexivity|].
  cbn [app quoted_run]. cbn [escaped] in He.
  destruct (c =? BACKSLASH)%N eqn:Hb.
  - assert (Hq : (c =? DQUOTE)%N = false).
    { apply N.eqb_eq in Hb. subst c. reflexivity. }
    rewrite Hq. destruct inner as [|c' inner]; [discriminate|].
    cbn [app]. rewrite (IH (length inner)); subst; simpl; auto; lia.
  - apply andb_prop in He as [Hq He]. apply negb_true_iff in Hq. rewrite Hq.
    rewrite (IH (length inner)); subst; simpl; auto.
Qed.

Lemma all_in_not_run (chars ws : str) (c : char) (rest : str) :
  all_in chars ws = true -> char_in c chars = false ->
  Re.run (fun x => char_in x chars) (ws ++ c :: rest) = length ws.
Proof.
  intros Hws Hc. rewrite run_app_all by exact Hws. simpl. rewrite Hc. lia.
Qed.

(** C3.  A value that opens, after white space, with a brace and whose
    inside [inner] has balanced braces is extracted as exactly [inner]: the
    text between the outer pair of braces, inner braces kept as they are.
    The index returned is past the closing brace and the white space and
    commas after it. *)
Theorem extract_braced_value (pre ws inner rest : str) :
  all_in WHITESPACE ws = true ->
  balanced inner = true ->
  _extract_value (pre ++ ws ++ [chr "{"] ++ inner ++ [chr "}"] ++ rest) (len pre)
  = Ret (inner,
         len pre + len ws + 1 + len inner + 1
         + Z.of_nat (Re.run (fun c => char_in c WHITESPACE_COMMA) rest)).
Proof.
  intros Hws Hbal. unfold _extract_value.
  change ([chr "{"] ++ inner ++ [chr "}"] ++ rest) with (chr "{" :: inner ++ chr "}" :: rest).
  pose proof (len_nonneg pre) as Hpre.
  rewrite skip_chars_spec by exact Hpre.
  rewrite drop_len_app.
  rewrite all_in_not_run; [|exact Hws|reflexivity]. cbn [bind].
  set (body := pre ++ ws ++ chr "{" :: inner ++ chr "}" :: rest).
  set (i := len pre + Z.of_nat (length ws)).
  assert (Hi : i = len (pre ++ ws)) by (unfold i; rewrite len_app; reflexivity).
  assert (Hdrop : drop (Z.to_nat i) body = chr "{" :: inner ++ chr "}" :: rest).
  { unfold body. rewrite Hi, app_assoc. apply drop_len_app. }
  assert (H0i : 0 <= i) by (unfold i; lia).
  destruct (getitem_drop _ _ _ _ H0i Hdrop) as [Hg [Hd' Hlt]].
  destruct (Z.leb_spec (len body) i); [lia|].
  rewrite Hg. cbn [bind]. change (chr "{" =? chr "{")%N with true. cbv iota.
  rewrite match_braces_spec by (unfold i; lia).
  rewrite Hd', braces_end_balanced by exact Hbal. cbn [bind fst snd].
  set (j := i + 1 + Z.of_nat (S (length inner))).
  assert (Hj : j = len ((pre ++ ws ++ [chr "{"]) ++ inner ++ [chr "}"])).
  { unfold j. rewrite Hi, !len_app. unfold len. simpl. lia. }
  assert (Hv : slice body (i + 1) (j - 1) = inner).
  { replace body with ((pre ++ ws ++ [chr "{"]) ++ inner ++ chr "}" :: rest)
      by (unfold body; rewrite <- !app_assoc; reflexivity).
    replace (i + 1) with (len (pre ++ ws ++ [chr "{"]))
      by (rewrite Hi, !len_app; unfold len; simpl; lia).
    replace (j - 1) with (len (pre ++ ws ++ [chr "{"]) + len inner)
      by (unfold j; rewrite Hi, !len_app; unfold len; simpl; lia).
    apply slice_middle. }
  rewrite Hv.
  rewrite skip_chars_spec by (unfold j, i; lia). cbn [bind].
  assert (Hdj : drop (Z.to_nat j) body = rest).
  { rewrite Hj. unfold body.
    replace (pre ++ ws ++ chr "{" :: inner ++ chr "}" :: rest)
      with (((pre ++ ws ++ [chr "{"]) ++ inner ++ [chr "}"]) ++ rest)
      by (rewrite <- !app_assoc; reflexivity).
    apply drop_len_app. }
  rewrite Hdj. do 2 f_equal. unfold j, i, len. lia.
Qed.

(** C4.  A value that opens, after white space, with a quote and whose
    inside [inner] is made of ordinary characters and of backslashes each
    followed by one character (a quote or a backslash included) is
    extracted as exactly [inner]: no escaped quote of [inner] ends the
    value, the first quote that is not escaped does. *)
Theorem extract_quoted_value (pre ws inner rest : str) :
  all_in WHITESPACE ws = true ->
  escaped inner = true ->
  _extract_value (pre ++ ws ++ [DQUOTE] ++ inner ++ [DQUOTE] ++ rest) (len pre)
  = Ret (inner,
         len pre + len ws + 1 + len inner + 1
         + Z.of_nat (Re.run (fun c => char_in c WHITESPACE_COMMA) rest)).
Proof.
  intros Hws Hesc. unfold _extract_value.
  change ([DQUOTE] ++ inner ++ [DQUOTE] ++ rest) with (DQUOTE :: inner ++ DQUOTE :: rest).
  pose proof (len_nonneg pre) as Hpre.
  rewrite skip_chars_spec by exact Hpre.
  rewrite drop_len_app.
  rewrite all_in_not_run; [|exact Hws|reflexivity]. cbn [bind].
  set (body := pre ++ ws ++ DQUOTE :: inner ++ DQUOTE :: rest).
  set (i := len pre + Z.of_nat (length ws)).
  assert (Hi : i = len (pre ++ ws)) by (unfold i; rewrite len_app; reflexivity).
  assert (Hdrop : drop (Z.to_nat i) body = DQUOTE :: inner ++ DQUOTE :: rest).
  { unfold body. rewrite Hi, app_assoc. apply drop_len_app. }
  assert (H0i : 0 <= i) by (unfold i; lia).
  destruct (getitem_drop _ _ _ _ H0i Hdrop) as [Hg [Hd' Hlt]].
  destruct (Z.leb_spec (len body) i); [lia|].
  rewrite Hg. cbn [bind]. change (DQUOTE =? chr "{")%N with false.
  change (DQUOTE =? DQUOTE)%N with true. cbv iota.
  rewrite quoted_end_spec by (unfold i; lia).
  rewrite Hd', quoted_run_escaped by exact Hesc. cbn [bind].
  set (j := i + 1 + Z.of_nat (length inner)).
  assert (Hv : slice body (i + 1) j = inner).
  { replace body with ((pre ++ ws ++ [DQUOTE]) ++ inner ++ DQUOTE :: rest)
      by (unfold body; rewrite <- !app_assoc; reflexivity).
    replace (i + 1) with (len (pre ++ ws ++ [DQUOTE]))
      by (rewrite Hi, !len_app; unfold len; simpl; lia).
    replace j with (len (pre ++ ws ++ [DQUOTE]) + len inner)
      by (unfold j; rewrite Hi, !len_app; unfold len; simpl; lia).
    apply slice_middle. }
  rewrite Hv.
  rewrite skip_chars_spec by (unfold j, i; lia). cbn [bind].
  assert (Hdj : drop (Z.to_nat (j + 1)) body = rest).
  { replace (j + 1) with (len ((pre ++ ws ++ [DQUOTE]) ++ inner ++ [DQUOTE]))
      by (unfold j; rewrite Hi, !len_app; unfold len; simpl; lia).
    unfold body.
    replace (pre ++ ws ++ DQUOTE :: inner ++ DQUOTE :: rest)
      with (((pre ++ ws ++ [DQUOTE]) ++ inner ++ [DQUOTE]) ++ rest)
      by (rewrite <- !app_assoc; reflexivity).
    apply drop_len_app. }
  rewrite Hdj. reflexivity.
Qed.

(** ** Matches of the patterns *)

Lemma backtrack_Some (k : str -> option (list nat)) (s : str) (lo n : nat) (taken : list nat) :
  Re.backtrack k s lo n = Some taken ->
  exists m rest, taken = m :: rest /\ (lo <= m)%nat /\ k (drop m s) = Some rest.
Proof.
  induction n as [|n IH]; cbn [Re.backtrack]; intros H.
  - destruct (Nat.ltb_spec 0 lo); [discriminate|].
    destruct (k (drop 0 s)) as [ls|] eqn:Hk; [|discriminate].
    injection H as <-. exists O, ls. repeat split; [lia | exact Hk].
  - destruct (Nat.ltb_spec (S n) lo); [discriminate|].
    destruct (k (drop (S n) s)) as [ls|] eqn:Hk.
    + injection H as <-. exists (S n), ls. repeat split; [lia | exact Hk].
    + apply IH, H.
Qed.

Lemma match_here_fits (re : Re.regex) (s : str) (taken : list nat) :
  Re.match_here re s = Some taken -> Forall2 fits re taken.
Proof.
  revert s taken. induction re as [|it re IH]; intros s taken H.
  - simpl in H. injection H as <-. constructor.
  - cbn [Re.match_here] in H. destruct (Re.rep it) eqn:Hrep.
    + destruct s as [|c s]; [discriminate|].
      destruct (Re.cls it c); [|discriminate].
      destruct (Re.match_here re s) as [ls|] eqn:Hm; [|discriminate].
      injection H as <-. constructor; [unfold fits; rewrite Hrep; reflexivity | eauto].
    + apply backtrack_Some in H as (m & rest & -> & Hlo & Hk).
      constructor; [unfold fits; rewrite Hrep; exact I | eauto].
    + apply backtrack_Some in H as (m & rest & -> & Hlo & Hk).
      constructor; [unfold fits; rewrite Hrep; exact Hlo | eauto].
Qed.

Lemma search_from_Some (re : Re.regex) (s : str) (p : Z) (m : Re.match_obj) :
  Re.search_from re s p = Some m ->
  exists taken q, m = Re.match_at re taken q /\ p <= q /\ Forall2 fits re taken.
Proof.
  revert p. induction s as [|c s IH]; intros p H; cbn [Re.search_from] in H.
  - destruct (Re.match_here re []) as [taken|] eqn:Hm; [|discriminate].
    injection H as <-. exists taken, p. repeat split; [lia | eapply match_here_fits; eauto].
  - destruct (Re.match_here re (c :: s)) as [taken|] eqn:Hm.
    + injection H as <-. exists taken, p.
      repeat split; [lia | eapply match_here_fits; eauto].
    + destruct (IH _ H) as (taken & q & -> & Hq & Hf).
      exists taken, q. repeat split; [lia | exact Hf].
Qed.

Lemma search_Some (re : Re.regex) (text : str) (pos : Z) (m : Re.match_obj) :
  pos <= len text ->
  Re.search re text pos = Some m ->
  exists taken q, m = Re.match_at re taken q /\ 0 <= q /\ pos <= q
                  /\ Forall2 fits re taken.
Proof.
  unfold Re.search. intros Hpos H. apply search_from_Some in H as (taken & q & -> & Hq & Hf).
  exists taken, q. repeat split; try exact Hf; pose proof (len_nonneg text); zcases; lia.
Qed.

(** A match of [field_re] is not empty, starts at [pos] or later, and has
    its group. *)
Lemma search_field_re (body : str) (pos : Z) (m : Re.match_obj) :
  pos <= len body ->
  Re.search field_re body pos = Some m ->
  0 <= Re.m_end m /\ pos < Re.m_end m /\ exists name, Re.group body m 1 = Ret name.
Proof.
  intros Hpos H. apply search_Some in H as (taken & q & -> & Hq0 & Hq & Hf); [|exact Hpos].
  unfold field_re in Hf.
  repeat match goal with
         | H : Forall2 _ (_ :: _) _ |- _ => inversion H; subst; clear H
         | H : Forall2 _ [] _ |- _ => inversion H; subst; clear H
         end.
  unfold fits in *. cbn in * |-.
  unfold Re.match_at, Re.group. cbn.
  repeat split; try lia. eexists. reflexivity.
Qed.

(** The same for [entry_pattern]. *)
Lemma search_entry_pattern (text : str) (pos : Z) (m : Re.match_obj) :
  pos <= len text ->
  Re.search entry_pattern text pos = Some m ->
  0 <= Re.m_end m /\ pos < Re.m_end m /\ exists name, Re.group text m 1 = Ret name.
Proof.
  intros Hpos H. apply search_Some in H as (taken & q & -> & Hq0 & Hq & Hf); [|exact Hpos].
  unfold entry_pattern in Hf.
  repeat match goal with
         | H : Forall2 _ (_ :: _) _ |- _ => inversion H; subst; clear H
         | H : Forall2 _ [] _ |- _ => inversion H; subst; clear H
         end.
  unfold fits in *. cbn in * |-.
  unfold Re.match_at, Re.group. cbn.
  repeat split; try lia. eexists. reflexivity.
Qed.

(** ** The entry scanner returns *)

Lemma parse_fields_total (body : str) (fields : entry) :
  exists fields', parse_fields body fields = Ret fields'.
Proof.
  unfold parse_fields.
  destruct (while_total
              (fun st : Z * entry => Ret (fst st <? len body))
              (field_step body)
              (fun st : Z * entry => 0 <= fst st)
              (fun st : Z * entry => Z.to_nat (len body - fst st)))
    with (fuel := loop_bound body 0) (s := (0, fields)) as [[fpos' fields'] [Hw _]].
  - intros [fpos fs] Hinv. cbn [fst] in *.
    destruct (Z.ltb_spec fpos (len body)) as [Hlt|Hge]; [right | left; reflexivity].
    split; [reflexivity|]. unfold field_step.
    destruct (Re.search field_re body fpos) as [fm|] eqn:Hs.
    + right. apply search_field_re in Hs as (Hend & Hadv & name & Hname); [|lia].
      rewrite Hname. cbn [bind].
      destruct (_extract_value_total body (Re.m_end fm) Hend) as (value & vend & Hev & Hvend).
      rewrite Hev. cbn [bind].
      eexists. split; [reflexivity|]. cbn [fst]. split; lia.
    + left. eexists. split; [reflexivity|]. cbn [fst]. lia.
  - cbn [fst]. lia.
  - unfold loop_bound. cbn [fst]. lia.
  - rewrite Hw. cbn [bind]. eauto.
Qed.

Lemma _parse_bib_total (text : str) :
  exists entries, _parse_bib text = Ret entries.
Proof.
  unfold _parse_bib.
  destruct (while_total
              (fun st : Z * list entry => Ret (fst st <? len text))
              (entry_step text)
              (fun st : Z * list entry => 0 <= fst st)
              (fun st : Z * list entry => Z.to_nat (len text - fst st)))
    with (fuel := loop_bound text 0) (s := (0, @nil entry)) as [[pos' entries] [Hw _]].
  - intros [pos es] Hinv. cbn [fst] in *.
    destruct (Z.ltb_spec pos (len text)) as [Hlt|Hge]; [right | left; reflexivity].
    split; [reflexivity|]. unfold entry_step.
    destruct (Re.search entry_pattern text pos) as [m|] eqn:Hs.
    + right. apply search_entry_pattern in Hs as (Hend & Hadv & name & Hname); [|lia].
      rewrite Hname. cbn [bind].
      rewrite match_braces_spec by exact Hend. cbn [bind].
      destruct (parse_fields_total
                  (slice text (Re.m_end m)
                     (Re.m_end m
                      + Z.of_nat (fst (braces_end 1 (drop (Z.to_nat (Re.m_end m)) text))) - 1))
                  {[ lit "_type" := lower name ]}) as [fields' Hpf].
      rewrite Hpf. cbn [bind].
      eexists. split; [reflexivity|]. cbn [fst]. split; lia.
    + left. eexists. split; [reflexivity|]. cbn [fst]. lia.
  - cbn [fst]. lia.
  - unfold loop_bound. cbn [fst]. lia.
  - rewrite Hw. cbn [bind]. eauto.
Qed.

(** C9.  On every text the entry scanner returns a list of field
    mappings: no index it reads is out of range, whatever the braces and
    separators of the text, and its loops end.  The same holds of the value
    extractor from any index that is not negative, and the index it
    returns is never before the one it got. *)
Theorem _parse_bib_returns :
  (forall text : str, exists entries, _parse_bib text = Ret entries)
  /\ (forall (body : str) (start : Z),
        0 <= start ->
        exists value vend, _extract_value body start = Ret (value, vend) /\ start <= vend).
Proof. split; [apply _parse_bib_total | apply _extract_value_total]. Qed.

(** ** Sorting *)

Lemma str_ltb_irrefl (a : str) : str_ltb a a = false.
Proof.
  induction a as [|x a IH]; [reflexivity|].
  simpl. rewrite N.ltb_irrefl, N.eqb_refl, IH. reflexivity.
Qed.

Lemma str_ltb_asym (a b : str) : str_ltb a b = true -> str_ltb b a = false.
Proof.
  revert b. induction a as [|x a IH]; intros [|y b] H; simpl in *; try easy.
  destruct (N.ltb_spec x y), (N.ltb_spec y x), (N.eqb_spec x y), (N.eqb_spec y x);
    simpl in *; try lia; try easy. auto.
Qed.

(** [a >= b] on strings is transitive. *)
Lemma str_geb_trans (a b c : str) :
  str_ltb a b = false -> str_ltb b c = false -> str_ltb a c = false.
Proof.
  revert b c. induction a as [|x a IH]; intros [|y b] [|z c] Hab Hbc;
    simpl in *; try easy.
  destruct (N.ltb_spec x y), (N.ltb_spec y z), (N.ltb_spec x z),
    (N.eqb_spec x y), (N.eqb_spec y z), (N.eqb_spec x z);
    simpl in *; try lia; try easy. eauto.
Qed.

Lemma insert_by_date_perm (p : Publication) (l : list Publication) :
  Permutation (p :: l) (insert_by_date p l).
Proof.
  induction l as [|q l IH]; simpl; [reflexivity|].
  destruct (str_ltb (date p) (date q)); [|reflexivity].
  rewrite perm_swap. constructor. exact IH.
Qed.

Lemma insert_by_date_Forall (P : Publication -> Prop) (p : Publication) (l : list Publication) :
  P p -> Forall P l -> Forall P (insert_by_date p l).
Proof.
  intros Hp Hl. eapply Permutation_Forall; [apply insert_by_date_perm|].
  constructor; assumption.
Qed.

Lemma insert_by_date_sorted (p : Publication) (l : list Publication) :
  StronglySorted not_older l -> StronglySorted not_older (insert_by_date p l).
Proof.
  induction l as [|q l IH]; intros Hs; simpl.
  - repeat constructor.
  - inversion Hs as [|? ? Hl Hq]; subst.
    destruct (str_ltb (date p) (date q)) eqn:Hpq.
    + constructor; [apply IH, Hl|].
      apply insert_by_date_Forall; [|exact Hq].
      apply str_ltb_asym, Hpq.
    + constructor; [exact Hs|]. constructor; [exact Hpq|].
      eapply Forall_impl; [exact Hq|]. intros r Hr. unfold not_older in *.
      eapply str_geb_trans; eassumption.
Qed.

Lemma sort_by_date_reverse_sorted (l : list Publication) :
  StronglySorted not_older (sort_by_date_reverse l).
Proof.
  induction l as [|p l IH]; simpl; [constructor|].
  apply insert_by_date_sorted, IH.
Qed.

Lemma sort_by_date_reverse_perm (l : list Publication) :
  Permutation l (sort_by_date_reverse l).
Proof.
  induction l as [|p l IH]; simpl; [reflexivity|].
  rewrite <- insert_by_date_perm. constructor. exact IH.
Qed.


(** ** [strip] *)

Lemma lstrip_by_split (p : char -> bool) (s : str) :
  exists a, s = a ++ lstrip_by p s /\ forallb p a = true.
Proof.
  induction s as [|c s [a [Hs Ha]]]; [exists []; auto|].
  simpl. destruct (p c) eqn:Hc.
  - exists (c :: a). simpl. rewrite Hc, Ha. split; [f_equal; exact Hs | reflexivity].
  - exists []. auto.
Qed.

Lemma lstrip_by_all (p : char -> bool) (a : str) :
  forallb p a = true -> lstrip_by p a = [].
Proof.
  induction a as [|c a IH]; simpl; [reflexivity|].
  intros H. apply andb_prop in H as [-> Ha]. auto.
Qed.

Lemma lstrip_by_stop (p : char -> bool) (a : str) (c : char) (b : str) :
  forallb p a = true -> p c = false -> lstrip_by p (a ++ c :: b) = c :: b.
Proof.
  induction a as [|x a IH]; simpl; intros Ha Hc; [rewrite Hc; reflexivity|].
  apply andb_prop in Ha as [-> Ha]. auto.
Qed.

Lemma forallb_rev (p : char -> bool) (a : str) :
  forallb p a = true -> forallb p (rev a) = true.
Proof.
  rewrite !forallb_forall. intros H x Hx. apply H. apply in_rev. exact Hx.
Qed.

(** White space around a trimmed string is what [strip] removes. *)
Lemma strip_core (a core b : str) :
  forallb Unicode.isspace a = true -> forallb Unicode.isspace b = true ->
  trimmed core = true ->
  strip (a ++ core ++ b) = core.
Proof.
  intros Ha Hb Hc. unfold strip, trimmed in *. apply andb_prop in Hc as [Hh Hl].
  destruct core as [|c core].
  - simpl. rewrite (lstrip_by_all _ (a ++ b)); [reflexivity|].
    rewrite forallb_app, Ha, Hb. reflexivity.
  - cbn [app]. rewrite lstrip_by_stop; [|exact Ha|apply negb_true_iff, Hh].
    change (c :: core ++ b) with ((c :: core) ++ b). rewrite rev_app_distr.
    destruct (rev (c :: core)) as [|d r] eqn:Hr.
    + simpl in Hr. destruct (rev core); discriminate.
    + rewrite lstrip_by_stop; [|apply forallb_rev, Hb|apply negb_true_iff, Hl].
      rewrite <- Hr. apply rev_involutive.
Qed.

Lemma strip_split (s : str) :
  exists a b, s = a ++ strip s ++ b
              /\ forallb Unicode.isspace a = true /\ forallb Unicode.isspace b = true.
Proof.
  destruct (lstrip_by_split Unicode.isspace s) as [a [Hs Ha]].
  destruct (lstrip_by_split Unicode.isspace (rev (lstrip_by Unicode.isspace s)))
    as [b [Hr Hb]].
  exists a, (rev b). repeat split; [|exact Ha|apply forallb_rev, Hb].
  unfold strip. rewrite <- rev_app_distr, <- Hr, rev_involutive. exact Hs.
Qed.

(** ** Months *)

Lemma MONTH_MAP_table (key code : str) :
  MONTH_MAP !! key = Some code -> In (key, code) month_table.
Proof.
  intros H. apply list_elem_of_In. apply elem_of_list_to_map_2. exact H.
Qed.

(** C10.  Month resolution ignores letter case and surrounding white
    space: a month abbreviation of the table, spelled in any mix of capital
    and small letters and with any white space around it, resolves to the
    two digits of the abbreviation. *)
Theorem month_ignores_case_and_space (key code v ws1 ws2 : str) :
  MONTH_MAP !! key = Some code ->
  same_letters v key = true ->
  forallb Unicode.isspace ws1 = true ->
  forallb Unicode.isspace ws2 = true ->
  _resolve_month (Some (ws1 ++ v ++ ws2)) = Ret (Some code).
Proof.
  intros Hkey Hv H1 H2. apply MONTH_MAP_table in Hkey.
  unfold month_table in Hkey. cbn [In] in Hkey.
  cbn [_resolve_month].
  repeat (destruct Hkey as [[= <- <-] | Hkey]); try contradiction;
    eval_lits;
    (destruct v as [|a [|b [|c [|? ?]]]]; try discriminate Hv;
     cbn [same_letters] in Hv;
     repeat match goal with
            | H : _ && _ = true |- _ => apply andb_prop in H as [? ?]
            | H : _ || _ = true |- _ => apply orb_prop in H as [? | ?]
            | H : (_ =? _)%N = true |- _ => apply N.eqb_eq in H
            end;
     try discriminate;
     repeat match goal with
            | H : (?a + 32)%N = ?n |- _ =>
                assert (a = (n - 32)%N) by lia; clear H
            end;
     subst;
     rewrite strip_core by (assumption || reflexivity);
     vm_compute; reflexivity).
Qed.

(** ** The normaliser: auxiliary loops never raise *)

Lemma slice_inner_shorter (s : str) :
  s <> [] -> (length (slice s 1 (-1)) < length s)%nat.
Proof.
  intros Hs. unfold slice. rewrite length_take, length_drop.
  assert (H1 : adjust_index s 1 = 1).
  { unfold adjust_index. destruct s; [contradiction|]. rewrite len_cons.
    pose proof (len_nonneg s). zcases; lia. }
  rewrite H1. destruct s; [contradiction|]. simpl. lia.
Qed.

Lemma _strip_braces_total (value : str) :
  exists stripped, _strip_braces value = Ret stripped.
Proof.
  unfold _strip_braces.
  destruct (while_total
              (fun value => Ret (startswith value (lit "{") && endswith value (lit "}")))
              (fun value => Ret (Next (slice value 1 (-1))))
              (fun _ : str => True)
              (fun value : str => length value))
    with (fuel := S (length value)) (s := value) as [v' [Hw _]].
  - intros s _. destruct (startswith s (lit "{") && endswith s (lit "}")) eqn:Hc;
      [right | left; reflexivity].
    split; [reflexivity|]. right. eexists. split; [reflexivity|]. split; [exact I|].
    apply slice_inner_shorter. intros ->. discriminate.
  - exact I.
  - lia.
  - eauto.
Qed.

(** ** Pieces of the author field *)

Lemma startswith_nil (s : str) : startswith s [] = true.
Proof. destruct s; reflexivity. Qed.

Lemma count_single (s : str) (c : char) :
  count s [c] = Z.of_nat (length (filter (fun x => x = c) s)).
Proof.
  unfold count. induction s as [|x s IH]; [reflexivity|].
  cbn [count_from startswith length Nat.sub]. rewrite IH, startswith_nil.
  rewrite filter_cons. destruct (N.eqb_spec c x) as [->|Hne].
  - rewrite decide_True by reflexivity. simpl. lia.
  - rewrite decide_False by congruence. simpl. reflexivity.
Qed.

Lemma count_app (a b : str) (c : char) :
  count (a ++ b) [c] = count a [c] + count b [c].
Proof. rewrite !count_single, filter_app, length_app. lia. Qed.

Lemma count_cons (x : char) (s : str) (c : char) :
  count (x :: s) [c] = (if (c =? x)%N then 1 else 0) + count s [c].
Proof.
  rewrite !count_single, filter_cons. destruct (N.eqb_spec c x) as [->|Hne].
  - rewrite decide_True by reflexivity. simpl. lia.
  - rewrite decide_False by congruence. simpl. reflexivity.
Qed.

Lemma count_nonneg (s : str) (c : char) : 0 <= count s [c].
Proof. rewrite count_single. lia. Qed.

Lemma count_spaces (a : str) :
  forallb Unicode.isspace a = true -> count a [chr ","] = 0.
Proof.
  induction a as [|x a IH]; [reflexivity|]. simpl. intros H.
  apply andb_prop in H as [Hx Ha]. rewrite count_cons, IH by exact Ha.
  destruct (N.eqb_spec (chr ",") x) as [<-|]; [discriminate Hx | reflexivity].
Qed.

(** Trimming a piece does not change the number of its commas. *)
Lemma count_strip (s : str) : count (strip s) [chr ","] = count s [chr ","].
Proof.
  destruct (strip_split s) as (a & b & Hs & Ha & Hb).
  rewrite Hs at 2. rewrite !count_app, (count_spaces a), (count_spaces b) by assumption.
  lia.
Qed.

Lemma contains_single (s : str) (c : char) :
  contains s [c] = negb (count s [c] =? 0).
Proof.
  induction s as [|x s IH]; [reflexivity|].
  cbn [contains startswith]. rewrite IH, count_cons, startswith_nil.
  pose proof (count_nonneg s c).
  destruct (N.eqb_spec c x); destruct (Z.eqb_spec (count s [c]) 0);
    simpl; zcases; try lia; try reflexivity;
    destruct (Z.eqb_spec (1 + count s [c]) 0); destruct (Z.eqb_spec (0 + count s [c]) 0);
    try lia; reflexivity.
Qed.

(** [s.split(c, 1)] cuts at the first [c]. *)
Lemma split_once_single (s : str) (c : char) :
  1 <= count s [c] ->
  exists a b, s = a ++ c :: b /\ count a [c] = 0 /\ split_once s [c] = [a; b].
Proof.
  unfold split_once.
  assert (Hgen : forall acc, 1 <= count s [c] ->
            exists a b, s = a ++ c :: b /\ count a [c] = 0
                        /\ split_once_from [c] acc s = [rev acc ++ a; b]).
  { induction s as [|x s IH]; intros acc H; [change (count [] [c]) with 0 in H; lia|].
    cbn [split_once_from startswith]. rewrite startswith_nil. rewrite count_cons in H.
    destruct (N.eqb_spec c x) as [<-|Hne].
    - exists [], s. simpl. rewrite app_nil_r, drop_0. auto.
    - destruct (IH (x :: acc)) as (a & b & -> & Ha & Hsp); [lia|].
      exists (x :: a), b. repeat split.
      + rewrite count_cons, Ha. destruct (N.eqb_spec c x); [contradiction | reflexivity].
      + rewrite Hsp. simpl. rewrite <- app_assoc. reflexivity. }
  intros H. destruct (Hgen [] H) as (a & b & Hs & Ha & Hsp). eauto.
Qed.

(** A piece adds its names at the end of the list and never raises. *)
Lemma author_part_names (part : str) (names : list str) :
  author_part part names = Ret (names ++ part_names part).
Proof.
  unfold part_names, author_part.
  destruct (truthy (strip part)); cbn [negb]; [|rewrite app_nil_r; reflexivity].
  change (lit ",") with [chr ","].
  destruct (Z.leb_spec 2 (count (strip part) [chr ","])) as [H2|H2];
    [rewrite app_nil_r; reflexivity|].
  rewrite contains_single.
  destruct (Z.eqb_spec (count (strip part) [chr ","]) 0) as [H0|H0]; cbn [negb bind].
  - destruct (truthy (_clean_latex (strip part))); [reflexivity | rewrite app_nil_r; reflexivity].
  - pose proof (count_nonneg (strip part) (chr ",")).
    destruct (split_once_single (strip part) (chr ",")) as (a & b & Hs & Ha & Hsp); [lia|].
    rewrite Hsp. cbn [bind].
    destruct (truthy (_clean_latex _)); [reflexivity | rewrite app_nil_r; reflexivity].
Qed.

Lemma for_each_names {A : Type} (f : A -> list str) (body : A -> list str -> res (list str))
    (xs : list A) (names : list str) :
  (forall x s, body x s = Ret (s ++ f x)) ->
  for_each xs body names = Ret (names ++ concat (map f xs)).
Proof.
  intros Hb. revert names. induction xs as [|x xs IH]; intros names; simpl.
  - rewrite app_nil_r. reflexivity.
  - rewrite Hb. cbn [bind]. rewrite IH, <- app_assoc. reflexivity.
Qed.

Lemma _parse_author_list_names (raw : str) :
  _parse_author_list raw = Ret (concat (map part_names (Re.split and_separator raw))).
Proof.
  unfold _parse_author_list.
  rewrite (for_each_names part_names); [reflexivity|]. apply author_part_names.
Qed.

(** C6.  The author list is made of what the pieces between the
    [and] separators contribute, in order.  A piece with two or more
    commas contributes nothing.  A piece with one comma is [Last, First]
    once trimmed, and contributes the name [First Last], both parts
    trimmed, after LaTeX cleanup (nothing if the cleanup leaves nothing). *)
Theorem author_pieces :
  (forall raw : str,
      _parse_author_list raw
      = Ret (concat (map part_names (Re.split and_separator raw))))
  /\ (forall part : str, 2 <= count part (lit ",") -> part_names part = [])
  /\ (forall part : str,
        count part (lit ",") = 1 ->
        exists last first,
          strip part = last ++ lit "," ++ first
          /\ count last (lit ",") = 0 /\ count first (lit ",") = 0
          /\ part_names part
             = let name := _clean_latex (strip first ++ lit " " ++ strip last) in
               if truthy name then [name] else []).
Proof.
  change (lit ",") with [chr ","]. split; [|split].
  - apply _parse_author_list_names.
  - intros part H. unfold part_names, author_part.
    destruct (truthy (strip part)); cbn [negb]; [|reflexivity].
    change (lit ",") with [chr ","]. rewrite count_strip.
    destruct (Z.leb_spec 2 (count part [chr ","])); [reflexivity | lia].
  - intros part H. rewrite <- count_strip in H.
    destruct (split_once_single (strip part) (chr ",")) as (a & b & Hs & Ha & Hsp); [lia|].
    exists a, b. split; [exact Hs|]. split; [exact Ha|].
    assert (Hb : count b [chr ","] = 0).
    { rewrite Hs, count_app, count_cons, Ha in H.
      change (chr "," =? chr ",")%N with true in H. lia. }
    split; [exact Hb|].
    unfold part_names, author_part. change (lit ",") with [chr ","].
    assert (Ht : truthy (strip part) = true) by (rewrite Hs; destruct a; reflexivity).
    rewrite Ht. cbn [negb].
    destruct (Z.leb_spec 2 (count (strip part) [chr ","])); [lia|].
    rewrite contains_single, H. cbn [negb Z.eqb]. rewrite Hsp. cbn [bind]. cbv zeta.
    destruct (truthy (_clean_latex _)); reflexivity.
Qed.

(** ** The round trip of the sample entry *)

(** C1.  The entry with title [Foo], authors [Smith, Jane and Doe, John],
    journal [Bar], year [2020] and month [mar] is scanned into one dict
    with these five raw values, and normalised to the record with title
    [Foo], authors [Jane Smith] then [John Doe], journal [Bar] and date
    [2020-03]; no name is wrapped, as none holds the owner's surname.  With
    the owner as first author, that name comes out between [***]. *)
Theorem sample_entry_round_trip :
  (exists e : entry,
      _parse_bib sample_entry = Ret [e]
      /\ e !! lit "title" = Some (lit "Foo")
      /\ e !! lit "author" = Some (lit "Smith, Jane and Doe, John")
      /\ e !! lit "journal" = Some (lit "Bar")
      /\ e !! lit "year" = Some (lit "2020")
      /\ e !! lit "month" = Some (lit "mar")
      /\ bib_entry_to_publication e = Ret (Some sample_publication))
  /\ publications_of sample_entry = Ret [sample_publication]
  /\ publications_of sample_entry_lines = Ret [sample_publication]
  /\ (exists p : Publication,
        publications_of sample_entry_owner = Ret [p]
        /\ authors p = [lit "***Ivan Rozhkov***"; lit "John Doe"]).
Proof.
  split; [|split; [|split]].
  - eexists. split; [vm_compute; reflexivity|].
    repeat split; vm_compute; reflexivity.
  - vm_compute. reflexivity.
  - vm_compute. reflexivity.
  - eexists. split; vm_compute; reflexivity.
Qed.

(** ** The normaliser *)

Lemma MONTH_MAP_digits (r : str) : isdigit r = true -> MONTH_MAP !! r = None.
Proof.
  intros Hd. destruct (MONTH_MAP !! r) as [code|] eqn:Hk; [|reflexivity].
  apply MONTH_MAP_table in Hk. unfold month_table in Hk. cbn [In] in Hk.
  repeat (destruct Hk as [[= <- <-] | Hk]); try contradiction;
    vm_compute in Hd; discriminate Hd.
Qed.

Lemma zfill_truthy (s : str) (width : Z) : truthy s = true -> truthy (zfill s width) = true.
Proof.
  destruct s as [|c r]; [discriminate|]. intros _. unfold zfill.
  destruct (_ || _); [reflexivity|].
  destruct (repeat _ _); reflexivity.
Qed.

(** A month that resolves is not the empty string. *)
Lemma _resolve_month_truthy (raw : option str) (m : str) :
  _resolve_month raw = Ret (Some m) -> truthy m = true.
Proof.
  destruct raw as [raw|]; [|discriminate]. cbn [_resolve_month].
  destruct (MONTH_MAP !! lower (strip raw)) as [code|] eqn:Hk.
  - intros [= <-]. apply MONTH_MAP_table in Hk. unfold month_table in Hk. cbn [In] in Hk.
    repeat (destruct Hk as [[= _ <-] | Hk]); try contradiction; reflexivity.
  - destruct (isdigit (lower (strip raw))) eqn:Hd; [|discriminate].
    destruct (int (lower (strip raw))) as [n| |]; cbn [bind]; try discriminate.
    destruct ((1 <=? n) && (n <=? 12)); [|discriminate].
    intros [= <-]. apply zfill_truthy. destruct (lower (strip raw)); [discriminate Hd | reflexivity].
Qed.

(** An entry without a title or without a year, or with an empty one,
    gives no record. *)
Lemma bib_entry_to_publication_None (e : entry) :
  truthy_opt (e !! lit "title") = false \/ truthy_opt (e !! lit "year") = false ->
  bib_entry_to_publication e = Ret None.
Proof.
  unfold bib_entry_to_publication, truthy_opt.
  destruct (e !! lit "title") as [t|], (e !! lit "year") as [y|]; intros [H|H];
    try reflexivity; try discriminate H; rewrite H; try reflexivity.
  destruct (truthy t); reflexivity.
Qed.

(** An entry with a title and a year gives a record whenever its month
    resolves, to a month or to none, and the record's date is made of the
    trimmed year and of that month. *)
Lemma bib_entry_to_publication_Some (e : entry) (raw_title raw_year : str) (month : option str) :
  e !! lit "title" = Some raw_title -> e !! lit "year" = Some raw_year ->
  truthy raw_title = true -> truthy raw_year = true ->
  _resolve_month (e !! lit "month") = Ret month ->
  exists p, bib_entry_to_publication e = Ret (Some p)
            /\ date p = match month with
                        | Some m => strip raw_year ++ lit "-" ++ m
                        | None => strip raw_year
                        end.
Proof.
  intros Ht Hy Htt Hyt Hm. unfold bib_entry_to_publication.
  rewrite Ht, Hy, Htt, Hyt. cbn [negb orb].
  destruct (_strip_braces_total raw_title) as [t' ->]. cbn [bind].
  rewrite _parse_author_list_names. cbn [bind].
  destruct (_strip_braces_total
              (str_or (default [] (e !! lit "journal"))
                 (str_or (default [] (e !! lit "booktitle")) []))) as [v' ->].
  cbn [bind]. rewrite Hm. cbn [bind].
  assert (Hdoi : exists d,
             (if truthy_opt (e !! lit "doi")
              then match e !! lit "doi" with
                   | Some d => let* d := _strip_braces d in Ret (Some d)
                   | None => Raise KeyError
                   end
              else Ret None) = Ret d).
  { destruct (e !! lit "doi") as [d|]; cbn [truthy_opt]; [|eauto].
    destruct (truthy d); [|eauto].
    destruct (_strip_braces_total d) as [d' ->]. cbn [bind]. eauto. }
  destruct Hdoi as [d ->]. cbn [bind].
  eexists. split; [reflexivity|]. cbn [date].
  destruct month as [m|]; [|reflexivity].
  rewrite (_resolve_month_truthy _ _ Hm). reflexivity.
Qed.

(** C2.  The entry with a title, a year and the month [²] (superscript
    two, U+00B2) gets no record and no [None] either: [str.isdigit]
    accepts the character, [int] does not, and the [ValueError] leaves
    [bib_entry_to_publication]; scanned from a file, it ends [main]'s
    loop over the entries the same way. *)
Theorem superscript_month_raises :
  truthy_opt (superscript_month_entry !! lit "title") = true
  /\ truthy_opt (superscript_month_entry !! lit "year") = true
  /\ bib_entry_to_publication superscript_month_entry = Raise ValueError
  /\ _parse_bib superscript_month_bib = Ret [<[lit "_type" := lit "article"]> superscript_month_entry]
  /\ publications_of superscript_month_bib = Raise ValueError.
Proof. repeat split; vm_compute; reflexivity. Qed.

(** ** ASCII digits and [int] *)
Lemma ascii_chars_all (c : char) : (c <? 128)%N = true -> In c ascii_chars.
Proof.
  intros H. apply N.ltb_lt in H. unfold ascii_chars. apply in_map_iff.
  exists (N.to_nat c). split; [apply N2Nat.id|]. apply in_seq. lia.
Qed.

Lemma ascii_forall (P : char -> bool) :
  forallb P ascii_chars = true -> forall c, (c <? 128)%N = true -> P c = true.
Proof.
  intros H c Hc. rewrite forallb_forall in H. apply H, ascii_chars_all, Hc.
Qed.

Lemma ascii_digit_ascii (c : char) : ascii_digit c = true -> (c <? 128)%N = true.
Proof.
  unfold ascii_digit. change (chr "9") with 57%N. intros H.
  apply andb_prop in H as [_ H]. apply N.leb_le in H. apply N.ltb_lt. lia.
Qed.

Lemma tolower_ascii (c : char) : (c <? 128)%N = true -> (Unicode.tolower c <? 128)%N = true.
Proof. apply (ascii_forall (fun c => (Unicode.tolower c <? 128)%N)). vm_compute. reflexivity. Qed.

Lemma isdigit_ascii (c : char) :
  (c <? 128)%N = true -> Unicode.isdigit c = true -> ascii_digit c = true.
Proof.
  intros Hc Hd.
  pose proof (ascii_forall (fun c => implb (Unicode.isdigit c) (ascii_digit c))
                ltac:(vm_compute; reflexivity) c Hc) as H.
  cbv beta in H. rewrite Hd in H. exact H.
Qed.

Lemma ascii_digit_facts (c : char) :
  ascii_digit c = true ->
  Unicode.decimal_value c = Some (Z.of_N c - 48)
  /\ (c =? chr "_")%N = false /\ (c =? chr "-")%N = false /\ (c =? chr "+")%N = false
  /\ Unicode.isspace c = false.
Proof.
  intros Hd. unfold ascii_digit in Hd. change (chr "0") with 48%N in Hd.
  change (chr "9") with 57%N in Hd. apply andb_prop in Hd as [H0 H9].
  apply N.leb_le in H0, H9.
  assert (Hin : In c [48; 49; 50; 51; 52; 53; 54; 55; 56; 57]%N) by (cbn [In]; lia).
  cbn [In] in Hin. repeat (destruct Hin as [<- | Hin]); try contradiction;
    repeat split; vm_compute; reflexivity.
Qed.

Lemma lower_ascii (ctx s : str) :
  is_ascii s = true -> lower_from ctx s = map Unicode.tolower s.
Proof.
  revert ctx. induction s as [|c s IH]; intros ctx H; [reflexivity|].
  cbn [is_ascii forallb] in H. apply andb_prop in H as [Hc Hs].
  cbn [lower_from map]. apply N.ltb_lt in Hc.
  destruct (N.eqb_spec c 304); [lia|]. destruct (N.eqb_spec c 931); [lia|].
  cbn [app]. f_equal. apply IH, Hs.
Qed.

Lemma lstrip_by_id (p : char -> bool) (s : str) :
  match s with [] => true | c :: _ => negb (p c) end = true -> lstrip_by p s = s.
Proof.
  destruct s as [|c s]; [reflexivity|]. cbn [lstrip_by]. intros H.
  apply negb_true_iff in H. rewrite H. reflexivity.
Qed.

(** Nothing is taken from the ends of a string that has none of the
    characters to take. *)
Lemma strip_by_id (p : char -> bool) (s : str) :
  forallb (fun c => negb (p c)) s = true ->
  rev (lstrip_by p (rev (lstrip_by p s))) = s.
Proof.
  intros H. rewrite (lstrip_by_id p s).
  2:{ destruct s as [|c s]; [reflexivity|]. cbn [forallb] in H.
      apply andb_prop in H as [H _]. exact H. }
  rewrite (lstrip_by_id p (rev s)); [apply rev_involutive|].
  assert (Hr : forallb (fun c => negb (p c)) (rev s) = true).
  { rewrite forallb_forall in *. intros x Hx. apply H, in_rev, Hx. }
  destruct (rev s) as [|c t]; [reflexivity|]. cbn [forallb] in Hr.
  apply andb_prop in Hr as [Hr _]. exact Hr.
Qed.

Lemma strip_no_space (s : str) :
  forallb (fun c => negb (Unicode.isspace c)) s = true -> strip s = s.
Proof. apply strip_by_id. Qed.

Lemma int_digits_ascii (acc : Z) (r : str) :
  forallb ascii_digit r = true -> exists n, int_digits true acc r = Some n.
Proof.
  revert acc. induction r as [|c r IH]; intros acc H; [eexists; reflexivity|].
  cbn [forallb] in H. apply andb_prop in H as [Hc Hr].
  destruct (ascii_digit_facts c Hc) as (Hv & Hu & _).
  cbn [int_digits]. rewrite Hu, Hv. apply IH, Hr.
Qed.

Lemma int_digits_head (b : bool) (acc : Z) (c : char) (r : str) :
  ascii_digit c = true -> int_digits b acc (c :: r) = int_digits true acc (c :: r).
Proof.
  intros Hc. destruct (ascii_digit_facts c Hc) as (Hv & Hu & _).
  cbn [int_digits]. rewrite Hu, Hv. reflexivity.
Qed.

Lemma int_digits_zeros (k : nat) (r : str) :
  int_digits true 0 (repeat (chr "0") k ++ r) = int_digits true 0 r.
Proof.
  induction k as [|k IH]; [reflexivity|]. cbn [repeat app int_digits].
  change ((chr "0" =? chr "_")%N) with false.
  change (Unicode.decimal_value (chr "0")) with (Some 0). cbv iota. exact IH.
Qed.

Lemma count_digits_ascii (s : str) :
  forallb ascii_digit s = true -> count_digits s = len s.
Proof.
  intros H. unfold count_digits. f_equal.
  induction s as [|c s IH]; [reflexivity|]. cbn [forallb] in H.
  apply andb_prop in H as [Hc Hs]. cbn [List.filter].
  destruct (ascii_digit_facts c Hc) as (_ & -> & _). cbn [negb]. f_equal. apply IH, Hs.
Qed.

(** [int] on a string of ASCII digits: the number they spell, unless
    they are more than the limit. *)
Lemma int_ascii (s : str) :
  s <> [] -> forallb ascii_digit s = true ->
  int s = match int_digits true 0 s with
          | Some v => if MAX_STR_DIGITS <? len s then Raise ValueError else Ret v
          | None => Raise ValueError
          end.
Proof.
  intros Hne Hd. unfold int. rewrite strip_by_id.
  2:{ rewrite forallb_forall in *. intros x Hx. apply negb_true_iff.
      destruct (ascii_digit_facts x (Hd x Hx)) as (_ & _ & _ & _ & Hs).
      unfold int_space. rewrite Hs. reflexivity. }
  rewrite <- (count_digits_ascii s Hd).
  destruct s as [|c r]; [contradiction|]. cbn [forallb] in Hd.
  apply andb_prop in Hd as [Hc _].
  destruct (ascii_digit_facts c Hc) as (_ & _ & Hm & Hp & _). rewrite Hm, Hp.
  rewrite (int_digits_head false 0 c r Hc). reflexivity.
Qed.

(** [int] raises nothing but [ValueError]. *)
Lemma int_raises (s : str) : raises_only (eq ValueError) (int s).
Proof.
  unfold int. destruct (rev _) as [|c r]; cbn zeta.
  - destruct (int_digits _ _ _); [|reflexivity]. destruct (_ <? _); [reflexivity | exact I].
  - destruct (c =? chr "-")%N; [|destruct (c =? chr "+")%N];
      (destruct (int_digits _ _ _); [|reflexivity]);
      destruct (_ <? _); first [reflexivity | exact I].
Qed.

Lemma int_digits_nonneg (b : bool) (acc : Z) (d : str) (n : Z) :
  0 <= acc -> int_digits b acc d = Some n -> 0 <= n.
Proof.
  revert b acc. induction d as [|c d IH]; intros b acc Hacc; cbn [int_digits].
  - destruct b; [intros [= <-]; exact Hacc | discriminate].
  - destruct (c =? chr "_")%N.
    + destruct b; [apply IH, Hacc | discriminate].
    + destruct (Unicode.decimal_value c) as [v|] eqn:Hv; [|discriminate].
      apply IH. unfold Unicode.decimal_value in Hv.
      destruct (List.find _ _) as [r|]; [|discriminate]. injection Hv as <-.
      pose proof (N2Z.is_nonneg ((c - fst r) mod 10)). nia.
Qed.


(** ** Month resolution and the date *)

Lemma MONTH_MAP_table_iff (key code : str) :
  MONTH_MAP !! key = Some code <-> In (key, code) month_table.
Proof.
  split; [apply MONTH_MAP_table|].
  unfold month_table. cbn [In]. intros H.
  repeat (destruct H as [[= <- <-] | H]); try contradiction; vm_compute; reflexivity.
Qed.


(** A number with zeros in front keeps them all: the month of [003] is
    not the two digits [03]. *)
Lemma leading_zeros_are_kept :
  month_as_specified (lit "003") = Some (lit "03")
  /\ _resolve_month (Some (lit "003")) = Ret (Some (lit "003")).
Proof. split; vm_compute; reflexivity. Qed.


(** ** The merge step *)

Lemma _resolve_month_raises (raw : option str) :
  raises_only (eq ValueError) (_resolve_month raw).
Proof.
  destruct raw as [raw|]; [|exact I]. cbn [_resolve_month].
  destruct (MONTH_MAP !! _); [exact I|].
  destruct (isdigit _); [|exact I].
  pose proof (int_raises (lower (strip raw))) as Hint.
  destruct (int _) as [n| |]; cbn [bind]; [|exact Hint|exact Hint].
  destruct (_ && _); exact I.
Qed.

Lemma bib_entry_to_publication_raises (e : entry) :
  raises_only (eq ValueError) (bib_entry_to_publication e).
Proof.
  unfold bib_entry_to_publication.
  destruct (e !! lit "title") as [t|]; [|exact I].
  destruct (e !! lit "year") as [y|]; [|exact I].
  destruct (_ || _); [exact I|].
  destruct (_strip_braces_total t) as [t' ->]. cbn [bind].
  rewrite _parse_author_list_names. cbn [bind].
  destruct (_strip_braces_total
              (str_or (default [] (e !! lit "journal"))
                 (str_or (default [] (e !! lit "booktitle")) []))) as [v' ->].
  cbn [bind].
  pose proof (_resolve_month_raises (e !! lit "month")) as Hm.
  destruct (_resolve_month (e !! lit "month")) as [m| |]; cbn [bind];
    [|exact Hm|contradiction].
  destruct (e !! lit "doi") as [d|]; cbn [truthy_opt]; [|exact I].
  destruct (truthy d); [|exact I].
  destruct (_strip_braces_total d) as [d' ->]. exact I.
Qed.

Lemma for_each_raises {A S : Type} (P : exn -> Prop) (body : A -> S -> res S)
    (xs : list A) (s : S) :
  (forall x s, raises_only P (body x s)) -> raises_only P (for_each xs body s).
Proof.
  intros Hb. revert s. induction xs as [|x xs IH]; intros s; cbn [for_each]; [exact I|].
  pose proof (Hb x s) as Hx. destruct (body x s) as [s'| |]; cbn [bind];
    [apply IH | exact Hx | contradiction].
Qed.

Lemma collect_publications_raises (entries : list entry) :
  raises_only (eq ValueError) (collect_publications entries).
Proof.
  apply for_each_raises. intros e acc.
  pose proof (bib_entry_to_publication_raises e) as He.
  destruct (bib_entry_to_publication e) as [[p|]| |]; cbn [bind];
    try exact I; try exact He; contradiction.
Qed.

Lemma _parse_bib_raises (text : str) : raises_only (fun _ => False) (_parse_bib text).
Proof. destruct (_parse_bib_total text) as [entries ->]. exact I. Qed.


(** ** The store of the document *)

Lemma is_key_refl (key : str) : is_key key (YStr key) = true.
Proof. cbn [is_key]. apply bool_decide_eq_true. reflexivity. Qed.

Lemma is_key_other (key key' : str) (v : yaml) :
  key' <> key -> is_key key v = true -> is_key key' v = false.
Proof.
  intros Hne. destruct v; cbn [is_key]; try discriminate.
  intros H. apply bool_decide_eq_true in H. subst. apply bool_decide_eq_false. congruence.
Qed.

Lemma dict_get_set (d : list (yaml * yaml)) (key : str) (v : yaml) :
  dict_get (dict_set d key v) key = Some v.
Proof.
  unfold dict_get. induction d as [|kv d IH]; cbn [dict_set List.find fst snd].
  - rewrite is_key_refl. reflexivity.
  - destruct (is_key key (fst kv)) eqn:Hk; cbn [List.find fst snd]; rewrite Hk;
      [reflexivity | exact IH].
Qed.

Lemma dict_get_set_other (d : list (yaml * yaml)) (key key' : str) (v : yaml) :
  key' <> key -> dict_get (dict_set d key v) key' = dict_get d key'.
Proof.
  intros Hne. unfold dict_get. induction d as [|kv d IH]; cbn [dict_set List.find fst snd].
  - rewrite (is_key_other key key' _ Hne (is_key_refl key)). reflexivity.
  - destruct (is_key key (fst kv)) eqn:Hk; cbn [List.find fst snd].
    + rewrite (is_key_other key key' _ Hne Hk). reflexivity.
    + destruct (is_key key' (fst kv)); [reflexivity | exact IH].
Qed.

Lemma dict_set_keys (d : list (yaml * yaml)) (key : str) (v : yaml) :
  map fst (dict_set d key v)
  = match dict_get d key with
    | Some _ => map fst d
    | None => map fst d ++ [YStr key]
    end.
Proof.
  unfold dict_get. induction d as [|kv d IH]; cbn [dict_set List.find map fst app];
    [reflexivity|].
  destruct (is_key key (fst kv)) eqn:Hk; cbn [map fst]; [reflexivity|].
  rewrite IH. destruct (List.find _ d); reflexivity.
Qed.

Lemma new_object_list (l : list tree) (h : heap) :
  new_object (TList l) h
  = let '(vs, h') := new_objects l h in (YRef (length h'), h' ++ [OList vs]).
Proof.
  cbn [new_object].
  match goal with
  | |- (let '(_, _) := ?f l h in _) = _ =>
      assert (Hitems : forall l h, f l h = new_objects l h)
  end.
  { clear l h. intros l. induction l as [|t l IH]; intros h; [reflexivity|].
    cbn [new_objects]. destruct (new_object t h) as [v h1]. rewrite IH. reflexivity. }
  rewrite Hitems. reflexivity.
Qed.

Lemma new_object_dict (d : list (str * tree)) (h : heap) :
  new_object (TDict d) h
  = let '(kvs, h') := new_items d h in (YRef (length h'), h' ++ [ODict kvs]).
Proof.
  cbn [new_object].
  match goal with
  | |- (let '(_, _) := ?f d h in _) = _ =>
      assert (Hitems : forall d h, f d h = new_items d h)
  end.
  { clear d h. intros d. induction d as [|[k t] d IH]; intros h; [reflexivity|].
    cbn [new_items]. destruct (new_object t h) as [v h1]. rewrite IH. reflexivity. }
  rewrite Hitems. reflexivity.
Qed.

(** Induction on trees, with the property at hand for the trees inside. *)
Lemma tree_ind' (P : tree -> Prop) :
  P TNone -> (forall b, P (TBool b)) -> (forall n, P (TInt n)) -> (forall s, P (TStr s)) ->
  (forall l, Forall P l -> P (TList l)) ->
  (forall d, Forall (fun kt => P (snd kt)) d -> P (TDict d)) ->
  forall t, P t.
Proof.
  intros HN HB HI HS HL HD. fix IH 1. intros [| b | n | s | l | d].
  - exact HN.
  - apply HB.
  - apply HI.
  - apply HS.
  - apply HL. revert l. fix IHl 1. intros [|t l]; constructor; [apply IH | apply IHl].
  - apply HD. revert d. fix IHd 1. intros [|[k t] d]; constructor; [apply IH | apply IHd].
Qed.

Lemma all_some_map {A B : Type} (g : A -> option B) (xs : list A) (ys : list B) :
  Forall2 (fun x y => g x = Some y) xs ys -> all_some (map g xs) = Some ys.
Proof.
  intros H. induction H as [|x y xs ys Hx _ IH]; [reflexivity|].
  cbn [map all_some]. rewrite Hx, IH. reflexivity.
Qed.

Lemma all_some_map_mono {A B : Type} (g g' : A -> option B) (xs : list A) (ys : list B) :
  (forall x y, g x = Some y -> g' x = Some y) ->
  all_some (map g xs) = Some ys -> all_some (map g' xs) = Some ys.
Proof.
  intros Hg. revert ys. induction xs as [|x xs IH]; intros ys; [auto|].
  cbn [map all_some]. destruct (g x) as [y|] eqn:Hx; [|discriminate].
  rewrite (Hg x y Hx). destruct (all_some (map g xs)) as [r|]; [|discriminate].
  rewrite (IH r eq_refl). auto.
Qed.

(** Reading deeper changes nothing to what was read. *)
Lemma read_fuel (fuel fuel' : nat) (h : heap) (v : yaml) (t : tree) :
  read fuel h v = Some t -> (fuel <= fuel')%nat -> read fuel' h v = Some t.
Proof.
  revert fuel' v t. induction fuel as [|fuel IH]; intros fuel' v t H Hle.
  - destruct v; cbn [read] in *; try discriminate H; destruct fuel'; exact H.
  - destruct fuel' as [|fuel']; [lia|].
    destruct v as [| b | n | s | a]; cbn [read] in *; try exact H.
    destruct (h !! a) as [[d|l]|]; [| |discriminate H].
    + destruct (all_some (map _ d)) as [r|] eqn:Hr; [|discriminate H].
      erewrite all_some_map_mono; [exact H | | exact Hr].
      intros kv y. cbv beta. destruct (fst kv); try discriminate.
      destruct (read fuel h (snd kv)) as [t'|] eqn:Ht; [|discriminate].
      rewrite (IH fuel' _ _ Ht) by lia. auto.
    + destruct (all_some (map _ l)) as [r|] eqn:Hr; [|discriminate H].
      erewrite all_some_map_mono; [exact H | | exact Hr].
      intros x y Hx. apply (IH fuel' _ _ Hx). lia.
Qed.

Lemma depth_in_list (t : tree) (l : list tree) :
  In t l -> (depth t <= foldr (fun t n => Nat.max (depth t) n) O l)%nat.
Proof.
  induction l as [|x l IH]; [contradiction|]. cbn [foldr]. intros [->|H]; [lia|].
  specialize (IH H). lia.
Qed.

Lemma depth_in_dict (kt : str * tree) (d : list (str * tree)) :
  In kt d -> (depth (snd kt) <= foldr (fun kt n => Nat.max (depth (snd kt)) n) O d)%nat.
Proof.
  induction d as [|x d IH]; [contradiction|]. cbn [foldr]. intros [->|H]; [lia|].
  specialize (IH H). lia.
Qed.

Lemma Forall2_read_fuel (m : nat) (h : heap) (vs : list yaml) (l : list tree) :
  Forall2 (fun v t => read (depth t) h v = Some t) vs l ->
  Forall (fun t => depth t <= m)%nat l ->
  Forall2 (fun v t => read m h v = Some t) vs l.
Proof.
  intros Hr. induction Hr as [|v t vs l Hv _ IH]; intros Hd; constructor;
    inversion Hd; subst; [eapply read_fuel; [exact Hv | assumption] | apply IH; assumption].
Qed.

Lemma Forall2_read_fuel_items (m : nat) (h : heap) (kvs : list (yaml * yaml))
    (d : list (str * tree)) :
  Forall2 (fun kv kt => fst kv = YStr (fst kt)
                        /\ read (depth (snd kt)) h (snd kv) = Some (snd kt)) kvs d ->
  Forall (fun kt => depth (snd kt) <= m)%nat d ->
  Forall2 (fun kv kt => match fst kv, read m h (snd kv) with
                        | YStr k, Some t => Some (k, t)
                        | _, _ => None
                        end = Some kt) kvs d.
Proof.
  intros Hr. induction Hr as [|kv kt kvs d [Hk Hv] _ IH]; intros Hd; constructor;
    inversion Hd; subst; [|apply IH; assumption].
  rewrite Hk, (read_fuel _ m _ _ _ Hv) by assumption. destruct kt; reflexivity.
Qed.

(** [new_object] adds objects at the end of the store and changes none;
    the value it returns reads as the tree, whatever is in the store before
    the new objects and after them. *)
Lemma new_object_read (t : tree) :
  forall h : heap,
    exists ext : heap,
      snd (new_object t h) = h ++ ext
      /\ forall pre more : heap,
           length pre = length h ->
           read (depth t) (pre ++ ext ++ more) (fst (new_object t h)) = Some t.
Proof.
  induction t as [| b | n | s | l IHl | d IHd] using tree_ind'; intros h;
    try (exists []; split; [cbn; rewrite app_nil_r; reflexivity | reflexivity]).
  - assert (Hl : forall h : heap,
               exists ext : heap,
                 snd (new_objects l h) = h ++ ext
                 /\ forall pre more : heap,
                      length pre = length h ->
                      Forall2 (fun v t => read (depth t) (pre ++ ext ++ more) v = Some t)
                        (fst (new_objects l h)) l).
    { clear h. induction IHl as [|t l Ht _ IH]; intros h.
      - exists []. split; [cbn; rewrite app_nil_r; reflexivity | constructor].
      - cbn [new_objects]. destruct (Ht h) as (e1 & He1 & Hr1).
        destruct (new_object t h) as [v h1]. cbn [fst snd] in *. subst h1.
        destruct (IH (h ++ e1)) as (e2 & He2 & Hr2).
        destruct (new_objects l (h ++ e1)) as [vs h2]. cbn [fst snd] in *. subst h2.
        exists (e1 ++ e2). split; [rewrite app_assoc; reflexivity|].
        intros pre more Hpre. constructor.
        + rewrite <- (app_assoc e1 e2 more). apply Hr1, Hpre.
        + rewrite <- (app_assoc e1 e2 more), (app_assoc pre e1).
          apply Hr2. rewrite !length_app. lia. }
    rewrite new_object_list. destruct (Hl h) as (e & He & Hr).
    destruct (new_objects l h) as [vs h2]. cbn [fst snd] in *. subst h2.
    exists (e ++ [OList vs]). split; [rewrite app_assoc; reflexivity|].
    intros pre more Hpre. cbn [depth read].
    replace (pre ++ (e ++ [OList vs]) ++ more) with ((pre ++ e) ++ OList vs :: more)
      by (rewrite <- !app_assoc; reflexivity).
    rewrite list_lookup_middle by (rewrite !length_app; lia).
    rewrite (all_some_map _ vs l); [reflexivity|].
    specialize (Hr pre ([OList vs] ++ more) Hpre).
    replace (pre ++ e ++ [OList vs] ++ more) with ((pre ++ e) ++ OList vs :: more) in Hr
      by (rewrite <- !app_assoc; reflexivity).
    apply Forall2_read_fuel; [exact Hr|].
    apply Forall_forall. intros t Ht. apply depth_in_list, list_elem_of_In, Ht.
  - assert (Hd : forall h : heap,
               exists ext : heap,
                 snd (new_items d h) = h ++ ext
                 /\ forall pre more : heap,
                      length pre = length h ->
                      Forall2 (fun kv kt =>
                                 fst kv = YStr (fst kt)
                                 /\ read (depth (snd kt)) (pre ++ ext ++ more) (snd kv)
                                    = Some (snd kt))
                        (fst (new_items d h)) d).
    { clear h. induction IHd as [|[k t] d Ht _ IH]; intros h.
      - exists []. split; [cbn; rewrite app_nil_r; reflexivity | constructor].
      - cbn [new_items]. cbn [snd] in Ht. destruct (Ht h) as (e1 & He1 & Hr1).
        destruct (new_object t h) as [v h1]. cbn [fst snd] in *. subst h1.
        destruct (IH (h ++ e1)) as (e2 & He2 & Hr2).
        destruct (new_items d (h ++ e1)) as [kvs h2]. cbn [fst snd] in *. subst h2.
        exists (e1 ++ e2). split; [rewrite app_assoc; reflexivity|].
        intros pre more Hpre. constructor.
        + cbn [fst snd]. split; [reflexivity|].
          rewrite <- (app_assoc e1 e2 more). apply Hr1, Hpre.
        + rewrite <- (app_assoc e1 e2 more), (app_assoc pre e1).
          apply Hr2. rewrite !length_app. lia. }
    rewrite new_object_dict. destruct (Hd h) as (e & He & Hr).
    destruct (new_items d h) as [kvs h2]. cbn [fst snd] in *. subst h2.
    exists (e ++ [ODict kvs]). split; [rewrite app_assoc; reflexivity|].
    intros pre more Hpre. cbn [depth read].
    replace (pre ++ (e ++ [ODict kvs]) ++ more) with ((pre ++ e) ++ ODict kvs :: more)
      by (rewrite <- !app_assoc; reflexivity).
    rewrite list_lookup_middle by (rewrite !length_app; lia).
    rewrite (all_some_map _ kvs d); [reflexivity|].
    specialize (Hr pre ([ODict kvs] ++ more) Hpre).
    replace (pre ++ e ++ [ODict kvs] ++ more) with ((pre ++ e) ++ ODict kvs :: more) in Hr
      by (rewrite <- !app_assoc; reflexivity).
    apply Forall2_read_fuel_items; [exact Hr|].
    apply Forall_forall. intros kt Hkt. apply depth_in_dict, list_elem_of_In, Hkt.
Qed.

(** The objects of the publications are three deep: the list, the dict
    of a record, the list of its authors. *)
Lemma depth_publications (publications : list Publication) :
  (depth (TList (map publication_dict publications)) <= 3)%nat.
Proof.
  cbn [depth]. apply le_n_S.
  induction publications as [|p ps IH]; cbn [map foldr]; [lia|].
  apply Nat.max_lub; [|exact IH]. unfold publication_dict. cbn [depth]. apply le_n_S.
  assert (Hstr : forall l : list str,
             foldr (fun t n => Nat.max (depth t) n) O (map TStr l) = O).
  { intros l. induction l as [|x l IHl]; [reflexivity|]. cbn [map foldr depth]. exact IHl. }
  destruct (journal p), (doi p); cbn [app foldr snd depth]; rewrite Hstr; cbn; lia.
Qed.

(** *** What stays where it is *)

Lemma keeps_refl (key : str) (h : heap) : keeps key h h.
Proof. intros a d H. eauto. Qed.

Lemma keeps_trans (key : str) (h1 h2 h3 : heap) :
  keeps key h1 h2 -> keeps key h2 h3 -> keeps key h1 h3.
Proof.
  intros H12 H23 a d H. destruct (H12 a d H) as (d2 & H2 & E2).
  destruct (H23 a d2 H2) as (d3 & H3 & E3). exists d3. split; [exact H3 | congruence].
Qed.

Lemma keeps_app (key : str) (h ext : heap) : keeps key h (h ++ ext).
Proof. intros a d H. exists d. split; [apply lookup_app_l_Some, H | reflexivity]. Qed.

Lemma keeps_insert (key k : str) (h : heap) (a : addr) (d : list (yaml * yaml)) (x : yaml) :
  k <> key -> h !! a = Some (ODict d) ->
  keeps key h (<[a := ODict (dict_set d k x)]> h).
Proof.
  intros Hk Ha b d' Hb. destruct (decide (a = b)) as [<-|Hne].
  - rewrite Ha in Hb. injection Hb as <-.
    exists (dict_set d k x). split.
    + apply list_lookup_insert_eq. eapply lookup_lt_Some, Ha.
    + apply dict_get_set_other. congruence.
  - exists d'. split; [|reflexivity]. rewrite list_lookup_insert_ne by exact Hne. exact Hb.
Qed.

Lemma keeps_new_object (key : str) (t : tree) (h : heap) :
  keeps key h (snd (new_object t h)).
Proof. destruct (new_object_read t h) as (ext & -> & _). apply keeps_app. Qed.

Lemma keeps_setdefault (key k : str) (h h' : heap) (v y : yaml) :
  k <> key -> yaml_setdefault h v k = Ret (y, h') -> keeps key h h'.
Proof.
  intros Hk. unfold yaml_setdefault. destruct v as [| | | |a]; try discriminate.
  destruct (h !! a) as [[d|l]|] eqn:Ha; try discriminate.
  destruct (dict_get d k); intros [= <- <-]; [apply keeps_refl|].
  eapply keeps_trans; [apply (keeps_app key h [ODict []])|].
  apply keeps_insert; [exact Hk | apply lookup_app_l_Some, Ha].
Qed.

Lemma keeps_setitem (key k : str) (h h' : heap) (v x : yaml) :
  k <> key -> yaml_setitem h v k x = Ret h' -> keeps key h h'.
Proof.
  intros Hk. unfold yaml_setitem. destruct v as [| | | |a]; try discriminate.
  destruct (h !! a) as [[d|l]|] eqn:Ha; try discriminate.
  intros [= <-]. apply keeps_insert; assumption.
Qed.

Lemma yaml_getitem_keeps (key : str) (h h' : heap) (v x : yaml) :
  keeps key h h' -> yaml_getitem h v key = Ret x -> yaml_getitem h' v key = Ret x.
Proof.
  intros Hk. unfold yaml_getitem. destruct v as [| | | |a]; try discriminate.
  destruct (h !! a) as [[d|l]|] eqn:Ha; try discriminate.
  destruct (Hk a d Ha) as (d' & -> & ->). auto.
Qed.

(** What [setdefault] returns is under the key afterwards. *)
Lemma yaml_setdefault_getitem (h h' : heap) (v y : yaml) (key : str) :
  yaml_setdefault h v key = Ret (y, h') -> yaml_getitem h' v key = Ret y.
Proof.
  unfold yaml_setdefault, yaml_getitem. destruct v as [| | | |a]; try discriminate.
  destruct (h !! a) as [[d|l]|] eqn:Ha; try discriminate.
  destruct (dict_get d key) as [y'|] eqn:Hy; intros [= <- <-].
  - rewrite Ha, Hy. reflexivity.
  - rewrite list_lookup_insert_eq
      by (rewrite length_app; apply lookup_lt_Some in Ha; lia).
    rewrite dict_get_set. reflexivity.
Qed.

(** The operations on the store raise [TypeError], [KeyError] or
    [AttributeError] only. *)
Lemma yaml_contains_raises (h : heap) (v : yaml) (key : str) :
  raises_only lookup_error (yaml_contains h v key).
Proof.
  destruct v as [| | | |a]; cbn; unfold lookup_error; auto.
  destruct (h !! a) as [[d|l]|]; cbn; auto.
Qed.

Lemma yaml_getitem_raises (h : heap) (v : yaml) (key : str) :
  raises_only lookup_error (yaml_getitem h v key).
Proof.
  destruct v as [| | | |a]; cbn; unfold lookup_error; auto.
  destruct (h !! a) as [[d|l]|]; cbn; auto. destruct (dict_get _ _); cbn; auto.
Qed.

Lemma yaml_setitem_raises (h : heap) (v : yaml) (key : str) (x : yaml) :
  raises_only lookup_error (yaml_setitem h v key x).
Proof.
  destruct v as [| | | |a]; cbn; unfold lookup_error; auto.
  destruct (h !! a) as [[d|l]|]; cbn; auto.
Qed.

Lemma yaml_setdefault_raises (h : heap) (v : yaml) (key : str) :
  raises_only lookup_error (yaml_setdefault h v key).
Proof.
  destruct v as [| | | |a]; cbn; unfold lookup_error; auto.
  destruct (h !! a) as [[d|l]|]; cbn; auto. destruct (dict_get _ _); cbn; auto.
Qed.
Section MainFacts.
Context {bytes : Type}.
Variable decode : bytes -> option str.
Variable encode : str -> bytes.
Variable safe_load : str -> option (heap * yaml).
Variable dump : heap -> yaml -> option str.
Variable path_str : path -> str.

Local Abbreviation run := (main decode encode safe_load dump path_str).

(** Either [main] returns, having found the key [cv] in the document and
    written the document once, or it raises, and then both files are as
    they were and the exit status is not zero. *)
Lemma main_outcomes (w : world) :
  (exists dumped line cv_bytes cv_text h cv_data,
      cv_file w = Some cv_bytes /\ decode cv_bytes = Some cv_text
      /\ safe_load cv_text = Some (h, cv_data)
      /\ yaml_contains h cv_data (lit "cv") = Ret true
      /\ run w = (Ret tt, World (bib_file w) (Some (encode dumped))
                            (stdout w ++ [line]) (stderr w)))
  \/ (exists e w', run w = (Raise e, w')
                   /\ bib_file w' = bib_file w /\ cv_file w' = cv_file w
                   /\ stdout w' = stdout w
                   /\ (forall code, e = SystemExit code -> code = 1)).
Proof.
  destruct w as [bib cv out err]. run_main;
    try (left; do 6 eexists; repeat split; try eassumption; try reflexivity;
         match goal with
         | H : negb ?a = false |- _ = Ret true => destruct a; [assumption | discriminate H]
         end);
    repeat match goal with
           | H : _parse_bib ?t = _ |- _ =>
               pose proof (_parse_bib_raises t); rewrite H in *; clear H
           | H : collect_publications ?l = _ |- _ =>
               pose proof (collect_publications_raises l); rewrite H in *; clear H
           | H : yaml_contains ?h ?v ?k = _ |- _ =>
               pose proof (yaml_contains_raises h v k); rewrite H in *; clear H
           | H : yaml_getitem ?h ?v ?k = _ |- _ =>
               pose proof (yaml_getitem_raises h v k); rewrite H in *; clear H
           | H : yaml_setitem ?h ?v ?k ?x = _ |- _ =>
               pose proof (yaml_setitem_raises h v k x); rewrite H in *; clear H
           | H : yaml_setdefault ?h ?v ?k = _ |- _ =>
               pose proof (yaml_setdefault_raises h v k); rewrite H in *; clear H
           end;
    cbn [raises_only] in *; unfold lookup_error in *; try contradiction;
    right; do 2 eexists; (split; [reflexivity|]);
    cbn [bib_file cv_file stdout]; repeat split;
    intros code Hcode; first [congruence | intuition congruence].
Qed.

(** What happened when [main] returned: every step of it gave a result. *)
Lemma main_returns (w w' : world) :
  run w = (Ret tt, w') ->
  exists (bib_bytes : bytes) (bib_text : str) (entries : list entry)
         (collected : list Publication) (cv_bytes : bytes) (cv_text : str)
         (h : heap) (cv_data cv sections : yaml) (h1 : heap) (value : yaml)
         (h2 h' : heap) (dumped : str),
    bib_file w = Some bib_bytes /\ decode bib_bytes = Some bib_text
    /\ _parse_bib bib_text = Ret entries /\ collect_publications entries = Ret collected
    /\ cv_file w = Some cv_bytes /\ decode cv_bytes = Some cv_text
    /\ safe_load cv_text = Some (h, cv_data)
    /\ yaml_getitem h cv_data (lit "cv") = Ret cv
    /\ yaml_setdefault h cv (lit "sections") = Ret (sections, h1)
    /\ new_object (TList (map publication_dict (sort_by_date_reverse collected))) h1
       = (value, h2)
    /\ yaml_setitem h2 sections (lit "Publications") value = Ret h'
    /\ dump h' cv_data = Some dumped
    /\ w' = World (bib_file w) (Some (encode dumped))
              (stdout w
               ++ [lit "Injected "
                   ++ str_of_int (Z.of_nat (length (sort_by_date_reverse collected)))
                   ++ lit " publications into " ++ path_str CV_PATH])
              (stderr w).
Proof.
  destruct w as [bib cv out err]. run_main; intros Hrun; try discriminate Hrun.
  injection Hrun as <-. subst. cbn [bib_file cv_file stdout stderr].
  do 15 eexists. repeat split; try eassumption; reflexivity.
Qed.

Lemma yaml_getitem_contains (h : heap) (v x : yaml) (key : str) :
  yaml_getitem h v key = Ret x -> yaml_contains h v key = Ret true.
Proof.
  unfold yaml_getitem, yaml_contains. destruct v as [| | | |a]; try discriminate.
  destruct (h !! a) as [[d|l]|]; try discriminate.
  destruct (dict_get d key); [reflexivity | discriminate].
Qed.

Lemma yaml_setitem_getitem (h h' : heap) (v x : yaml) (key : str) :
  yaml_setitem h v key x = Ret h' -> yaml_getitem h' v key = Ret x.
Proof.
  unfold yaml_setitem, yaml_getitem. destruct v as [| | | |a]; try discriminate.
  destruct (h !! a) as [[d|l]|] eqn:Ha; try discriminate. intros [= <-].
  rewrite list_lookup_insert_eq by (eapply lookup_lt_Some, Ha).
  rewrite dict_get_set. reflexivity.
Qed.

(** In a closed store, what [setdefault] returns is a value of the store
    it leaves. *)
Lemma yaml_setdefault_in_store (h h' : heap) (root v y : yaml) (key : str) :
  closed h root = true -> yaml_setdefault h v key = Ret (y, h') -> in_store h' y = true.
Proof.
  intros Hc. unfold yaml_setdefault. destruct v as [| | | |a]; try discriminate.
  destruct (h !! a) as [[d|l]|] eqn:Ha; try discriminate.
  destruct (dict_get d key) as [x|] eqn:Hx; intros [= <- <-].
  - unfold closed in Hc. apply andb_prop in Hc as [_ Hc].
    rewrite forallb_forall in Hc. apply list_elem_of_lookup_2, list_elem_of_In in Ha.
    specialize (Hc _ Ha). cbv beta iota in Hc. rewrite forallb_forall in Hc.
    unfold dict_get in Hx. destruct (List.find _ d) as [kv|] eqn:Hf; [|discriminate].
    injection Hx as <-. apply find_some in Hf as [Hin _].
    specialize (Hc _ Hin). apply andb_prop in Hc as [_ Hc]. exact Hc.
  - cbn [in_store]. apply bool_decide_eq_true. rewrite length_insert, length_app.
    cbn [length]. lia.
Qed.


(** C7.  The records that [main] puts in the document are sorted by
    date, newest first, in the order of plain string comparison.  The sort
    leaves the records it gets in an order where no record has a date
    smaller than a later one.  Whenever [main] returns, the document it has
    dumped and written holds, under [cv], [sections], [Publications], the
    list of the dicts of the records of the bibliography in such an order.
    Records dated 2021, 2020-06 and 2022-01 come out as 2022-01, 2021,
    2020-06. *)
Theorem publications_sorted_by_date :
  (forall l : list Publication,
      StronglySorted not_older (sort_by_date_reverse l)
      /\ Permutation l (sort_by_date_reverse l))
  /\ (forall w w' : world,
        (forall text h v, safe_load text = Some (h, v) -> closed h v = true) ->
        run w = (Ret tt, w') ->
        exists (bib_bytes : bytes) (bib_text : str) (entries : list entry)
               (collected publications : list Publication)
               (cv_bytes : bytes) (cv_text : str) (h : heap) (cv_data : yaml)
               (h' : heap) (cv sections value : yaml) (dumped : str),
          bib_file w = Some bib_bytes /\ decode bib_bytes = Some bib_text
          /\ _parse_bib bib_text = Ret entries
          /\ collect_publications entries = Ret collected
          /\ Permutation collected publications
          /\ StronglySorted not_older publications
          /\ cv_file w = Some cv_bytes /\ decode cv_bytes = Some cv_text
          /\ safe_load cv_text = Some (h, cv_data)
          /\ dump h' cv_data = Some dumped /\ cv_file w' = Some (encode dumped)
          /\ yaml_getitem h' cv_data (lit "cv") = Ret cv
          /\ yaml_getitem h' cv (lit "sections") = Ret sections
          /\ yaml_getitem h' sections (lit "Publications") = Ret value
          /\ read 3 h' value = Some (TList (map publication_dict publications)))
  /\ (forall a b c : Publication,
        date a = lit "2021" -> date b = lit "2020-06" -> date c = lit "2022-01" ->
        sort_by_date_reverse [a; b; c] = [c; a; b]).
Proof.
  split; [|split].
  - intros l. split; [apply sort_by_date_reverse_sorted | apply sort_by_date_reverse_perm].
  - intros w w' Hclosed Hrun.
    destruct (main_returns w w' Hrun)
      as (bib_bytes & bib_text & entries & collected & cv_bytes & cv_text & h & cv_data
          & cv & sections & h1 & value & h2 & h' & dumped
          & Hbib & Hdb & Hparse & Hcollect & Hcv & Hdc & Hload & Hgetcv & Hdefault
          & Hnew & Hset & Hdump & ->).
    exists bib_bytes, bib_text, entries, collected, (sort_by_date_reverse collected),
      cv_bytes, cv_text, h, cv_data, h', cv, sections, value, dumped.
    assert (Hne1 : lit "sections" <> lit "cv") by (vm_compute; discriminate).
    assert (Hne2 : lit "Publications" <> lit "cv") by (vm_compute; discriminate).
    assert (Hne3 : lit "Publications" <> lit "sections") by (vm_compute; discriminate).
    pose proof (keeps_new_object (lit "cv")
                  (TList (map publication_dict (sort_by_date_reverse collected))) h1) as Hk1.
    pose proof (keeps_new_object (lit "sections")
                  (TList (map publication_dict (sort_by_date_reverse collected))) h1) as Hk2.
    rewrite Hnew in Hk1, Hk2. cbn [snd] in Hk1, Hk2.
    repeat split; try assumption.
    + apply sort_by_date_reverse_perm.
    + apply sort_by_date_reverse_sorted.
    + eapply yaml_getitem_keeps; [|exact Hgetcv].
      eapply keeps_trans; [eapply keeps_setdefault; [exact Hne1 | exact Hdefault]|].
      eapply keeps_trans; [exact Hk1|]. eapply keeps_setitem; [exact Hne2 | exact Hset].
    + eapply yaml_getitem_keeps; [|eapply yaml_setdefault_getitem, Hdefault].
      eapply keeps_trans; [exact Hk2|]. eapply keeps_setitem; [exact Hne3 | exact Hset].
    + eapply yaml_setitem_getitem, Hset.
    + pose proof (yaml_setdefault_in_store _ _ _ _ _ _ (Hclosed _ _ _ Hload) Hdefault)
        as Hin.
      destruct (new_object_read
                  (TList (map publication_dict (sort_by_date_reverse collected))) h1)
        as (ext & Hext & Hread).
      rewrite Hnew in Hext, Hread. cbn [fst snd] in Hext, Hread. subst h2.
      unfold yaml_setitem in Hset. destruct sections as [| | | |s]; try discriminate Hset.
      cbn [in_store] in Hin. apply bool_decide_eq_true in Hin.
      destruct ((h1 ++ ext) !! s) as [[sd|l]|]; try discriminate Hset.
      injection Hset as <-. rewrite insert_app_l by exact Hin.
      eapply read_fuel; [|apply depth_publications].
      rewrite <- (app_nil_r ext). apply Hread. apply length_insert.
  - intros a b c Ha Hb Hc. unfold sort_by_date_reverse. cbn [foldr insert_by_date].
    rewrite Hb, Hc.
    change (str_ltb (lit "2020-06") (lit "2022-01")) with true.
    cbn [insert_by_date]. rewrite Ha, Hb, Hc.
    change (str_ltb (lit "2021") (lit "2022-01")) with true.
    change (str_ltb (lit "2021") (lit "2020-06")) with false. reflexivity.
Qed.

End MainFacts.

(** ** The theorems at concrete inputs *)

(** C3 on [  {An {Nested {B}} title}, year]. *)
Lemma extract_braced_value_witness :
  all_in WHITESPACE (lit "  ") = true
  /\ balanced (lit "An {Nested {B}} title") = true
  /\ _extract_value
       (lit "title =" ++ lit "  " ++ [chr "{"] ++ lit "An {Nested {B}} title"
        ++ [chr "}"] ++ lit ", year")
       (len (lit "title ="))
     = Ret (lit "An {Nested {B}} title", 34).
Proof.
  split; [reflexivity|]. split; [reflexivity|].
  apply (extract_braced_value (lit "title =") (lit "  ") (lit "An {Nested {B}} title")
           (lit ", year")); reflexivity.
Defined.

(** C4 on a quoted value with an escaped quote and an escaped
    backslash inside. *)
Lemma extract_quoted_value_witness :
  all_in WHITESPACE (lit " ") = true
  /\ escaped (lit "say \" ++ [DQUOTE] ++ lit "hi\" ++ [DQUOTE] ++ lit " \\ ok") = true
  /\ _extract_value
       (lit "note =" ++ lit " " ++ [DQUOTE]
        ++ (lit "say \" ++ [DQUOTE] ++ lit "hi\" ++ [DQUOTE] ++ lit " \\ ok")
        ++ [DQUOTE] ++ lit ",")
       (len (lit "note ="))
     = Ret (lit "say \" ++ [DQUOTE] ++ lit "hi\" ++ [DQUOTE] ++ lit " \\ ok", 26).
Proof.
  split; [reflexivity|]. split; [reflexivity|].
  apply (extract_quoted_value (lit "note =") (lit " ")
           (lit "say \" ++ [DQUOTE] ++ lit "hi\" ++ [DQUOTE] ++ lit " \\ ok")
           (lit ",")); reflexivity.
Defined.


(** C6 on an address and on a name. *)
Lemma author_pieces_witness :
  part_names (lit "Some University, City, Country") = []
  /\ exists last first,
       strip (lit " Smith, Jane ") = last ++ lit "," ++ first
       /\ count last (lit ",") = 0 /\ count first (lit ",") = 0
       /\ part_names (lit " Smith, Jane ")
          = let name := _clean_latex (strip first ++ lit " " ++ strip last) in
            if truthy name then [name] else [].
Proof.
  destruct author_pieces as (_ & Hmany & Hone).
  split; [apply (Hmany (lit "Some University, City, Country")); vm_compute; discriminate|].
  apply (Hone (lit " Smith, Jane ")). vm_compute. reflexivity.
Defined.

(** C9 on a value whose brace never closes. *)
Lemma _parse_bib_returns_witness :
  0 <= 7
  /\ exists value vend,
       _extract_value (lit "title ={Foo, year = 2020") 7 = Ret (value, vend) /\ 7 <= vend.
Proof.
  destruct _parse_bib_returns as (_ & Hvalue).
  split; [lia|]. apply (Hvalue (lit "title ={Foo, year = 2020") 7). lia.
Defined.

(** C10 on [MaR] between a space and a tab and a line feed. *)
Lemma month_ignores_case_and_space_witness :
  MONTH_MAP !! lit "mar" = Some (lit "03")
  /\ same_letters (lit "MaR") (lit "mar") = true
  /\ _resolve_month (Some ([chr " "; TAB] ++ lit "MaR" ++ [LF])) = Ret (Some (lit "03")).
Proof.
  split; [vm_compute; reflexivity|]. split; [reflexivity|].
  apply (month_ignores_case_and_space (lit "mar") (lit "03") (lit "MaR") [chr " "; TAB] [LF]);
    vm_compute; reflexivity.
Defined.


(** C7 in a world where the bibliography has entries dated 2021, June
    2020 and January 2022, the CV file loads as [{cv: {name: x}}], and the
    dumper writes the dates of the publications it finds in the document:
    they are written newest first. *)
Lemma publications_sorted_by_date_witness :
  let decode := fun content : str => Some content in
  let encode := fun text : str => text in
  let safe_load :=
    fun _ : str =>
      Some ([ODict [(YStr (lit "cv"), YRef 1%nat)];
             ODict [(YStr (lit "name"), YStr (lit "x"))]], YRef 0%nat) in
  let date_of := fun (h : heap) (v : yaml) =>
                   match yaml_getitem h v (lit "date") with
                   | Ret (YStr d) => d ++ lit " "
                   | _ => []
                   end in
  let dump :=
    fun (h : heap) (v : yaml) =>
      let found :=
        let* cv := yaml_getitem h v (lit "cv") in
        let* sections := yaml_getitem h cv (lit "sections") in
        yaml_getitem h sections (lit "Publications") in
      match found with
      | Ret (YRef a) =>
          match h !! a with
          | Some (OList l) => Some (concat (map (date_of h) l))
          | _ => None
          end
      | _ => None
      end in
  let path_str := fun p : path =>
                    match p with
                    | BIB_PATH => lit "_bibliography/papers.bib"
                    | CV_PATH => lit "_data/cv.yml"
                    end in
  let w := World (Some three_dates_bib) (Some (lit "cv: {name: x}")) [] [] in
  let w' := World (Some three_dates_bib) (Some (lit "2022-01 2021 2020-06 "))
              [lit "Injected 3 publications into _data/cv.yml"] [] in
  main decode encode safe_load dump path_str w = (Ret tt, w')
  /\ (exists (publications : list Publication) (h' : heap) (cv sections value : yaml),
        StronglySorted not_older publications
        /\ dump h' (YRef 0%nat) = Some (lit "2022-01 2021 2020-06 ")
        /\ yaml_getitem h' (YRef 0%nat) (lit "cv") = Ret cv
        /\ yaml_getitem h' cv (lit "sections") = Ret sections
        /\ yaml_getitem h' sections (lit "Publications") = Ret value
        /\ read 3 h' value = Some (TList (map publication_dict publications)))
  /\ sort_by_date_reverse
       [Build_Publication (lit "A") [] None (lit "2021") None;
        Build_Publication (lit "B") [] None (lit "2020-06") None;
        Build_Publication (lit "C") [] None (lit "2022-01") None]
     = [Build_Publication (lit "C") [] None (lit "2022-01") None;
        Build_Publication (lit "A") [] None (lit "2021") None;
        Build_Publication (lit "B") [] None (lit "2020-06") None].
Proof.
  intros decode encode safe_load date_of dump path_str w w'.
  destruct (publications_sorted_by_date decode encode safe_load dump path_str)
    as (_ & Hmain & Hthree).
  assert (Hrun : main decode encode safe_load dump path_str w = (Ret tt, w'))
    by (vm_compute; reflexivity).
  split; [exact Hrun|]. split.
  - destruct (Hmain w w') as (bib_bytes & bib_text & entries & collected & publications
                              & cv_bytes & cv_text & h & cv_data & h' & cv & sections
                              & value & dumped & _ & _ & _ & _ & _ & Hsorted & _ & _
                              & Hload & Hdump & Hfile & Hcv & Hsections & Hvalue & Hread).
    + intros text h v [= <- <-]. reflexivity.
    + exact Hrun.
    + injection Hload as <- <-. injection Hfile as Hfile.
      unfold encode in Hfile. cbv beta in Hfile. subst dumped.
      exists publications, h', cv, sections, value. repeat split; assumption.
  - apply Hthree; reflexivity.
Defined.


(** * Further properties *)

(** ** Loops without [break] *)

(** A loop without [break] ends in a state where its condition is
    false. *)
Lemma while_total_exit {S : Type} (cond : S -> res bool) (body : S -> res (ctl S))
    (I : S -> Prop) (m : S -> nat) :
  (forall s, I s ->
     cond s = Ret false \/
     (cond s = Ret true /\
      exists s', body s = Ret (Next s') /\ I s' /\ (m s' < m s)%nat)) ->
  forall fuel s, I s -> (m s < fuel)%nat ->
  exists s', while fuel cond body s = Ret s' /\ I s' /\ cond s' = Ret false.
Proof.
  intros Hstep fuel. induction fuel as [|fuel IH]; intros s Hs Hm; [lia|].
  destruct (Hstep s Hs) as [Hc | [Hc [s' [Hb [Hs' Hlt]]]]].
  - exists s. repeat split; [apply while_exit, Hc | exact Hs | exact Hc].
  - destruct (IH s' Hs') as [s'' [Hw Hs'']]; [lia|].
    exists s''. split; [|exact Hs'']. erewrite while_next; eauto.
Qed.

(** ** [_strip_braces] *)

Lemma startswith_single (s : str) (c : char) :
  startswith s [c] = true -> exists t, s = c :: t.
Proof.
  destruct s as [|x s]; [discriminate|]. cbn [startswith].
  intros H. apply andb_prop in H as [H _]. apply N.eqb_eq in H. subst. eauto.
Qed.

Lemma endswith_single (s : str) (c : char) :
  endswith s [c] = true -> exists t, s = t ++ [c].
Proof.
  unfold endswith. cbn [rev app]. intros H.
  apply startswith_single in H as [t Ht].
  exists (rev t). rewrite <- (rev_involutive s), Ht. reflexivity.
Qed.

Lemma slice_inner (c d : char) (mid : str) : slice (c :: mid ++ [d]) 1 (-1) = mid.
Proof.
  unfold slice, adjust_index. rewrite len_cons, len_app.
  change (len [d]) with 1. pose proof (len_nonneg mid).
  zcases; try lia.
  replace (Z.to_nat (-1 + (1 + (len mid + 1)) - 1)) with (length mid) by (unfold len; lia).
  change (Z.to_nat 1) with 1%nat. cbn [drop]. apply take_app_length.
Qed.

(** The loop of [_strip_braces] removes the same number of braces at
    both ends, and stops at a value that does not have both. *)
Lemma _strip_braces_spec (value : str) :
  exists (n : nat) (stripped : str),
    _strip_braces value = Ret stripped
    /\ value = repeat (chr "{") n ++ stripped ++ repeat (chr "}") n
    /\ startswith stripped (lit "{") && endswith stripped (lit "}") = false.
Proof.
  unfold _strip_braces.
  destruct (while_total_exit
              (fun value => Ret (startswith value (lit "{") && endswith value (lit "}")))
              (fun value => Ret (Next (slice value 1 (-1))))
              (fun v : str => exists n, value = repeat (chr "{") n ++ v ++ repeat (chr "}") n)
              (fun v : str => length v))
    with (fuel := S (length value)) (s := value) as [v' [Hw [[n Hn] Hc]]].
  - intros s [n Hn].
    destruct (startswith s (lit "{") && endswith s (lit "}")) eqn:Hc;
      [right | left; reflexivity].
    split; [reflexivity|]. eexists. split; [reflexivity|].
    apply andb_prop in Hc as [Hs He].
    apply startswith_single in Hs as [t ->].
    apply endswith_single in He as [t' He].
    destruct t' as [|x t']; [discriminate He|].
    injection He as <- ->. rewrite slice_inner. split.
    + exists (S n). rewrite Hn. cbn [repeat].
      rewrite (repeat_cons n (chr "{")).
      rewrite <- !app_assoc. cbn [app]. rewrite <- !app_assoc. reflexivity.
    + rewrite length_cons, length_app. simpl. lia.
  - exists O. simpl. rewrite app_nil_r. reflexivity.
  - lia.
  - exists n, v'. repeat split; [exact Hw | exact Hn | congruence].
Qed.

(** X1.  [_strip_braces] never raises.  What it returns is the value
    without a number of opening braces at its start and as many closing
    braces at its end, and it does not both start with an opening and end
    with a closing brace any more.  The braces it removes are counted, not
    matched. *)
Theorem _strip_braces_layers (value : str) :
  exists (n : nat) (stripped : str),
    _strip_braces value = Ret stripped
    /\ value = repeat (chr "{") n ++ stripped ++ repeat (chr "}") n
    /\ startswith stripped (lit "{") && endswith stripped (lit "}") = false.
Proof. exact (_strip_braces_spec value). Qed.

(** ** [_clean_latex] *)

Lemma replace_from_chars (old new : str) (skip : nat) (s : str) (x : char) :
  In x (replace_from old new skip s) -> In x s \/ In x new.
Proof.
  revert skip. induction s as [|c s IH]; intros skip H; [contradiction|].
  cbn [replace_from] in H. destruct skip as [|k].
  - destruct (startswith (c :: s) old).
    + apply in_app_or in H as [H|H]; [auto|].
      destruct (IH _ H); [left; right; assumption | auto].
    + destruct H as [->|H]; [left; left; reflexivity|].
      destruct (IH _ H); [left; right; assumption | auto].
  - destruct (IH _ H); [left; right; assumption | auto].
Qed.

Lemma replace_chars (s old new : str) (x : char) :
  In x (replace s old new) -> In x s \/ In x new.
Proof. apply replace_from_chars. Qed.

(** Replacing a character by a string that has not got it removes it. *)
Lemma replace_single_gone (s : str) (c : char) (new : str) :
  ~ In c new -> ~ In c (replace s [c] new).
Proof.
  intros Hnew. unfold replace. induction s as [|x s IH]; [auto|].
  cbn [replace_from startswith length Nat.sub]. rewrite startswith_nil.
  destruct (N.eqb_spec c x) as [<-|Hne]; cbn [andb].
  - intros H. apply in_app_or in H as [H|H]; auto.
  - intros [H|H]; [congruence | auto].
Qed.

Lemma slice_chars (s : str) (lo hi : Z) (x : char) : In x (slice s lo hi) -> In x s.
Proof.
  unfold slice. intros H. apply list_elem_of_In in H. apply list_elem_of_In.
  eapply elem_of_sublist; [exact H|].
  etransitivity; [apply sublist_take | apply sublist_drop].
Qed.

Lemma pieces_chars (text : str) (last : Z) (ms : list (Z * Z)) (p : str) (x : char) :
  In p (Re.pieces text last ms) -> In x p -> In x text.
Proof.
  revert last. induction ms as [|[a b] ms IH]; intros last Hp Hx; cbn [Re.pieces] in Hp.
  - destruct Hp as [<-|[]]. eapply slice_chars, Hx.
  - destruct Hp as [<-|Hp]; [eapply slice_chars, Hx | eapply IH; eauto].
Qed.

Lemma join_chars (sep : str) (l : list str) (x : char) :
  In x (Re.join sep l) -> In x sep \/ exists p, In p l /\ In x p.
Proof.
  induction l as [|p l IH]; [contradiction|]. cbn [Re.join].
  destruct l as [|q l].
  - intros H. right. exists p. split; [left; reflexivity | exact H].
  - intros H. apply in_app_or in H as [H|H]; [right; exists p; split; [left; reflexivity|exact H]|].
    apply in_app_or in H as [H|H]; [auto|].
    destruct (IH H) as [Hs | [r [Hr Hx]]]; [auto|].
    right. exists r. split; [right; exact Hr | exact Hx].
Qed.

(** A substitution by the empty string brings no new character. *)
Lemma sub_chars (re : Re.regex) (text : str) (x : char) :
  In x (Re.sub re [] text) -> In x text.
Proof.
  unfold Re.sub, Re.split. intros H.
  apply join_chars in H as [[] | [p [Hp Hx]]]. eapply pieces_chars; eauto.
Qed.

Lemma strip_chars (s : str) (x : char) : In x (strip s) -> In x s.
Proof.
  destruct (strip_split s) as (a & b & Hs & _ & _). intros H.
  rewrite Hs. apply in_or_app. right. apply in_or_app. left. exact H.
Qed.

Lemma lstrip_by_head (p : char -> bool) (s : str) (c : char) (t : str) :
  lstrip_by p s = c :: t -> p c = false.
Proof.
  induction s as [|x s IH]; [discriminate|]. cbn [lstrip_by].
  destruct (p x) eqn:Hx; [exact IH|]. intros [= <- _]. exact Hx.
Qed.

(** What [strip] returns has no white space at either end. *)
Lemma strip_trimmed (s : str) : trimmed (strip s) = true.
Proof.
  unfold trimmed. apply andb_true_intro. split.
  - destruct (strip s) as [|c t] eqn:Hst; [reflexivity|].
    destruct (lstrip_by_split Unicode.isspace (rev (lstrip_by Unicode.isspace s)))
      as [a [Ha _]].
    apply (f_equal (@rev N)) in Ha. rewrite rev_involutive, rev_app_distr in Ha.
    fold (strip s) in Ha. rewrite Hst in Ha. cbn [app] in Ha.
    apply lstrip_by_head in Ha. rewrite Ha. reflexivity.
  - unfold strip. rewrite rev_involutive.
    destruct (lstrip_by Unicode.isspace (rev (lstrip_by Unicode.isspace s))) as [|c t] eqn:Hl;
      [reflexivity|].
    apply lstrip_by_head in Hl. rewrite Hl. reflexivity.
Qed.

Lemma _clean_latex_chars (value : str) :
  ~ In (chr "{") (_clean_latex value)
  /\ ~ In (chr "}") (_clean_latex value)
  /\ ~ In (chr "~") (_clean_latex value)
  /\ trimmed (_clean_latex value) = true.
Proof.
  unfold _clean_latex. repeat split.
  - intros H. apply strip_chars, replace_chars in H as [H|[]].
    revert H. apply (replace_single_gone _ (chr "{") []). auto.
  - intros H. apply strip_chars in H.
    revert H. apply (replace_single_gone _ (chr "}") []). auto.
  - intros H. apply strip_chars, replace_chars in H as [H|[]].
    apply replace_chars in H as [H|[]].
    apply sub_chars, replace_chars in H as [H|H].
    + revert H. apply (replace_single_gone _ (chr "~") (lit " ")).
      intros [H|[]]. discriminate H.
    + destruct H as [H|[]]. discriminate H.
  - apply strip_trimmed.
Qed.

(** X2.  What [_clean_latex] returns has no brace and no tilde left, and
    no white space at either end. *)
Theorem _clean_latex_clean (value : str) :
  ~ In (chr "{") (_clean_latex value)
  /\ ~ In (chr "}") (_clean_latex value)
  /\ ~ In (chr "~") (_clean_latex value)
  /\ trimmed (_clean_latex value) = true.
Proof. exact (_clean_latex_chars value). Qed.

(** ** Names of authors *)

Lemma part_names_shape (part : str) :
  part_names part = []
  \/ exists x, part_names part = [_clean_latex x] /\ truthy (_clean_latex x) = true.
Proof.
  unfold part_names, author_part.
  destruct (truthy (strip part)); cbn [negb]; [|auto].
  change (lit ",") with [chr ","].
  destruct (Z.leb_spec 2 (count (strip part) [chr ","])); [auto|].
  rewrite contains_single.
  destruct (Z.eqb_spec (count (strip part) [chr ","]) 0) as [H0|H0]; cbn [negb bind].
  - destruct (truthy (_clean_latex (strip part))) eqn:Ht; [right; eauto | auto].
  - pose proof (count_nonneg (strip part) (chr ",")).
    destruct (split_once_single (strip part) (chr ",")) as (a & b & Hs & Ha & Hsp); [lia|].
    rewrite Hsp. cbn [bind].
    destruct (truthy (_clean_latex _)) eqn:Ht; [right; eauto | auto].
Qed.

Lemma part_names_clean (parts : list str) :
  Forall (fun name => name <> [] /\ ~ In (chr "{") name /\ ~ In (chr "}") name
                      /\ trimmed name = true)
    (concat (map part_names parts)).
Proof.
  apply Forall_forall. intros name Hin. apply list_elem_of_In in Hin.
  apply in_concat in Hin as (l & Hl & Hname). apply in_map_iff in Hl as (part & <- & _).
  destruct (part_names_shape part) as [Hp | (x & Hp & Ht)]; rewrite Hp in Hname;
    [contradiction|].
  destruct Hname as [<-|[]].
  destruct (_clean_latex_chars x) as (H1 & H2 & _ & H4).
  repeat split; try assumption. intros Heq. rewrite Heq in Ht. discriminate.
Qed.

(** X3.  [_parse_author_list] never raises, and every name it returns
    is not empty, has no brace, and has no white space at either end. *)
Theorem author_names_clean (raw : str) :
  exists names,
    _parse_author_list raw = Ret names
    /\ Forall (fun name => name <> [] /\ ~ In (chr "{") name /\ ~ In (chr "}") name
                           /\ trimmed name = true) names.
Proof.
  eexists. split; [apply _parse_author_list_names | apply part_names_clean].
Qed.

(** X4.  A piece of the author field without a comma is taken as it is:
    trimmed and cleaned, and dropped if nothing is left. *)
Theorem author_piece_without_comma (part : str) :
  count part (lit ",") = 0 ->
  part_names part
  = let name := _clean_latex (strip part) in if truthy name then [name] else [].
Proof.
  change (lit ",") with [chr ","]. intros H. rewrite <- count_strip in H.
  unfold part_names, author_part. change (lit ",") with [chr ","].
  destruct (strip part) as [|c t] eqn:Hs; [reflexivity|]. cbn [truthy negb].
  destruct (Z.leb_spec 2 (count (c :: t) [chr ","])); [lia|].
  rewrite contains_single, H. cbn [negb Z.eqb bind]. cbv zeta.
  destruct (truthy (_clean_latex (c :: t))); reflexivity.
Qed.

Lemma author_piece_without_comma_witness :
  count (lit " {J}ane~Doe ") (lit ",") = 0
  /\ part_names (lit " {J}ane~Doe ") = [lit "Jane Doe"].
Proof.
  split; [reflexivity|].
  rewrite (author_piece_without_comma (lit " {J}ane~Doe ")); reflexivity.
Defined.

(** ** [_emphasise_owner] *)

Lemma lower_from_skip (ctx a rest : str) :
  exists A, lower_from ctx (a ++ rest) = A ++ lower_from (rev a ++ ctx) rest.
Proof.
  revert ctx. induction a as [|c a IH]; intros ctx; [exists []; reflexivity|].
  cbn [app lower_from rev]. destruct (IH (c :: ctx)) as [A HA]. rewrite HA.
  rewrite <- (app_assoc (rev a) [c] ctx). cbn [app]. rewrite app_assoc.
  eexists. reflexivity.
Qed.

Lemma lower_from_spelling (ctx v key rest : str) :
  spelling_of v key = true ->
  lower_from ctx (v ++ rest) = key ++ lower_from (rev v ++ ctx) rest.
Proof.
  revert ctx key. induction v as [|c v IH]; intros ctx [|k key] H; try discriminate H;
    [reflexivity|].
  cbn [spelling_of] in H.
  apply andb_prop in H as [H Hv]. apply andb_prop in H as [H Hk].
  apply andb_prop in H as [H1 H2].
  apply negb_true_iff in H1, H2. apply N.eqb_eq in Hk. subst k.
  cbn [app lower_from rev]. rewrite H1, H2, (IH _ _ Hv).
  rewrite <- (app_assoc (rev v) [c] ctx). reflexivity.
Qed.

Lemma startswith_app (k rest : str) : startswith (k ++ rest) k = true.
Proof.
  induction k as [|x k IH]; [apply startswith_nil|].
  cbn [app startswith]. rewrite N.eqb_refl. exact IH.
Qed.

Lemma contains_middle (a k b : str) : contains (a ++ k ++ b) k = true.
Proof.
  induction a as [|x a IH].
  - change ([] ++ k ++ b) with (k ++ b). pose proof (startswith_app k b) as Hs.
    destruct (k ++ b); cbn [contains]; rewrite Hs; reflexivity.
  - cbn [app contains]. rewrite IH. apply orb_true_r.
Qed.

Lemma lookup_map {A B : Type} (f : A -> B) (l : list A) (i : nat) :
  map f l !! i = option_map f (l !! i).
Proof.
  revert i. induction l as [|x l IH]; intros [|i]; try reflexivity. apply IH.
Qed.

(** X5.  [_emphasise_owner] keeps the number and the order of the names.
    A name that holds one of the owner's last names, in any letter case and
    anywhere in it, comes out between [***]; a name that holds none of them,
    compared in lower case, comes out as it is. *)
Theorem owner_is_emphasised (authors : list str) :
  length (_emphasise_owner authors) = length authors
  /\ (forall (i : nat) (a v b owner : str),
        In owner OWNER_LAST_NAMES -> spelling_of v (lower owner) = true ->
        authors !! i = Some (a ++ v ++ b) ->
        _emphasise_owner authors !! i = Some (lit "***" ++ (a ++ v ++ b) ++ lit "***"))
  /\ (forall (i : nat) (name : str),
        (forall owner, In owner OWNER_LAST_NAMES ->
                       contains (lower name) (lower owner) = false) ->
        authors !! i = Some name ->
        _emphasise_owner authors !! i = Some name).
Proof.
  unfold _emphasise_owner. split; [apply length_map|]. split.
  - intros i a v b owner Hin Hv Hi. rewrite lookup_map, Hi. cbn [option_map].
    assert (Hex : existsb (fun ln => contains (lower (a ++ v ++ b)) (lower ln))
                    OWNER_LAST_NAMES = true).
    { apply existsb_exists. exists owner. split; [exact Hin|]. unfold lower at 1.
      destruct (lower_from_skip [] a (v ++ b)) as [A ->].
      rewrite (lower_from_spelling _ _ _ _ Hv). apply contains_middle. }
    rewrite Hex. reflexivity.
  - intros i name Hnone Hi. rewrite lookup_map, Hi. cbn [option_map].
    assert (Hex : existsb (fun ln => contains (lower name) (lower ln)) OWNER_LAST_NAMES = false).
    { apply not_true_is_false. intros H. apply existsb_exists in H as (owner & Hin & Hc).
      rewrite (Hnone owner Hin) in Hc. discriminate. }
    rewrite Hex. reflexivity.
Qed.

Lemma owner_is_emphasised_witness :
  _emphasise_owner [lit "Jane Smith"; lit "Ivan ROZHKOV Jr."; [1048; 46; 32; 1056; 1054; 1046; 1050; 1054; 1042]%N]
  !! 1%nat = Some (lit "***Ivan ROZHKOV Jr.***")
  /\ _emphasise_owner [lit "Jane Smith"; lit "Ivan ROZHKOV Jr."; [1048; 46; 32; 1056; 1054; 1046; 1050; 1054; 1042]%N]
     !! 2%nat = Some (lit "***" ++ [1048; 46; 32; 1056; 1054; 1046; 1050; 1054; 1042]%N ++ lit "***")
  /\ _emphasise_owner [lit "Jane Smith"; lit "Ivan ROZHKOV Jr."; [1048; 46; 32; 1056; 1054; 1046; 1050; 1054; 1042]%N]
     !! 0%nat = Some (lit "Jane Smith").
Proof.
  destruct (owner_is_emphasised
              [lit "Jane Smith"; lit "Ivan ROZHKOV Jr.";
               [1048; 46; 32; 1056; 1054; 1046; 1050; 1054; 1042]%N]) as (_ & Hyes & Hno).
  split; [|split].
  - apply (Hyes 1%nat (lit "Ivan ") (lit "ROZHKOV") (lit " Jr.") (lit "Rozhkov"));
      [left; reflexivity | vm_compute; reflexivity | reflexivity].
  - apply (Hyes 2%nat [1048; 46; 32]%N [1056; 1054; 1046; 1050; 1054; 1042]%N []
             [1056; 1086; 1078; 1082; 1086; 1074]%N);
      [right; left; reflexivity | vm_compute; reflexivity | reflexivity].
  - apply (Hno 0%nat (lit "Jane Smith")); [|reflexivity].
    intros owner [<-|[<-|[]]]; vm_compute; reflexivity.
Defined.

(** ** The value extractor: bare values and values cut short *)

Lemma run_stop (p : char -> bool) (s : str) :
  match s with [] => true | c :: _ => negb (p c) end = true -> Re.run p s = O.
Proof.
  destruct s as [|c s]; [reflexivity|]. cbn [Re.run]. intros H.
  apply negb_true_iff in H. rewrite H. reflexivity.
Qed.

Lemma run_all (p : char -> bool) (s : str) :
  forallb p s = true -> Re.run p s = length s.
Proof.
  intros H. rewrite <- (app_nil_r s) at 1. rewrite run_app_all by exact H.
  simpl. lia.
Qed.

(** X6.  A bare value: a token that does not open with a brace or a
    quote, has no white space, comma or closing brace inside, and is
    followed by one of these or by the end of the text, is extracted as it
    is. *)
Theorem extract_bare_value (pre ws token rest : str) :
  all_in WHITESPACE ws = true ->
  forallb (fun c => negb (char_in c BARE_END)) token = true ->
  match token with
  | [] => false
  | c :: _ => negb (c =? chr "{")%N && negb (c =? DQUOTE)%N
  end = true ->
  match rest with
  | [] => true
  | c :: _ => char_in c BARE_END
  end = true ->
  _extract_value (pre ++ ws ++ token ++ rest) (len pre)
  = Ret (token,
         len pre + len ws + len token
         + Z.of_nat (Re.run (fun c => char_in c WHITESPACE_COMMA) rest)).
Proof.
  intros Hws Htok Hhead Hrest. unfold _extract_value.
  destruct token as [|c token]; [discriminate|].
  apply andb_prop in Hhead as [Hb Hq]. apply negb_true_iff in Hb, Hq.
  assert (Hc : char_in c BARE_END = false).
  { cbn [forallb] in Htok. apply andb_prop in Htok as [H _]. apply negb_true_iff, H. }
  assert (Hcw : char_in c WHITESPACE = false).
  { unfold char_in, BARE_END, WHITESPACE in *. cbn [existsb] in *.
    repeat (apply orb_false_elim in Hc as [? Hc]).
    repeat (apply orb_false_intro; [assumption|]). reflexivity. }
  pose proof (len_nonneg pre) as Hpre.
  rewrite skip_chars_spec by exact Hpre. rewrite drop_len_app.
  cbn [app]. rewrite all_in_not_run; [|exact Hws|exact Hcw]. cbn [bind].
  set (body := pre ++ ws ++ c :: token ++ rest).
  set (i := len pre + Z.of_nat (length ws)).
  assert (Hi : i = len (pre ++ ws)) by (unfold i; rewrite len_app; reflexivity).
  assert (Hdrop : drop (Z.to_nat i) body = (c :: token) ++ rest).
  { unfold body. rewrite Hi, app_assoc. apply drop_len_app. }
  assert (H0i : 0 <= i) by (unfold i; lia).
  destruct (getitem_drop _ _ _ _ H0i Hdrop) as [Hg [_ Hlt]].
  destruct (Z.leb_spec (len body) i); [lia|].
  rewrite Hg. cbn [bind]. rewrite Hb, Hq.
  rewrite advance_while_spec by exact H0i. rewrite Hdrop.
  rewrite run_app_all by exact Htok.
  rewrite (run_stop _ rest)
    by (destruct rest; [reflexivity | rewrite negb_involutive; exact Hrest]).
  cbn [bind]. rewrite Nat.add_0_r.
  set (j := i + Z.of_nat (length (c :: token))).
  assert (Hv : slice body i j = c :: token).
  { replace body with ((pre ++ ws) ++ (c :: token) ++ rest)
      by (unfold body; rewrite <- !app_assoc; reflexivity).
    rewrite Hi. unfold j. rewrite Hi. apply slice_middle. }
  rewrite Hv. rewrite skip_chars_spec by (unfold j; lia). cbn [bind].
  assert (Hdj : drop (Z.to_nat j) body = rest).
  { replace j with (len ((pre ++ ws) ++ c :: token))
      by (unfold j; rewrite Hi, !len_app; reflexivity).
    unfold body. replace (pre ++ ws ++ c :: token ++ rest)
      with (((pre ++ ws) ++ c :: token) ++ rest) by (rewrite <- !app_assoc; reflexivity).
    apply drop_len_app. }
  rewrite Hdj. reflexivity.
Qed.

Lemma extract_bare_value_witness :
  _extract_value
    (lit "year =" ++ lit " " ++ lit "2020" ++ lit "," ++ [LF] ++ lit "  month = mar")
    (len (lit "year ="))
  = Ret (lit "2020", 15).
Proof.
  apply (extract_bare_value (lit "year =") (lit " ") (lit "2020")
           (lit "," ++ [LF] ++ lit "  month = mar")); reflexivity.
Defined.

(** X7.  Where nothing but white space is left, and from any index at or
    after the end of the text, the extractor returns the empty string, and
    the index of the end of the text or the index it got. *)
Theorem extract_nothing :
  (forall pre ws : str,
      all_in WHITESPACE ws = true ->
      _extract_value (pre ++ ws) (len pre) = Ret ([], len (pre ++ ws)))
  /\ (forall (body : str) (start : Z),
        len body <= start -> _extract_value body start = Ret ([], start)).
Proof.
  split.
  - intros pre ws Hws. unfold _extract_value.
    rewrite skip_chars_spec by apply len_nonneg. rewrite drop_len_app.
    rewrite run_all by exact Hws. cbn [bind].
    replace (len pre + Z.of_nat (length ws)) with (len (pre ++ ws))
      by (rewrite len_app; reflexivity).
    rewrite Z.leb_refl. reflexivity.
  - intros body start Hs. unfold _extract_value. pose proof (len_nonneg body).
    rewrite skip_chars_spec by lia.
    rewrite drop_ge by (unfold len in *; lia). cbn [Re.run bind].
    rewrite Z.add_0_r. destruct (Z.leb_spec (len body) start); [reflexivity | lia].
Qed.

Lemma extract_nothing_witness :
  _extract_value (lit "note =" ++ lit "  " ++ [LF]) (len (lit "note =")) = Ret ([], 9)
  /\ _extract_value (lit "note =") 8 = Ret ([], 8).
Proof.
  destruct extract_nothing as (Hws & Hend). split.
  - apply (Hws (lit "note =") (lit "  " ++ [LF])). reflexivity.
  - apply (Hend (lit "note =") 8). vm_compute. discriminate.
Defined.

Lemma braces_end_open (inner : str) (d : nat) :
  depth_after 0 inner = Some d -> braces_end 1 inner = (length inner, 1 + Z.of_nat d).
Proof.
  intros H. change 1 with (1 + Z.of_nat 0) at 1.
  rewrite <- (app_nil_r inner) at 1.
  rewrite (braces_end_depth_after _ _ _ _ _ H) by lia.
  cbn [braces_end fst snd]. rewrite Nat.add_0_r. reflexivity.
Qed.

(** [s[lo:hi]] when [hi] is at or after the end. *)
Lemma slice_to_end (s : str) (lo hi : Z) :
  0 <= lo <= len s -> len s <= hi -> slice s lo hi = drop (Z.to_nat lo) s.
Proof.
  intros Hlo Hhi. unfold slice. rewrite (adjust_index_inside s lo) by lia.
  assert (Hh : adjust_index s hi = len s) by (unfold adjust_index; zcases; lia).
  rewrite Hh. apply take_ge. rewrite length_drop. unfold len. lia.
Qed.

(** X8.  A braced value whose opening brace is never closed runs to the
    end of the text, and loses its last character: the extractor cuts one
    character for the closing brace that is not there. *)
Theorem extract_unclosed_brace (pre ws inner : str) (d : nat) :
  all_in WHITESPACE ws = true ->
  depth_after 0 inner = Some d ->
  _extract_value (pre ++ ws ++ [chr "{"] ++ inner) (len pre)
  = Ret (removelast inner, len (pre ++ ws ++ [chr "{"] ++ inner)).
Proof.
  intros Hws Hd. unfold _extract_value.
  change ([chr "{"] ++ inner) with (chr "{" :: inner).
  pose proof (len_nonneg pre) as Hpre.
  rewrite skip_chars_spec by exact Hpre. rewrite drop_len_app.
  rewrite all_in_not_run; [|exact Hws|reflexivity]. cbn [bind].
  set (body := pre ++ ws ++ chr "{" :: inner).
  set (i := len pre + Z.of_nat (length ws)).
  assert (Hi : i = len (pre ++ ws)) by (unfold i; rewrite len_app; reflexivity).
  assert (Hdrop : drop (Z.to_nat i) body = chr "{" :: inner).
  { unfold body. rewrite Hi, app_assoc. apply drop_len_app. }
  assert (H0i : 0 <= i) by (unfold i; lia).
  destruct (getitem_drop _ _ _ _ H0i Hdrop) as [Hg [Hd' Hlt]].
  destruct (Z.leb_spec (len body) i); [lia|].
  rewrite Hg. cbn [bind]. change (chr "{" =? chr "{")%N with true. cbv iota.
  rewrite match_braces_spec by lia. rewrite Hd', (braces_end_open _ _ Hd). cbn [bind fst snd].
  assert (Hlen : len body = i + 1 + Z.of_nat (length inner)).
  { unfold body. rewrite app_assoc, len_app, <- Hi, len_cons. unfold len. lia. }
  rewrite <- Hlen.
  rewrite skip_chars_spec by lia. rewrite drop_ge by (unfold len; lia).
  cbn [Re.run bind]. rewrite Z.add_0_r. do 2 f_equal.
  destruct inner as [|x inner _] using rev_ind.
  - cbn [removelast]. unfold slice. rewrite !adjust_index_inside by (cbn in Hlen; lia).
    replace (Z.to_nat (len body - 1 - (i + 1))) with O by (cbn in Hlen; lia).
    reflexivity.
  - rewrite removelast_last.
    replace body with ((pre ++ ws ++ [chr "{"]) ++ inner ++ [x])
      by (unfold body; rewrite <- !app_assoc; reflexivity).
    replace (i + 1) with (len (pre ++ ws ++ [chr "{"]))
      by (rewrite Hi, !len_app; unfold len; simpl; lia).
    replace (len ((pre ++ ws ++ [chr "{"]) ++ inner ++ [x]) - 1)
      with (len (pre ++ ws ++ [chr "{"]) + len inner)
      by (rewrite !len_app; unfold len; simpl; lia).
    apply slice_middle.
Qed.

Lemma extract_unclosed_brace_witness :
  _extract_value (lit "title =" ++ lit " " ++ [chr "{"] ++ lit "An {Open} title")
    (len (lit "title ="))
  = Ret (lit "An {Open} titl", 24).
Proof.
  apply (extract_unclosed_brace (lit "title =") (lit " ") (lit "An {Open} title") 0);
    reflexivity.
Defined.

Lemma quoted_run_app (inner tail : str) :
  escaped inner = true ->
  quoted_run (inner ++ tail) = (length inner + quoted_run tail)%nat.
Proof.
  remember (length inner) as n eqn:Hn. revert inner Hn.
  induction n as [n IH] using lt_wf_ind. intros inner Hn He.
  destruct inner as [|c inner]; [subst; reflexivity|].
  cbn [app quoted_run]. cbn [escaped] in He.
  destruct (c =? BACKSLASH)%N eqn:Hb.
  - assert (Hq : (c =? DQUOTE)%N = false).
    { apply N.eqb_eq in Hb. subst c. reflexivity. }
    rewrite Hq. destruct inner as [|c' inner]; [discriminate|].
    cbn [app]. rewrite (IH (length inner)); subst; simpl; auto; lia.
  - apply andb_prop in He as [Hq He]. apply negb_true_iff in Hq. rewrite Hq.
    rewrite (IH (length inner)); subst; simpl; auto.
Qed.

(** X9.  A quoted value whose quote is never closed runs to the end of
    the text, and the index returned is past the end: one past it, and two
    past it when the text ends in a backslash, which takes along a
    character that is not there. *)
Theorem extract_unclosed_quote (pre ws inner : str) :
  all_in WHITESPACE ws = true ->
  escaped inner = true ->
  _extract_value (pre ++ ws ++ [DQUOTE] ++ inner) (len pre)
  = Ret (inner, len (pre ++ ws ++ [DQUOTE] ++ inner) + 1)
  /\ _extract_value (pre ++ ws ++ [DQUOTE] ++ inner ++ [BACKSLASH]) (len pre)
     = Ret (inner ++ [BACKSLASH], len (pre ++ ws ++ [DQUOTE] ++ inner ++ [BACKSLASH]) + 2).
Proof.
  intros Hws Hesc.
  assert (Hgen : forall tail extra,
             quoted_run (inner ++ tail) = (length (inner ++ tail) + extra)%nat ->
             _extract_value (pre ++ ws ++ [DQUOTE] ++ inner ++ tail) (len pre)
             = Ret (inner ++ tail,
                    len (pre ++ ws ++ [DQUOTE] ++ inner ++ tail) + Z.of_nat extra + 1)).
  { intros tail extra Hrun. unfold _extract_value.
    set (v := inner ++ tail) in *.
    change ([DQUOTE] ++ v) with (DQUOTE :: v).
    pose proof (len_nonneg pre) as Hpre.
    rewrite skip_chars_spec by exact Hpre. rewrite drop_len_app.
    rewrite all_in_not_run; [|exact Hws|reflexivity]. cbn [bind].
    set (body := pre ++ ws ++ DQUOTE :: v).
    set (i := len pre + Z.of_nat (length ws)).
    assert (Hi : i = len (pre ++ ws)) by (unfold i; rewrite len_app; reflexivity).
    assert (Hdrop : drop (Z.to_nat i) body = DQUOTE :: v).
    { unfold body. rewrite Hi, app_assoc. apply drop_len_app. }
    assert (H0i : 0 <= i) by (unfold i; lia).
    destruct (getitem_drop _ _ _ _ H0i Hdrop) as [Hg [Hd' Hlt]].
    destruct (Z.leb_spec (len body) i); [lia|].
    rewrite Hg. cbn [bind]. change (DQUOTE =? chr "{")%N with false.
    change (DQUOTE =? DQUOTE)%N with true. cbv iota.
    rewrite quoted_end_spec by lia. rewrite Hd', Hrun. cbn [bind].
    assert (Hlen : len body = i + 1 + Z.of_nat (length v)).
    { unfold body. rewrite app_assoc, len_app, <- Hi, len_cons. unfold len. lia. }
    rewrite skip_chars_spec by lia. rewrite drop_ge by (unfold len in *; lia).
    cbn [Re.run bind]. f_equal. f_equal; [|lia].
    rewrite slice_to_end by lia. exact Hd'. }
  split.
  - rewrite <- (app_nil_r inner). rewrite (Hgen [] O).
    + rewrite Z.add_0_r. reflexivity.
    + rewrite quoted_run_app by exact Hesc. rewrite length_app. simpl. lia.
  - rewrite (Hgen [BACKSLASH] 1%nat).
    + do 2 f_equal. lia.
    + rewrite quoted_run_app by exact Hesc. rewrite length_app. simpl. lia.
Qed.

Lemma extract_unclosed_quote_witness :
  _extract_value (lit "note =" ++ lit " " ++ [DQUOTE] ++ lit "never closed") (len (lit "note ="))
  = Ret (lit "never closed", 21)
  /\ _extract_value (lit "note =" ++ lit " " ++ [DQUOTE] ++ lit "never closed" ++ [BACKSLASH])
       (len (lit "note ="))
     = Ret (lit "never closed\", 23).
Proof.
  apply (extract_unclosed_quote (lit "note =") (lit " ") (lit "never closed")); reflexivity.
Defined.

(** ** The entry scanner: what it finds *)

Lemma match_here_entry_head (s : str) :
  match s with [] => true | c :: _ => negb (c =? chr "@")%N end = true ->
  Re.match_here entry_pattern s = None.
Proof.
  destruct s as [|c s]; [reflexivity|]. intros H. apply negb_true_iff in H.
  unfold entry_pattern. cbn [Re.match_here Re.rep Re.cls]. unfold Re.only. rewrite H.
  reflexivity.
Qed.

Lemma search_from_no_entry (s : str) (p : Z) :
  ~ In (chr "@") s -> Re.search_from entry_pattern s p = None.
Proof.
  revert p. induction s as [|c s IH]; intros p H; cbn [Re.search_from].
  - rewrite match_here_entry_head; reflexivity.
  - rewrite match_here_entry_head.
    + apply IH. intros Hin. apply H. right. exact Hin.
    + apply negb_true_iff. apply N.eqb_neq. intros ->. apply H. left. reflexivity.
Qed.

Lemma not_in_drop (x : char) (s : str) (n : nat) : ~ In x s -> ~ In x (drop n s).
Proof.
  intros H Hin. apply H. apply list_elem_of_In. apply list_elem_of_In in Hin.
  eapply elem_of_sublist; [exact Hin | apply sublist_drop].
Qed.

(** X10.  A text without the character [@] has no entry: the scanner
    returns the empty list. *)
Theorem _parse_bib_without_at (text : str) :
  ~ In (chr "@") text -> _parse_bib text = Ret [].
Proof.
  intros H. unfold _parse_bib, loop_bound. cbn [while fst bind].
  destruct (Z.ltb_spec 0 (len text)); [|reflexivity].
  unfold entry_step, Re.search. rewrite search_from_no_entry by (apply not_in_drop, H).
  reflexivity.
Qed.

Lemma _parse_bib_without_at_witness :
  _parse_bib (lit "% no entries here" ++ [LF] ++ lit "title = {Foo}") = Ret [].
Proof.
  apply _parse_bib_without_at. vm_compute. intuition discriminate.
Defined.

Lemma parse_fields_keeps_keys (body : str) (fields : entry) :
  exists fields',
    parse_fields body fields = Ret fields'
    /\ forall k, is_Some (fields !! k) -> is_Some (fields' !! k).
Proof.
  unfold parse_fields.
  destruct (while_total
              (fun st : Z * entry => Ret (fst st <? len body))
              (field_step body)
              (fun st : Z * entry =>
                 0 <= fst st /\ forall k, is_Some (fields !! k) -> is_Some (snd st !! k))
              (fun st : Z * entry => Z.to_nat (len body - fst st)))
    with (fuel := loop_bound body 0) (s := (0, fields)) as [[fpos' fields'] [Hw [_ Hk]]].
  - intros [fpos fs] [Hinv Hkeys]. cbn [fst snd] in *.
    destruct (Z.ltb_spec fpos (len body)) as [Hlt|Hge]; [right | left; reflexivity].
    split; [reflexivity|]. unfold field_step.
    destruct (Re.search field_re body fpos) as [fm|] eqn:Hs.
    + right. apply search_field_re in Hs as (Hend & Hadv & name & Hname); [|lia].
      rewrite Hname. cbn [bind].
      destruct (_extract_value_total body (Re.m_end fm) Hend) as (value & vend & Hev & Hvend).
      rewrite Hev. cbn [bind].
      eexists. split; [reflexivity|]. cbn [fst snd]. split; [split|]; try lia.
      intros k Hk. destruct (decide (lower name = k)) as [->|Hne].
      * rewrite lookup_insert_eq. eauto.
      * rewrite lookup_insert_ne by exact Hne. auto.
    + left. eexists. split; [reflexivity|]. cbn [fst snd]. auto.
  - cbn [fst snd]. split; [lia | auto].
  - unfold loop_bound. cbn [fst]. lia.
  - rewrite Hw. cbn [bind]. eauto.
Qed.

(** X11.  Every dict the scanner returns has the key [_type]. *)
Theorem _parse_bib_entries_have_type (text : str) :
  exists entries,
    _parse_bib text = Ret entries
    /\ Forall (fun e : entry => is_Some (e !! lit "_type")) entries.
Proof.
  unfold _parse_bib.
  destruct (while_total
              (fun st : Z * list entry => Ret (fst st <? len text))
              (entry_step text)
              (fun st : Z * list entry =>
                 0 <= fst st /\ Forall (fun e : entry => is_Some (e !! lit "_type")) (snd st))
              (fun st : Z * list entry => Z.to_nat (len text - fst st)))
    with (fuel := loop_bound text 0) (s := (0, @nil entry)) as [[pos' entries] [Hw [_ Hall]]].
  - intros [pos es] [Hinv Hes]. cbn [fst snd] in *.
    destruct (Z.ltb_spec pos (len text)) as [Hlt|Hge]; [right | left; reflexivity].
    split; [reflexivity|]. unfold entry_step.
    destruct (Re.search entry_pattern text pos) as [m|] eqn:Hs.
    + right. apply search_entry_pattern in Hs as (Hend & Hadv & name & Hname); [|lia].
      rewrite Hname. cbn [bind].
      rewrite match_braces_spec by exact Hend. cbn [bind].
      destruct (parse_fields_keeps_keys
                  (slice text (Re.m_end m)
                     (Re.m_end m
                      + Z.of_nat (fst (braces_end 1 (drop (Z.to_nat (Re.m_end m)) text))) - 1))
                  {[ lit "_type" := lower name ]}) as [fields' [Hpf Hkeys]].
      rewrite Hpf. cbn [bind].
      eexists. split; [reflexivity|]. cbn [fst snd]. split; [split|]; try lia.
      apply Forall_app. split; [exact Hes|]. constructor; [|constructor].
      apply Hkeys. rewrite lookup_singleton_eq. eauto.
    + left. eexists. split; [reflexivity|]. cbn [fst snd]. auto.
  - cbn [fst snd]. split; [lia | constructor].
  - unfold loop_bound. cbn [fst]. lia.
  - rewrite Hw. cbn [bind]. eauto.
Qed.

(** ** Scanning a text after a prefix *)

Lemma while_mono {S : Type} (cond : S -> res bool) (body : S -> res (ctl S))
    (fuel fuel' : nat) (s r : S) :
  while fuel cond body s = Ret r -> (fuel <= fuel')%nat ->
  while fuel' cond body s = Ret r.
Proof.
  revert fuel' s. induction fuel as [|fuel IH]; intros fuel' s H Hle; [discriminate|].
  destruct fuel' as [|fuel']; [lia|]. cbn [while] in *.
  destruct (cond s) as [[|]| |]; cbn [bind] in *; try discriminate; [|exact H].
  destruct (body s) as [[s'|s']| |]; cbn [bind] in *; try discriminate; [|exact H].
  apply IH; [exact H | lia].
Qed.

Lemma drop_shift (E rest : str) (p : Z) :
  0 <= p -> drop (Z.to_nat (len E + p)) (E ++ rest) = drop (Z.to_nat p) rest.
Proof.
  intros Hp. unfold len. replace (Z.to_nat (Z.of_nat (length E) + p))
    with (length E + Z.to_nat p)%nat by lia.
  rewrite <- drop_drop, drop_app_length. reflexivity.
Qed.

Lemma adjust_index_shift (E rest : str) (p : Z) :
  0 <= p -> adjust_index (E ++ rest) (len E + p) = len E + adjust_index rest p.
Proof.
  intros Hp. unfold adjust_index. rewrite len_app. pose proof (len_nonneg E).
  pose proof (len_nonneg rest). zcases; lia.
Qed.

Lemma slice_shift (E rest : str) (a b : Z) :
  0 <= a -> 0 <= b -> slice (E ++ rest) (len E + a) (len E + b) = slice rest a b.
Proof.
  intros Ha Hb. unfold slice. rewrite !adjust_index_shift by assumption.
  assert (H0 : 0 <= adjust_index rest a).
  { unfold adjust_index. pose proof (len_nonneg rest). zcases; lia. }
  rewrite drop_shift by exact H0. f_equal. lia.
Qed.

Lemma getitem_shift (E rest : str) (p : Z) :
  0 <= p -> getitem (E ++ rest) (len E + p) = getitem rest p.
Proof.
  intros Hp. unfold getitem. rewrite len_app. pose proof (len_nonneg E).
  zcases; try lia; try reflexivity.
  replace (Z.to_nat (len E + p)) with (length E + Z.to_nat p)%nat by (unfold len; lia).
  rewrite lookup_app_r by lia.
  replace (length E + Z.to_nat p - length E)%nat with (Z.to_nat p) by lia. reflexivity.
Qed.

Lemma spans_shift (re : Re.regex) (taken : list nat) (L p : Z) :
  Re.spans re taken (L + p)
  = (L + fst (Re.spans re taken p),
     map (fun g => (L + fst g, L + snd g)) (snd (Re.spans re taken p))).
Proof.
  revert taken p. induction re as [|it re IH]; intros [|n taken] p; try reflexivity.
  cbn [Re.spans]. replace (L + p + Z.of_nat n) with (L + (p + Z.of_nat n)) by lia.
  rewrite IH. destruct (Re.spans re taken (p + Z.of_nat n)) as [e gs]. cbn [fst snd].
  destruct (Re.captured it); reflexivity.
Qed.

Lemma search_from_shift (re : Re.regex) (s : str) (L p : Z) :
  Re.search_from re s (L + p) = option_map (shift_match L) (Re.search_from re s p).
Proof.
  revert p. induction s as [|c s IH]; intros p; cbn [Re.search_from].
  - destruct (Re.match_here re []) as [taken|]; [|reflexivity]. cbn [option_map].
    unfold Re.match_at, shift_match. rewrite spans_shift.
    destruct (Re.spans re taken p). reflexivity.
  - destruct (Re.match_here re (c :: s)) as [taken|].
    + cbn [option_map]. unfold Re.match_at, shift_match. rewrite spans_shift.
      destruct (Re.spans re taken p). reflexivity.
    + replace (L + p + 1) with (L + (p + 1)) by lia. apply IH.
Qed.

Lemma search_shift (re : Re.regex) (E rest : str) (p : Z) :
  0 <= p <= len rest ->
  Re.search re (E ++ rest) (len E + p) = option_map (shift_match (len E)) (Re.search re rest p).
Proof.
  intros Hp. unfold Re.search. rewrite len_app. pose proof (len_nonneg E).
  zcases; try lia. rewrite drop_shift by lia. apply search_from_shift.
Qed.

Lemma spans_groups_nonneg (re : Re.regex) (taken : list nat) (p : Z) :
  0 <= p ->
  Forall (fun g : Z * Z => 0 <= fst g /\ 0 <= snd g) (snd (Re.spans re taken p)).
Proof.
  revert taken p. induction re as [|it re IH]; intros [|n taken] p Hp; try constructor.
  cbn [Re.spans]. specialize (IH taken (p + Z.of_nat n) ltac:(lia)).
  destruct (Re.spans re taken (p + Z.of_nat n)) as [e gs]. cbn [fst snd] in *.
  destruct (Re.captured it); [constructor; [cbn; lia | exact IH] | exact IH].
Qed.

Lemma search_groups_nonneg (re : Re.regex) (text : str) (pos : Z) (m : Re.match_obj) :
  pos <= len text -> Re.search re text pos = Some m ->
  Forall (fun g : Z * Z => 0 <= fst g /\ 0 <= snd g) (Re.m_groups m).
Proof.
  intros Hpos H. apply search_Some in H as (taken & q & -> & Hq & _ & _); [|exact Hpos].
  unfold Re.match_at. pose proof (spans_groups_nonneg re taken q Hq) as Hg.
  destruct (Re.spans re taken q). exact Hg.
Qed.

Lemma group_shift (E rest : str) (m : Re.match_obj) (k : nat) :
  Forall (fun g : Z * Z => 0 <= fst g /\ 0 <= snd g) (Re.m_groups m) ->
  Re.group (E ++ rest) (shift_match (len E) m) k = Re.group rest m k.
Proof.
  intros Hg. unfold Re.group, shift_match. cbn [Re.m_groups].
  rewrite lookup_map. destruct (Re.m_groups m !! (k - 1)%nat) as [[a b]|] eqn:Hk;
    [|reflexivity].
  cbn [option_map fst snd].
  apply (Forall_lookup_1 _ _ _ _ Hg) in Hk. cbn [fst snd] in Hk.
  rewrite slice_shift by lia. reflexivity.
Qed.

Lemma match_braces_shift (E rest : str) (i depth : Z) :
  0 <= i ->
  match_braces (E ++ rest) (len E + i) depth
  = map_res (fun st => (len E + fst st, snd st)) (match_braces rest i depth).
Proof.
  intros Hi. pose proof (len_nonneg E).
  rewrite !match_braces_spec by lia. rewrite drop_shift by exact Hi.
  cbn [map_res fst snd]. do 2 f_equal. lia.
Qed.

(** The value extractor on a text after a prefix: the same value, the
    index moved by the length of the prefix. *)
Lemma _extract_value_shift (E rest : str) (start : Z) :
  0 <= start ->
  _extract_value (E ++ rest) (len E + start)
  = map_res (fun r => (fst r, len E + snd r)) (_extract_value rest start).
Proof.
  intros Hs. pose proof (len_nonneg E) as HE. unfold _extract_value.
  rewrite !skip_chars_spec by lia. rewrite drop_shift by exact Hs. cbn [bind].
  set (i := start + Z.of_nat _).
  assert (Hi : 0 <= i) by (unfold i; lia).
  replace (len E + start + Z.of_nat
             (Re.run (fun c => char_in c WHITESPACE) (drop (Z.to_nat start) rest)))
    with (len E + i) by (unfold i; lia).
  rewrite len_app.
  destruct (Z.leb_spec (len E + len rest) (len E + i)), (Z.leb_spec (len rest) i);
    try lia; [reflexivity|].
  rewrite getitem_shift by exact Hi.
  destruct (getitem rest i) as [c| |]; cbn [bind map_res]; try reflexivity.
  destruct (c =? chr "{")%N.
  - replace (len E + i + 1) with (len E + (i + 1)) by lia.
    rewrite match_braces_shift by lia. rewrite match_braces_spec by lia.
    cbn [map_res bind fst snd].
    set (j := i + 1 + Z.of_nat _).
    rewrite !skip_chars_spec by (unfold j; lia). rewrite drop_shift by (unfold j; lia).
    cbn [bind map_res fst snd].
    replace (len E + j - 1) with (len E + (j - 1)) by lia.
    rewrite slice_shift by (unfold j; lia). do 2 f_equal. lia.
  - destruct (c =? DQUOTE)%N.
    + replace (len E + i + 1) with (len E + (i + 1)) by lia.
      rewrite !quoted_end_spec by lia. rewrite drop_shift by lia. cbn [bind].
      set (j := i + 1 + Z.of_nat _).
      replace (len E + (i + 1) + Z.of_nat (quoted_run (drop (Z.to_nat (i + 1)) rest)))
        with (len E + j) by (unfold j; lia).
      replace (len E + j + 1) with (len E + (j + 1)) by lia.
      rewrite !skip_chars_spec by (unfold j; lia). rewrite drop_shift by (unfold j; lia).
      cbn [bind map_res fst snd].
      rewrite slice_shift by (unfold j; lia). do 2 f_equal. lia.
    + rewrite !advance_while_spec by lia. rewrite drop_shift by lia. cbn [bind].
      set (j := i + Z.of_nat _).
      replace (len E + i + Z.of_nat
                 (Re.run (fun c0 => negb (char_in c0 BARE_END)) (drop (Z.to_nat i) rest)))
        with (len E + j) by (unfold j; lia).
      rewrite !skip_chars_spec by (unfold j; lia). rewrite drop_shift by (unfold j; lia).
      cbn [bind map_res fst snd].
      rewrite slice_shift by (unfold j; lia). do 2 f_equal. lia.
Qed.

Lemma field_step_next_nonneg (body : str) (p q : Z) (fs fs' : entry) :
  0 <= p <= len body -> field_step body (p, fs) = Ret (Next (q, fs')) -> 0 <= q.
Proof.
  intros Hp. unfold field_step.
  destruct (Re.search field_re body p) as [m|] eqn:Hs; [|discriminate].
  apply search_field_re in Hs as (Hend & _ & name & Hname); [|lia].
  rewrite Hname. cbn [bind].
  destruct (_extract_value_total body (Re.m_end m) Hend) as (value & vend & Hev & Hvend).
  rewrite Hev. cbn [bind]. intros [= <- _]. lia.
Qed.

Lemma field_step_shift (E rest : str) (p : Z) (fs : entry) :
  0 <= p <= len rest ->
  field_step (E ++ rest) (len E + p, fs)
  = map_res (shift_ctl (len E) (fun a => a)) (field_step rest (p, fs)).
Proof.
  intros Hp. unfold field_step. rewrite search_shift by exact Hp.
  destruct (Re.search field_re rest p) as [m|] eqn:Hs; [|reflexivity].
  cbn [option_map].
  rewrite group_shift by (eapply search_groups_nonneg; [|exact Hs]; lia).
  apply search_field_re in Hs as (Hend & _ & name & Hname); [|lia].
  rewrite Hname. cbn [bind shift_match Re.m_end].
  rewrite _extract_value_shift by exact Hend.
  destruct (_extract_value rest (Re.m_end m)) as [[value vend]| |]; reflexivity.
Qed.

Lemma fields_loop_shift (E rest : str) (fuel : nat) (p : Z) (fs : entry) (r : Z * entry) :
  0 <= p ->
  while fuel (fun st => Ret (fst st <? len rest)) (field_step rest) (p, fs) = Ret r ->
  while fuel (fun st => Ret (fst st <? len (E ++ rest))) (field_step (E ++ rest))
    (len E + p, fs)
  = Ret (len E + fst r, snd r).
Proof.
  revert p fs. induction fuel as [|fuel IH]; intros p fs Hp H; [discriminate|].
  cbn [while bind fst] in *. pose proof (len_app E rest) as Hlen.
  destruct (Z.ltb_spec p (len rest)), (Z.ltb_spec (len E + p) (len (E ++ rest))); try lia.
  - rewrite field_step_shift by lia.
    destruct (field_step rest (p, fs)) as [[[q a]|[q a]]| |] eqn:Hstep;
      cbn [bind map_res shift_ctl] in *; try discriminate.
    + apply IH; [|exact H]. eapply field_step_next_nonneg; [|exact Hstep]. lia.
    + injection H as <-. reflexivity.
  - injection H as <-. reflexivity.
Qed.

Lemma entry_step_next_nonneg (text : str) (p q : Z) (es es' : list entry) :
  0 <= p <= len text -> entry_step text (p, es) = Ret (Next (q, es')) -> 0 <= q.
Proof.
  intros Hp. unfold entry_step.
  destruct (Re.search entry_pattern text p) as [m|] eqn:Hs; [|discriminate].
  apply search_entry_pattern in Hs as (Hend & _ & name & Hname); [|lia].
  rewrite Hname. cbn [bind]. rewrite match_braces_spec by exact Hend. cbn [bind].
  destruct (parse_fields _ _); cbn [bind]; try discriminate. intros [= <- _]. lia.
Qed.

Lemma entry_step_shift (E rest : str) (p : Z) (acc0 acc : list entry) :
  0 <= p <= len rest ->
  entry_step (E ++ rest) (len E + p, acc0 ++ acc)
  = map_res (shift_ctl (len E) (app acc0)) (entry_step rest (p, acc)).
Proof.
  intros Hp. unfold entry_step. rewrite search_shift by exact Hp.
  destruct (Re.search entry_pattern rest p) as [m|] eqn:Hs; [|reflexivity].
  cbn [option_map].
  rewrite group_shift by (eapply search_groups_nonneg; [|exact Hs]; lia).
  apply search_entry_pattern in Hs as (Hend & Hadv & name & Hname); [|lia].
  rewrite Hname. cbn [bind shift_match Re.m_end].
  rewrite match_braces_shift by exact Hend. rewrite match_braces_spec by exact Hend.
  cbn [map_res bind fst snd].
  set (i := Re.m_end m + Z.of_nat _).
  replace (len E + i - 1) with (len E + (i - 1)) by lia.
  rewrite slice_shift by (unfold i; lia).
  destruct (parse_fields _ _) as [fields| |]; cbn [bind map_res shift_ctl]; try reflexivity.
  rewrite app_assoc. reflexivity.
Qed.

Lemma entries_loop_shift (E rest : str) (fuel : nat) (p : Z) (acc0 acc : list entry)
    (r : Z * list entry) :
  0 <= p ->
  while fuel (fun st => Ret (fst st <? len rest)) (entry_step rest) (p, acc) = Ret r ->
  while fuel (fun st => Ret (fst st <? len (E ++ rest))) (entry_step (E ++ rest))
    (len E + p, acc0 ++ acc)
  = Ret (len E + fst r, acc0 ++ snd r).
Proof.
  revert p acc. induction fuel as [|fuel IH]; intros p acc Hp H; [discriminate|].
  cbn [while bind fst] in *. pose proof (len_app E rest) as Hlen.
  destruct (Z.ltb_spec p (len rest)), (Z.ltb_spec (len E + p) (len (E ++ rest))); try lia.
  - rewrite entry_step_shift by lia.
    destruct (entry_step rest (p, acc)) as [[[q a]|[q a]]| |] eqn:Hstep;
      cbn [bind map_res shift_ctl] in *; try discriminate.
    + apply IH; [|exact H]. eapply entry_step_next_nonneg; [|exact Hstep]. lia.
    + injection H as <-. reflexivity.
  - injection H as <-. reflexivity.
Qed.

(** ** Matching a well-formed head *)

Lemma backtrack_max (k : str -> option (list nat)) (s : str) (lo n : nat) (r : list nat) :
  (lo <= n)%nat -> k (drop n s) = Some r -> Re.backtrack k s lo n = Some (n :: r).
Proof.
  intros Hlo Hk. destruct n as [|n]; cbn [Re.backtrack].
  - destruct (Nat.ltb_spec 0 lo); [lia|]. rewrite Hk. reflexivity.
  - destruct (Nat.ltb_spec (S n) lo); [lia|]. rewrite Hk. reflexivity.
Qed.

Lemma match_here_one (cls : char -> bool) (g : bool) (re : Re.regex) (c : char) (s : str)
    (r : list nat) :
  cls c = true -> Re.match_here re s = Some r ->
  Re.match_here (Re.Item cls Re.One g :: re) (c :: s) = Some (1%nat :: r).
Proof. intros Hc Hr. cbn [Re.match_here Re.rep Re.cls]. rewrite Hc, Hr. reflexivity. Qed.

Lemma match_here_plus (cls : char -> bool) (g : bool) (re : Re.regex) (a s : str)
    (r : list nat) :
  forallb cls a = true -> a <> [] ->
  match s with [] => true | c :: _ => negb (cls c) end = true ->
  Re.match_here re s = Some r ->
  Re.match_here (Re.Item cls Re.Plus g :: re) (a ++ s) = Some (length a :: r).
Proof.
  intros Ha Hne Hs Hr. cbn [Re.match_here Re.rep Re.cls].
  rewrite run_app_all by exact Ha. rewrite (run_stop _ _ Hs), Nat.add_0_r.
  apply backtrack_max; [destruct a; [contradiction | simpl; lia]|].
  rewrite drop_app_length. exact Hr.
Qed.

Lemma match_here_star (cls : char -> bool) (g : bool) (re : Re.regex) (a s : str)
    (r : list nat) :
  forallb cls a = true ->
  match s with [] => true | c :: _ => negb (cls c) end = true ->
  Re.match_here re s = Some r ->
  Re.match_here (Re.Item cls Re.Star g :: re) (a ++ s) = Some (length a :: r).
Proof.
  intros Ha Hs Hr. cbn [Re.match_here Re.rep Re.cls].
  rewrite run_app_all by exact Ha. rewrite (run_stop _ _ Hs), Nat.add_0_r.
  apply backtrack_max; [lia|]. rewrite drop_app_length. exact Hr.
Qed.

Lemma all_in_whitespace_space (ws : str) :
  all_in WHITESPACE ws = true -> forallb Re.space ws = true.
Proof.
  unfold all_in. rewrite !forallb_forall. intros H c Hc. specialize (H c Hc).
  unfold char_in, WHITESPACE in H. cbn [existsb] in H.
  repeat (apply orb_prop in H as [H|H]; [apply N.eqb_eq in H; subst; reflexivity|]).
  discriminate.
Qed.

Lemma all_in_whitespace_head (P : char -> bool) (ws : str) (c : char) (s : str) :
  (forall x, char_in x WHITESPACE = true -> P x = false) -> P c = false ->
  all_in WHITESPACE ws = true ->
  match ws ++ c :: s with [] => true | x :: _ => negb (P x) end = true.
Proof.
  intros HP Hc Hws. destruct ws as [|x ws]; cbn [app]; apply negb_true_iff; [exact Hc|].
  apply HP. cbn [all_in forallb] in Hws. apply andb_prop in Hws as [H _]. exact H.
Qed.

Lemma whitespace_not_word (x : char) : char_in x WHITESPACE = true -> Re.word x = false.
Proof.
  unfold char_in, WHITESPACE. cbn [existsb]. intros H.
  repeat (apply orb_prop in H as [H|H]; [apply N.eqb_eq in H; subst; reflexivity|]).
  discriminate.
Qed.

Lemma match_here_entry (type ws key tail : str) :
  type <> [] -> forallb Re.word type = true -> all_in WHITESPACE ws = true ->
  key <> [] -> ~ In (chr ",") key ->
  Re.match_here entry_pattern (chr "@" :: type ++ ws ++ chr "{" :: key ++ chr "," :: tail)
  = Some [1%nat; length type; length ws; 1%nat; length key; 1%nat].
Proof.
  intros Ht Hw Hws Hk Hc. unfold entry_pattern.
  apply match_here_one; [reflexivity|].
  apply match_here_plus; [exact Hw | exact Ht | |].
  { apply all_in_whitespace_head; [apply whitespace_not_word | reflexivity | exact Hws]. }
  apply match_here_star; [apply all_in_whitespace_space, Hws | reflexivity |].
  apply match_here_one; [reflexivity|].
  apply match_here_plus; [ | exact Hk | reflexivity | ].
  { apply forallb_forall. intros x Hx. unfold Re.all_but. apply negb_true_iff.
    apply N.eqb_neq. intros ->. apply Hc, Hx. }
  apply match_here_one; reflexivity.
Qed.

Lemma search_from_skip_entry (pre s : str) (p : Z) :
  ~ In (chr "@") pre ->
  Re.search_from entry_pattern (pre ++ s) p = Re.search_from entry_pattern s (p + len pre).
Proof.
  revert p. induction pre as [|c pre IH]; intros p H.
  - cbn [app]. f_equal. unfold len. simpl. lia.
  - cbn [app Re.search_from]. rewrite match_here_entry_head.
    + rewrite IH by (intros Hin; apply H; right; exact Hin).
      f_equal. rewrite len_cons. lia.
    + apply negb_true_iff, N.eqb_neq. intros ->. apply H. left. reflexivity.
Qed.

(** The first turn of the scanner's loop on a text that starts, after
    characters other than [@], with a well-formed entry. *)
Lemma entry_step_first (pre type ws key body rest : str) (fields : entry) :
  ~ In (chr "@") pre ->
  type <> [] -> forallb Re.word type = true -> all_in WHITESPACE ws = true ->
  key <> [] -> ~ In (chr ",") key -> balanced body = true ->
  parse_fields body {[ lit "_type" := lower type ]} = Ret fields ->
  entry_step
    ((pre ++ chr "@" :: type ++ ws ++ chr "{" :: key ++ [chr ","]) ++ body ++ chr "}" :: rest)
    (0, [])
  = Ret (Next (len ((pre ++ chr "@" :: type ++ ws ++ chr "{" :: key ++ [chr ","])
                    ++ body ++ [chr "}"]),
               [fields])).
Proof.
  intros Hpre Ht Hw Hws Hk Hc Hbal Hpf.
  set (H := pre ++ chr "@" :: type ++ ws ++ chr "{" :: key ++ [chr ","]).
  set (text := H ++ body ++ chr "}" :: rest).
  assert (Htext : text = pre ++ chr "@" :: type ++ ws ++ chr "{" :: key
                         ++ chr "," :: body ++ chr "}" :: rest).
  { unfold text, H. rewrite <- !app_assoc. cbn [app]. rewrite <- !app_assoc.
    cbn [app]. rewrite <- !app_assoc. reflexivity. }
  assert (HlenH : len H = len pre + 1 + len type + len ws + 1 + len key + 1).
  { unfold H. rewrite len_app, len_cons, len_app, len_app, len_cons, len_app.
    change (len [chr ","]) with 1. lia. }
  pose proof (len_nonneg pre). pose proof (len_nonneg type). pose proof (len_nonneg ws).
  pose proof (len_nonneg key). pose proof (len_nonneg body). pose proof (len_nonneg text).
  unfold entry_step.
  assert (Hsearch : Re.search entry_pattern text 0
                    = Some (Re.Match (len pre) (len H)
                              [(len pre + 1, len pre + 1 + len type);
                               (len pre + 1 + len type + len ws + 1,
                                len pre + 1 + len type + len ws + 1 + len key)])).
  { unfold Re.search. destruct (Z.ltb_spec 0 0); [lia|].
    destruct (Z.ltb_spec (len text) 0); [lia|].
    change (Z.to_nat 0) with O. rewrite drop_0.
    rewrite Htext, search_from_skip_entry by exact Hpre.
    cbn [Re.search_from]. rewrite match_here_entry by assumption.
    unfold Re.match_at, entry_pattern. cbn [Re.spans Re.captured].
    rewrite HlenH. unfold len. change (Z.of_nat 1) with 1. rewrite !Z.add_0_l.
    reflexivity. }
  rewrite Hsearch. unfold Re.group. cbn [Re.m_groups lookup list_lookup Nat.sub Re.m_end].
  assert (Hgroup : slice text (len pre + 1) (len pre + 1 + len type) = type).
  { rewrite Htext.
    replace (pre ++ chr "@" :: type ++ ws ++ chr "{" :: key ++ chr "," :: body ++ chr "}" :: rest)
      with ((pre ++ [chr "@"]) ++ type
            ++ (ws ++ chr "{" :: key ++ chr "," :: body ++ chr "}" :: rest))
      by (rewrite <- !app_assoc; reflexivity).
    replace (len pre + 1) with (len (pre ++ [chr "@"])) by (rewrite len_app; reflexivity).
    apply slice_middle. }
  rewrite Hgroup. cbn [bind].
  rewrite match_braces_spec by lia. unfold text at 1 2. rewrite drop_len_app.
  rewrite braces_end_balanced by exact Hbal. cbn [bind fst snd].
  assert (Hbody : slice text (len H) (len H + Z.of_nat (S (length body)) - 1) = body).
  { unfold text. replace (len H + Z.of_nat (S (length body)) - 1) with (len H + len body)
      by (unfold len; lia).
    apply slice_middle. }
  fold text. rewrite Hbody, Hpf. cbn [bind]. do 3 f_equal.
  rewrite !len_app. change (len [chr "}"]) with 1. unfold len. lia.
Qed.

(** X12.  The scanner takes a text entry by entry.  When the text
    starts, after characters other than [@], with [@type{key,], a body with
    balanced braces and the closing brace, the list it returns is the dict
    of that body, with the lower-cased type under [_type], followed by what
    it returns for the rest of the text. *)
Theorem _parse_bib_first_entry (pre type ws key body rest : str) :
  ~ In (chr "@") pre ->
  type <> [] -> forallb Re.word type = true -> all_in WHITESPACE ws = true ->
  key <> [] -> ~ In (chr ",") key -> balanced body = true ->
  exists (fields : entry) (entries : list entry),
    parse_fields body {[ lit "_type" := lower type ]} = Ret fields
    /\ _parse_bib rest = Ret entries
    /\ _parse_bib (pre ++ [chr "@"] ++ type ++ ws ++ [chr "{"] ++ key ++ [chr ","]
                   ++ body ++ [chr "}"] ++ rest)
       = Ret (fields :: entries).
Proof.
  intros Hpre Ht Hw Hws Hk Hc Hbal.
  destruct (parse_fields_total body {[ lit "_type" := lower type ]}) as [fields Hpf].
  destruct (_parse_bib_total rest) as [entries Hrest].
  exists fields, entries. split; [exact Hpf|]. split; [exact Hrest|].
  set (H := pre ++ chr "@" :: type ++ ws ++ chr "{" :: key ++ [chr ","]).
  set (E := H ++ body ++ [chr "}"]).
  replace (pre ++ [chr "@"] ++ type ++ ws ++ [chr "{"] ++ key ++ [chr ","]
           ++ body ++ [chr "}"] ++ rest) with (E ++ rest).
  2:{ unfold E, H. cbn [app]. rewrite <- !app_assoc. cbn [app]. rewrite <- !app_assoc.
      cbn [app]. rewrite <- !app_assoc. reflexivity. }
  assert (HE : 1 <= len E).
  { unfold E, H. rewrite !len_app, len_cons. pose proof (len_nonneg pre).
    pose proof (len_nonneg (type ++ ws ++ chr "{" :: key ++ [chr ","])).
    pose proof (len_nonneg body). change (len [chr "}"]) with 1. lia. }
  unfold _parse_bib in Hrest |- *.
  destruct (while (loop_bound rest 0) _ _ _) as [[q es]| |] eqn:Hloop; try discriminate Hrest.
  cbn [bind] in Hrest. injection Hrest as ->.
  pose proof (entries_loop_shift E rest _ 0 [fields] [] _ (Z.le_refl 0) Hloop) as Hshift.
  cbn [fst snd] in Hshift. rewrite Z.add_0_r, app_nil_r in Hshift.
  pose proof (len_nonneg rest) as Hr. pose proof (len_app E rest) as Hlen.
  unfold loop_bound. rewrite Z.sub_0_r.
  replace (Datatypes.S (Z.to_nat (len (E ++ rest))))
    with (Datatypes.S (Datatypes.S (Z.to_nat (len (E ++ rest) - 1)))) by lia.
  rewrite (while_next _ _ _ (0, []) (len E, [fields])).
  - rewrite (while_mono _ _ _ (Datatypes.S (Z.to_nat (len (E ++ rest) - 1))) _ _ Hshift)
      by (unfold loop_bound; lia).
    reflexivity.
  - cbn [fst]. destruct (Z.ltb_spec 0 (len (E ++ rest))); [reflexivity | lia].
  - unfold E. rewrite <- app_assoc. cbn [app]. rewrite <- app_assoc.
    apply entry_step_first; assumption.
Qed.

Lemma _parse_bib_first_entry_witness :
  exists (fields : entry) (entries : list entry),
    parse_fields (lit " title = {Foo}") {[ lit "_type" := lower (lit "Article") ]} = Ret fields
    /\ _parse_bib (lit " trailing") = Ret entries
    /\ _parse_bib ((lit "% refs" ++ [LF]) ++ [chr "@"] ++ lit "Article" ++ lit " " ++ [chr "{"]
                   ++ lit "k1" ++ [chr ","] ++ lit " title = {Foo}" ++ [chr "}"]
                   ++ lit " trailing")
       = Ret (fields :: entries).
Proof.
  apply (_parse_bib_first_entry (lit "% refs" ++ [LF]) (lit "Article") (lit " ") (lit "k1")
           (lit " title = {Foo}") (lit " trailing"));
    try reflexivity; try discriminate; vm_compute; intuition discriminate.
Defined.

Lemma match_here_field_head (s : str) :
  match s with [] => true | c :: _ => negb (Re.word c) end = true ->
  Re.match_here field_re s = None.
Proof.
  intros H. unfold field_re. cbn [Re.match_here Re.rep Re.cls].
  rewrite (run_stop _ _ H). reflexivity.
Qed.

Lemma search_from_skip_field (skip s : str) (p : Z) :
  forallb (fun c => negb (Re.word c)) skip = true ->
  s <> [] ->
  Re.search_from field_re (skip ++ s) p = Re.search_from field_re s (p + len skip).
Proof.
  revert p. induction skip as [|c skip IH]; intros p H Hs.
  - cbn [app]. f_equal. unfold len. simpl. lia.
  - cbn [forallb] in H. apply andb_prop in H as [Hc H].
    cbn [app Re.search_from]. rewrite match_here_field_head by exact Hc.
    rewrite IH by assumption. f_equal. rewrite len_cons. lia.
Qed.

Lemma match_here_field (name ws1 ws2 tail : str) :
  name <> [] -> forallb Re.word name = true ->
  all_in WHITESPACE ws1 = true -> all_in WHITESPACE ws2 = true ->
  match tail with [] => true | c :: _ => negb (Re.space c) end = true ->
  Re.match_here field_re (name ++ ws1 ++ chr "=" :: ws2 ++ tail)
  = Some [length name; length ws1; 1%nat; length ws2].
Proof.
  intros Hn Hw H1 H2 Ht. unfold field_re.
  apply match_here_plus; [exact Hw | exact Hn | |].
  { apply all_in_whitespace_head; [apply whitespace_not_word | reflexivity | exact H1]. }
  apply match_here_star; [apply all_in_whitespace_space, H1 | reflexivity |].
  apply match_here_one; [reflexivity|].
  rewrite <- (app_nil_r (ws2 ++ tail)), <- app_assoc.
  apply match_here_star; [apply all_in_whitespace_space, H2 | | reflexivity].
  rewrite app_nil_r. exact Ht.
Qed.

(** The first turn of the loop over the fields on a body that starts,
    after characters that are not word characters, with [name = ]. *)
Lemma field_step_first (skip name ws1 ws2 tail value : str) (vend : Z) (fields : entry) :
  forallb (fun c => negb (Re.word c)) skip = true ->
  name <> [] -> forallb Re.word name = true ->
  all_in WHITESPACE ws1 = true -> all_in WHITESPACE ws2 = true ->
  match tail with [] => true | c :: _ => negb (Re.space c) end = true ->
  _extract_value tail 0 = Ret (value, vend) ->
  field_step ((skip ++ name ++ ws1 ++ chr "=" :: ws2) ++ tail) (0, fields)
  = Ret (Next (len (skip ++ name ++ ws1 ++ chr "=" :: ws2) + vend,
               <[lower name := value]> fields)).
Proof.
  intros Hskip Hn Hw H1 H2 Ht Hev.
  set (H := skip ++ name ++ ws1 ++ chr "=" :: ws2).
  set (body := H ++ tail).
  assert (Hbody : body = skip ++ name ++ ws1 ++ chr "=" :: ws2 ++ tail).
  { unfold body, H. rewrite <- !app_assoc. cbn [app]. reflexivity. }
  assert (HlenH : len H = len skip + len name + len ws1 + 1 + len ws2).
  { unfold H. rewrite !len_app, len_cons. lia. }
  pose proof (len_nonneg skip). pose proof (len_nonneg name). pose proof (len_nonneg ws1).
  pose proof (len_nonneg ws2). pose proof (len_nonneg body).
  unfold field_step.
  assert (Hsearch : Re.search field_re body 0
                    = Some (Re.Match (len skip) (len H)
                              [(len skip, len skip + len name)])).
  { unfold Re.search. destruct (Z.ltb_spec 0 0); [lia|].
    destruct (Z.ltb_spec (len body) 0); [lia|].
    change (Z.to_nat 0) with O. rewrite drop_0.
    rewrite Hbody, search_from_skip_field;
      [|exact Hskip|destruct name; [contradiction | discriminate]].
    destruct (name ++ ws1 ++ chr "=" :: ws2 ++ tail) as [|c s] eqn:Hs;
      [destruct name; [contradiction | discriminate]|].
    cbn [Re.search_from]. rewrite <- Hs. rewrite match_here_field by assumption.
    unfold Re.match_at, field_re. cbn [Re.spans Re.captured].
    rewrite HlenH. unfold len. change (Z.of_nat 1) with 1. rewrite !Z.add_0_l.
    reflexivity. }
  rewrite Hsearch. unfold Re.group. cbn [Re.m_groups lookup list_lookup Nat.sub Re.m_end].
  assert (Hgroup : slice body (len skip) (len skip + len name) = name).
  { rewrite Hbody. apply slice_middle. }
  rewrite Hgroup. cbn [bind].
  rewrite <- (Z.add_0_r (len H)) at 1. unfold body.
  rewrite _extract_value_shift by lia. rewrite Hev. reflexivity.
Qed.

(** X13.  The loop over the fields takes a body field by field.  When
    the body starts, after characters that are not word characters, with a
    name, an equals sign and a value that the extractor reads up to the
    index [vend], the dict it returns is the one it returns for the rest of
    the body from a dict where the lower-cased name maps to that value: the
    fields that follow, a field of the same name too, overwrite what came
    before. *)
Theorem parse_fields_first_field (skip name ws1 ws2 tail value : str) (vend : Z)
    (fields : entry) :
  forallb (fun c => negb (Re.word c)) skip = true ->
  name <> [] -> forallb Re.word name = true ->
  all_in WHITESPACE ws1 = true -> all_in WHITESPACE ws2 = true ->
  match tail with [] => true | c :: _ => negb (Re.space c) end = true ->
  _extract_value tail 0 = Ret (value, vend) ->
  vend <= len tail ->
  parse_fields (skip ++ name ++ ws1 ++ [chr "="] ++ ws2 ++ tail) fields
  = parse_fields (drop (Z.to_nat vend) tail) (<[lower name := value]> fields).
Proof.
  intros Hskip Hn Hw H1 H2 Ht Hev Hvend.
  destruct (_extract_value_total tail 0 (Z.le_refl 0)) as (v' & e' & Hev' & H0).
  rewrite Hev in Hev'. injection Hev' as <- <-.
  set (H := skip ++ name ++ ws1 ++ chr "=" :: ws2).
  set (rest := drop (Z.to_nat vend) tail).
  set (E := H ++ take (Z.to_nat vend) tail).
  replace (skip ++ name ++ ws1 ++ [chr "="] ++ ws2 ++ tail) with (E ++ rest).
  2:{ unfold E, rest. rewrite <- app_assoc, take_drop. unfold H.
      rewrite <- !app_assoc. reflexivity. }
  assert (HlenE : len E = len H + vend).
  { unfold E. rewrite len_app. f_equal. unfold len in *. rewrite length_take. lia. }
  assert (HH : 1 <= len H).
  { unfold H. rewrite !len_app, len_cons. pose proof (len_nonneg skip).
    pose proof (len_nonneg ws1). pose proof (len_nonneg ws2).
    destruct name; [contradiction|]. rewrite len_cons. pose proof (len_nonneg name). lia. }
  set (fields' := <[lower name := value]> fields).
  destruct (parse_fields_total rest fields') as [r Hr]. rewrite Hr.
  unfold parse_fields in Hr |- *.
  destruct (while (loop_bound rest 0) _ _ _) as [[q fs]| |] eqn:Hloop; try discriminate Hr.
  cbn [bind] in Hr. injection Hr as ->.
  pose proof (fields_loop_shift E rest _ 0 fields' _ (Z.le_refl 0) Hloop) as Hshift.
  cbn [fst snd] in Hshift. rewrite Z.add_0_r in Hshift.
  pose proof (len_nonneg rest) as Hrest. pose proof (len_app E rest) as Hlen.
  unfold loop_bound. rewrite Z.sub_0_r.
  replace (Datatypes.S (Z.to_nat (len (E ++ rest))))
    with (Datatypes.S (Datatypes.S (Z.to_nat (len (E ++ rest) - 1)))) by lia.
  rewrite (while_next _ _ _ (0, fields) (len E, fields')).
  - rewrite (while_mono _ _ _ (Datatypes.S (Z.to_nat (len (E ++ rest) - 1))) _ _ Hshift)
      by (unfold loop_bound; lia).
    reflexivity.
  - cbn [fst]. destruct (Z.ltb_spec 0 (len (E ++ rest))); [reflexivity | lia].
  - rewrite HlenE. unfold E, rest. rewrite <- app_assoc, take_drop.
    apply field_step_first; assumption.
Qed.

Lemma parse_fields_first_field_witness :
  parse_fields (lit "  " ++ lit "Title" ++ lit " " ++ [chr "="] ++ lit " "
                ++ lit "{Foo}, title = {Bar}") (∅ : entry)
  = parse_fields (drop (Z.to_nat 7) (lit "{Foo}, title = {Bar}"))
      (<[lower (lit "Title") := lit "Foo"]> (∅ : entry)).
Proof.
  apply (parse_fields_first_field (lit "  ") (lit "Title") (lit " ") (lit " ")
           (lit "{Foo}, title = {Bar}") (lit "Foo") 7 ∅);
    try reflexivity; try discriminate; vm_compute; intuition discriminate.
Defined.

(** ** The paths of [main] *)

Section MainPaths.
Context {bytes : Type}.
Variable decode : bytes -> option str.
Variable encode : str -> bytes.
Variable safe_load : str -> option (heap * yaml).
Variable dump : heap -> yaml -> option str.
Variable path_str : path -> str.

Local Abbreviation run := (main decode encode safe_load dump path_str).


(** X15.  A missing file.  Without the bibliography, [main] prints
    that its path was not found on the error stream and exits with status
    1, whether the CV file is there or not; with the bibliography and
    without the CV file it does the same with the path of the CV file.
    Nothing is read, written or printed on the output stream. *)
Theorem main_missing_file (w : world) :
  (bib_file w = None ->
   run w = (Raise (SystemExit 1),
            World (bib_file w) (cv_file w) (stdout w)
              (stderr w ++ [lit "ERROR: " ++ path_str BIB_PATH ++ lit " not found"])))
  /\ (bib_file w <> None -> cv_file w = None ->
      run w = (Raise (SystemExit 1),
               World (bib_file w) (cv_file w) (stdout w)
                 (stderr w ++ [lit "ERROR: " ++ path_str CV_PATH ++ lit " not found"]))).
Proof.
  destruct w as [bib cv out err]. cbn [bib_file cv_file stdout stderr].
  split.
  - intros ->. reflexivity.
  - intros Hbib ->. destruct bib as [b|]; [reflexivity | contradiction].
Qed.


(** X17.  A CV file that is not the mapping expected.  When both
    files are read and the bibliography is normalised without error: a
    document that is empty, a number or a boolean stops [main] with a
    [TypeError]; so does a text that contains [cv]; a [cv] entry that is
    not a mapping stops it with an [AttributeError]; and sections that are
    not a mapping stop it with a [TypeError].  In each case nothing is
    written and nothing is printed on either stream. *)
Theorem main_malformed_document (w : world) (bib_bytes cv_bytes : bytes)
    (bib_text cv_text : str) (publications : list Publication) (h : heap) (doc : yaml) :
  bib_file w = Some bib_bytes -> decode bib_bytes = Some bib_text ->
  publications_of bib_text = Ret publications ->
  cv_file w = Some cv_bytes -> decode cv_bytes = Some cv_text ->
  safe_load cv_text = Some (h, doc) ->
  (doc = YNone \/ (exists n, doc = YInt n) \/ (exists b, doc = YBool b) ->
   run w = (Raise TypeError, w))
  /\ (forall s, doc = YStr s -> contains s (lit "cv") = true ->
      run w = (Raise TypeError, w))
  /\ (forall a d cv, doc = YRef a -> h !! a = Some (ODict d) ->
                     dict_get d (lit "cv") = Some cv -> not_dict h cv = true ->
      run w = (Raise AttributeError, w))
  /\ (forall a d c cvd sections,
        doc = YRef a -> h !! a = Some (ODict d) ->
        dict_get d (lit "cv") = Some (YRef c) -> h !! c = Some (ODict cvd) ->
        dict_get cvd (lit "sections") = Some sections -> not_dict h sections = true ->
        run w = (Raise TypeError, w)).
Proof.
  destruct w as [bib cv out err]. cbn [bib_file cv_file stdout stderr].
  intros -> Hdb Hpubs -> Hdc Hload.
  repeat apply conj.
  - intros [-> | [[n ->] | [b ->]]]; read_files Hdb Hpubs Hdc Hload; reflexivity.
  - intros s -> Hs. read_files Hdb Hpubs Hdc Hload. cbn [yaml_contains]. rewrite Hs.
    reflexivity.
  - intros a d c -> Ha Hcv Hc. read_files Hdb Hpubs Hdc Hload.
    cbn [yaml_contains yaml_getitem]. rewrite Ha, Hcv. cbv beta iota. cbn [negb].
    unfold not_dict in Hc. unfold yaml_setdefault.
    destruct c as [| | | |c]; try reflexivity.
    destruct (h !! c) as [[cvd|l]|]; try discriminate Hc; reflexivity.
  - intros a d c cvd sections -> Ha Hcv Hc Hs Hsd. read_files Hdb Hpubs Hdc Hload.
    cbn [yaml_contains yaml_getitem]. rewrite Ha, Hcv. cbv beta iota.
    cbn [negb yaml_setdefault]. rewrite Hc, Hs. cbv beta iota.
    destruct (new_object _ h) as [value h2] eqn:Hnew.
    destruct (new_object_read (TList (map publication_dict (sort_by_date_reverse ps))) h)
      as (ext & Hext & _).
    rewrite Hnew in Hext. cbn [snd] in Hext. subst h2.
    unfold not_dict in Hsd. unfold yaml_setitem.
    destruct sections as [| | | |s]; try reflexivity.
    destruct (h !! s) as [[sd|l]|] eqn:Hs'; try discriminate Hsd.
    rewrite (lookup_app_l_Some _ ext _ _ Hs'). reflexivity.
Qed.

End MainPaths.


(** X15 in a world without files, and in one with the bibliography only. *)
Lemma main_missing_file_witness :
  let decode := fun content : str => Some content in
  let encode := fun text : str => text in
  let safe_load := fun _ : str => Some ([ODict []], YRef 0%nat) in
  let dump := fun (_ : heap) (_ : yaml) => Some (lit "{}") in
  let path_str := fun p : path =>
                    match p with
                    | BIB_PATH => lit "_bibliography/papers.bib"
                    | CV_PATH => lit "_data/cv.yml"
                    end in
  main decode encode safe_load dump path_str (World None None [] [])
  = (Raise (SystemExit 1),
     World None None [] [lit "ERROR: _bibliography/papers.bib not found"])
  /\ main decode encode safe_load dump path_str (World (Some sample_entry) None [] [])
     = (Raise (SystemExit 1),
        World (Some sample_entry) None [] [lit "ERROR: _data/cv.yml not found"]).
Proof.
  intros decode encode safe_load dump path_str. split.
  - apply (main_missing_file decode encode safe_load dump path_str (World None None [] [])).
    reflexivity.
  - apply (main_missing_file decode encode safe_load dump path_str
             (World (Some sample_entry) None [] [])); [discriminate | reflexivity].
Defined.


(** X17 in a world where the CV file loads as nothing, as the text
    [my cv], as [{cv: null}] and as [{cv: {sections: null}}]. *)
Lemma main_malformed_document_witness :
  let decode := fun content : str => Some content in
  let encode := fun text : str => text in
  let safe_load :=
    fun text : str =>
      match text with
      | [] => Some ([], YNone)
      | [_] => Some ([], YStr (lit "my cv"))
      | [_; _] => Some ([ODict [(YStr (lit "cv"), YNone)]], YRef 0%nat)
      | _ => Some ([ODict [(YStr (lit "cv"), YRef 1%nat)];
                    ODict [(YStr (lit "sections"), YNone)]], YRef 0%nat)
      end in
  let dump := fun (_ : heap) (_ : yaml) => Some (lit "{}") in
  let path_str := fun p : path =>
                    match p with
                    | BIB_PATH => lit "_bibliography/papers.bib"
                    | CV_PATH => lit "_data/cv.yml"
                    end in
  let world_of := fun cv_text : str => World (Some sample_entry) (Some cv_text) [] [] in
  main decode encode safe_load dump path_str (world_of []) = (Raise TypeError, world_of [])
  /\ main decode encode safe_load dump path_str (world_of (lit "x"))
     = (Raise TypeError, world_of (lit "x"))
  /\ main decode encode safe_load dump path_str (world_of (lit "cv"))
     = (Raise AttributeError, world_of (lit "cv"))
  /\ main decode encode safe_load dump path_str (world_of (lit "cv:"))
     = (Raise TypeError, world_of (lit "cv:")).
Proof.
  intros decode encode safe_load dump path_str world_of.
  assert (H : forall cv_text h doc,
             safe_load cv_text = Some (h, doc) ->
             (doc = YNone \/ (exists n, doc = YInt n) \/ (exists b, doc = YBool b) ->
              main decode encode safe_load dump path_str (world_of cv_text)
              = (Raise TypeError, world_of cv_text))
             /\ (forall s, doc = YStr s -> contains s (lit "cv") = true ->
                 main decode encode safe_load dump path_str (world_of cv_text)
                 = (Raise TypeError, world_of cv_text))
             /\ (forall a d cv, doc = YRef a -> h !! a = Some (ODict d) ->
                                dict_get d (lit "cv") = Some cv -> not_dict h cv = true ->
                 main decode encode safe_load dump path_str (world_of cv_text)
                 = (Raise AttributeError, world_of cv_text))
             /\ (forall a d c cvd sections,
                   doc = YRef a -> h !! a = Some (ODict d) ->
                   dict_get d (lit "cv") = Some (YRef c) -> h !! c = Some (ODict cvd) ->
                   dict_get cvd (lit "sections") = Some sections ->
                   not_dict h sections = true ->
                   main decode encode safe_load dump path_str (world_of cv_text)
                   = (Raise TypeError, world_of cv_text))).
  { intros cv_text h doc Hload.
    apply (main_malformed_document decode encode safe_load dump path_str
             (world_of cv_text) sample_entry cv_text sample_entry cv_text
             [sample_publication] h doc);
      try reflexivity; try exact Hload; vm_compute; reflexivity. }
  split; [|split; [|split]].
  - destruct (H [] [] YNone eq_refl) as (Hnone & _). apply Hnone. left. reflexivity.
  - destruct (H (lit "x") [] (YStr (lit "my cv")) eq_refl) as (_ & Hstr & _).
    apply (Hstr (lit "my cv")); reflexivity.
  - destruct (H (lit "cv") [ODict [(YStr (lit "cv"), YNone)]] (YRef 0%nat) eq_refl)
      as (_ & _ & Hcv & _).
    apply (Hcv 0%nat [(YStr (lit "cv"), YNone)] YNone); reflexivity.
  - destruct (H (lit "cv:")
                [ODict [(YStr (lit "cv"), YRef 1%nat)];
                 ODict [(YStr (lit "sections"), YNone)]] (YRef 0%nat) eq_refl)
      as (_ & _ & _ & Hs).
    apply (Hs 0%nat [(YStr (lit "cv"), YRef 1%nat)] 1%nat
              [(YStr (lit "sections"), YNone)] YNone); reflexivity.
Defined.

(** ** Months in ASCII *)

Lemma is_ascii_lower_strip (raw : str) :
  is_ascii raw = true -> is_ascii (lower (strip raw)) = true.
Proof.
  intros H. assert (Hs : is_ascii (strip raw) = true).
  { unfold is_ascii in *. rewrite forallb_forall in *. intros x Hx.
    apply H, strip_chars, Hx. }
  unfold lower. rewrite lower_ascii by exact Hs.
  unfold is_ascii in *. rewrite forallb_forall in *. intros x Hx.
  apply in_map_iff in Hx as (y & <- & Hy). apply tolower_ascii, Hs, Hy.
Qed.

Lemma len_lower_strip (raw : str) :
  is_ascii raw = true -> len (lower (strip raw)) <= len raw.
Proof.
  intros H. assert (Hs : is_ascii (strip raw) = true).
  { unfold is_ascii in *. rewrite forallb_forall in *. intros x Hx.
    apply H, strip_chars, Hx. }
  unfold lower. rewrite lower_ascii by exact Hs. unfold len. rewrite length_map.
  destruct (strip_split raw) as (a & b & Hraw & _ & _).
  rewrite Hraw at 2. rewrite !length_app. lia.
Qed.

(** A month value in ASCII, of no more characters than [int] takes
    digits, never makes [_resolve_month] raise, and the month it gives, if
    any, is two or more ASCII digits worth 1 to 12. *)
Lemma _resolve_month_ascii (raw : str) :
  is_ascii raw = true -> len raw <= 4300 ->
  exists month : option str,
    _resolve_month (Some raw) = Ret month
    /\ forall m, month = Some m ->
         2 <= len m /\ forallb ascii_digit m = true
         /\ exists n, int m = Ret n /\ 1 <= n <= 12.
Proof.
  intros Hraw Hlen. pose proof (len_lower_strip raw Hraw) as Hlen'.
  apply is_ascii_lower_strip in Hraw. cbn [_resolve_month].
  set (r := lower (strip raw)) in *. clearbody r.
  destruct (MONTH_MAP !! r) as [code|] eqn:Hk.
  { eexists. split; [reflexivity|]. intros m [= <-].
    apply MONTH_MAP_table in Hk. unfold month_table in Hk. cbn [In] in Hk.
    repeat (destruct Hk as [[= _ <-] | Hk]); try contradiction;
      (split; [vm_compute; discriminate|]); (split; [reflexivity|]);
      eexists; (split; [vm_compute; reflexivity | lia]). }
  destruct (isdigit r) eqn:Hd; [|eexists; split; [reflexivity | discriminate]].
  assert (Hne : r <> []) by (intros ->; discriminate Hd).
  assert (Hdigits : forallb ascii_digit r = true).
  { unfold isdigit in Hd. destruct r as [|c t]; [discriminate|].
    unfold is_ascii in Hraw. rewrite forallb_forall in *. intros x Hx.
    apply isdigit_ascii; [apply Hraw, Hx | apply Hd, Hx]. }
  rewrite (int_ascii r Hne Hdigits).
  destruct (int_digits_ascii 0 r Hdigits) as [n Hn]. rewrite Hn.
  unfold MAX_STR_DIGITS. destruct (Z.ltb_spec 4300 (len r)); [lia|]. cbn [bind].
  destruct ((1 <=? n) && (n <=? 12)) eqn:Hrange;
    [|eexists; split; [reflexivity | discriminate]].
  eexists. split; [reflexivity|]. intros m [= <-].
  destruct r as [|c t] eqn:Hr; [contradiction|].
  pose proof Hdigits as Hc. cbn [forallb] in Hc. apply andb_prop in Hc as [Hc _].
  destruct (ascii_digit_facts c Hc) as (_ & _ & Hm & Hp & _).
  unfold zfill. rewrite Hm, Hp. cbn [orb].
  set (zeros := repeat (chr "0") (Z.to_nat (2 - len (c :: t)))).
  assert (Hz : forallb ascii_digit (zeros ++ c :: t) = true).
  { rewrite forallb_app, Hdigits, andb_true_r. unfold zeros.
    rewrite forallb_forall. intros x Hx. apply repeat_spec in Hx. subst x. reflexivity. }
  assert (Hzlen : len (zeros ++ c :: t) = Z.max 2 (len (c :: t))).
  { rewrite len_app. unfold zeros, len at 1. rewrite repeat_length.
    pose proof (len_nonneg (c :: t)). lia. }
  split; [|split; [exact Hz|]].
  - lia.
  - exists n. rewrite int_ascii; [|destruct zeros; discriminate | exact Hz].
    unfold zeros at 1. rewrite int_digits_zeros, Hn. unfold MAX_STR_DIGITS.
    destruct (Z.ltb_spec 4300 (len (zeros ++ c :: t))); [lia|].
    apply andb_prop in Hrange as [H1 H2]. apply Z.leb_le in H1, H2. auto.
Qed.

(** X18.  A month value in ASCII never makes [_resolve_month] raise,
    and the month it gives, if any, is two or more ASCII digits that
    [int] reads as a number from 1 to 12.  The bound on the length is the
    interpreter's default limit on the digits [int] accepts. *)
Theorem ascii_month_resolves (raw : str) :
  is_ascii raw = true -> len raw <= 4300 ->
  exists month : option str,
    _resolve_month (Some raw) = Ret month
    /\ forall m, month = Some m ->
         2 <= len m /\ forallb ascii_digit m = true
         /\ exists n, int m = Ret n /\ 1 <= n <= 12.
Proof. exact (_resolve_month_ascii raw). Qed.

Lemma ascii_month_resolves_witness :
  exists month : option str,
    _resolve_month (Some (lit " 007 ")) = Ret month
    /\ forall m, month = Some m ->
         2 <= len m /\ forallb ascii_digit m = true
         /\ exists n, int m = Ret n /\ 1 <= n <= 12.
Proof.
  apply (ascii_month_resolves (lit " 007 ")); [reflexivity | vm_compute; discriminate].
Defined.

(** X19.  An entry whose month is in ASCII, or that has no month,
    always converts: [bib_entry_to_publication] returns, and it returns
    [None] exactly when the title or the year is missing or empty. *)
Theorem entry_with_ascii_month_converts (e : entry) :
  (forall raw, e !! lit "month" = Some raw -> is_ascii raw = true /\ len raw <= 4300) ->
  exists r : option Publication,
    bib_entry_to_publication e = Ret r
    /\ (r = None <->
        truthy_opt (e !! lit "title") = false \/ truthy_opt (e !! lit "year") = false).
Proof.
  intros Hmonth.
  destruct (truthy_opt (e !! lit "title")) eqn:Ht;
    [|exists None; split; [apply bib_entry_to_publication_None; auto | tauto]].
  destruct (truthy_opt (e !! lit "year")) eqn:Hy;
    [|exists None; split; [apply bib_entry_to_publication_None; auto | tauto]].
  destruct (e !! lit "title") as [raw_title|] eqn:Het; [|discriminate Ht].
  destruct (e !! lit "year") as [raw_year|] eqn:Hey; [|discriminate Hy].
  assert (Hm : exists month, _resolve_month (e !! lit "month") = Ret month).
  { destruct (e !! lit "month") as [raw|] eqn:Hem; [|exists None; reflexivity].
    destruct (Hmonth raw eq_refl) as [Hraw Hlen].
    destruct (_resolve_month_ascii raw Hraw Hlen) as (month & Hr & _). eauto. }
  destruct Hm as [month Hm].
  destruct (bib_entry_to_publication_Some e raw_title raw_year month Het Hey Ht Hy Hm)
    as (p & Hp & _).
  exists (Some p). split; [exact Hp|]. split; [discriminate | intros [H|H]; discriminate H].
Qed.

Lemma entry_with_ascii_month_converts_witness :
  exists r : option Publication,
    bib_entry_to_publication
      (<[lit "title" := lit "Foo"]> (<[lit "year" := lit "2020"]>
         (<[lit "month" := lit "Sept."]> ∅)))
    = Ret r
    /\ (r = None <->
        truthy_opt ((<[lit "title" := lit "Foo"]> (<[lit "year" := lit "2020"]>
                       (<[lit "month" := lit "Sept."]> (∅ : entry)))) !! lit "title") = false
        \/ truthy_opt ((<[lit "title" := lit "Foo"]> (<[lit "year" := lit "2020"]>
                          (<[lit "month" := lit "Sept."]> (∅ : entry)))) !! lit "year") = false).
Proof.
  apply (entry_with_ascii_month_converts
           (<[lit "title" := lit "Foo"]> (<[lit "year" := lit "2020"]>
              (<[lit "month" := lit "Sept."]> ∅)))).
  intros raw Hraw. vm_compute in Hraw. injection Hraw as <-.
  split; [reflexivity | vm_compute; discriminate].
Defined.

(** ** From entries to sorted records *)

Lemma collect_from (entries : list entry) (rs : list (option Publication))
    (acc : list Publication) :
  Forall2 (fun e r => bib_entry_to_publication e = Ret r) entries rs ->
  for_each entries
    (fun e publications =>
       let* pub := bib_entry_to_publication e in
       match pub with
       | Some p => Ret (publications ++ [p])
       | None => Ret publications
       end)
    acc
  = Ret (acc ++ omap id rs).
Proof.
  intros H. revert acc. induction H as [|e r entries rs He _ IH]; intros acc.
  - cbn [for_each omap list_omap]. rewrite app_nil_r. reflexivity.
  - cbn [for_each]. rewrite He. cbn [bind]. destruct r as [p|]; cbn [bind]; rewrite IH.
    + rewrite <- app_assoc. reflexivity.
    + reflexivity.
Qed.

Lemma for_each_app {A S : Type} (body : A -> S -> res S) (xs ys : list A) (s : S) :
  for_each (xs ++ ys) body s = let* s' := for_each xs body s in for_each ys body s'.
Proof.
  revert s. induction xs as [|x xs IH]; intros s; cbn [app for_each]; [reflexivity|].
  destruct (body x s) as [s'| |]; cbn [bind]; [apply IH | reflexivity | reflexivity].
Qed.

(** X20.  The loop of [main] over the entries keeps the records of
    the entries that have one, in the order of the entries, and leaves out
    the entries without a record.  An entry that makes
    [bib_entry_to_publication] raise ends the loop with that exception,
    whatever comes after it; the exception is a [ValueError]. *)
Theorem collect_publications_in_order :
  (forall (entries : list entry) (rs : list (option Publication)),
      Forall2 (fun e r => bib_entry_to_publication e = Ret r) entries rs ->
      collect_publications entries = Ret (omap id rs))
  /\ (forall (before : list entry) (rs : list (option Publication)) (e : entry)
             (after : list entry) (x : exn),
        Forall2 (fun e r => bib_entry_to_publication e = Ret r) before rs ->
        bib_entry_to_publication e = Raise x ->
        collect_publications (before ++ e :: after) = Raise x /\ x = ValueError).
Proof.
  split.
  - intros entries rs H. unfold collect_publications.
    rewrite (collect_from entries rs [] H). reflexivity.
  - intros before rs e after x H He. split.
    + unfold collect_publications. rewrite for_each_app.
      rewrite (collect_from before rs [] H). cbn [bind for_each]. rewrite He. reflexivity.
    + pose proof (bib_entry_to_publication_raises e) as Hr. rewrite He in Hr.
      cbn [raises_only] in Hr. congruence.
Qed.

Lemma collect_publications_in_order_witness :
  collect_publications
    [ {[ lit "title" := lit "A"; lit "year" := lit "2020" ]};
      {[ lit "title" := lit "No year" ]};
      {[ lit "title" := lit "B"; lit "year" := lit "2021" ]} ]
  = Ret (omap id
           [ Some {| title := lit "A"; authors := []; journal := None;
                     date := lit "2020"; doi := None |};
             None;
             Some {| title := lit "B"; authors := []; journal := None;
                     date := lit "2021"; doi := None |} ])
  /\ collect_publications
       ([ {[ lit "title" := lit "A"; lit "year" := lit "2020" ]} ]
        ++ superscript_month_entry
        :: [ {[ lit "title" := lit "B"; lit "year" := lit "2021" ]} ])
     = Raise ValueError.
Proof.
  destruct collect_publications_in_order as (Hall & Hraise). split.
  - apply Hall. repeat constructor.
  - apply (Hraise _ [ Some {| title := lit "A"; authors := []; journal := None;
                              date := lit "2020"; doi := None |} ]).
    + repeat constructor.
    + vm_compute. reflexivity.
Defined.

Lemma insert_by_date_filter (d : str) (p : Publication) (l : list Publication) :
  List.filter (fun q => bool_decide (date q = d)) (insert_by_date p l)
  = List.filter (fun q => bool_decide (date q = d)) (p :: l).
Proof.
  induction l as [|q l IH]; [reflexivity|]. cbn [insert_by_date].
  destruct (str_ltb (date p) (date q)) eqn:Hpq; [|reflexivity].
  cbn [List.filter] in *. rewrite IH.
  destruct (bool_decide_reflect (date q = d)) as [Hq|Hq]; [|reflexivity].
  destruct (bool_decide_reflect (date p = d)) as [Hp|Hp]; [|reflexivity].
  rewrite Hp, Hq, str_ltb_irrefl in Hpq. discriminate.
Qed.

(** X21.  The sort is stable: the records of one date come out in the
    order they went in. *)
Theorem sort_keeps_order_within_a_date (d : str) (l : list Publication) :
  List.filter (fun p => bool_decide (date p = d)) (sort_by_date_reverse l)
  = List.filter (fun p => bool_decide (date p = d)) l.
Proof.
  induction l as [|p l IH]; [reflexivity|].
  cbn [sort_by_date_reverse foldr]. rewrite insert_by_date_filter.
  cbn [List.filter]. unfold sort_by_date_reverse in IH. rewrite IH. reflexivity.
Qed.

Lemma str_ltb_prefix (a : str) (c : char) (s : str) : str_ltb a (a ++ c :: s) = true.
Proof.
  induction a as [|x a IH]; [reflexivity|]. cbn [app str_ltb].
  rewrite N.eqb_refl, IH. apply orb_true_r.
Qed.

Lemma sorted_after (a : list Publication) (p : Publication) (b : list Publication) :
  StronglySorted not_older (a ++ p :: b) -> Forall (not_older p) b.
Proof.
  induction a as [|x a IH]; cbn [app]; intros H; inversion H; subst; auto.
Qed.

(** X22.  A date that another date extends sorts after it: in what
    the sort returns, a record dated by a year alone comes after every
    record of that year that has a month. *)
Theorem year_alone_sorts_last (l : list Publication) (p q : Publication) (c : char)
    (s : str) :
  In p l -> In q l -> date q = date p ++ c :: s ->
  exists l1 l2 l3, sort_by_date_reverse l = l1 ++ q :: l2 ++ p :: l3.
Proof.
  intros Hp Hq Hd.
  pose proof (sort_by_date_reverse_sorted l) as Hs.
  pose proof (sort_by_date_reverse_perm l) as Hperm.
  apply (Permutation_in _ Hperm) in Hp. apply (Permutation_in _ Hperm) in Hq.
  apply in_split in Hp as (a & b & Hab). rewrite Hab in *.
  apply in_app_or in Hq as [Hq | [Hq | Hq]].
  - apply in_split in Hq as (l1 & l2 & ->). exists l1, l2, b.
    rewrite <- app_assoc. reflexivity.
  - subst q. apply (f_equal (@length char)) in Hd. rewrite length_app in Hd.
    cbn [length] in Hd. lia.
  - apply sorted_after in Hs. rewrite Forall_forall in Hs.
    apply list_elem_of_In in Hq. specialize (Hs q Hq). unfold not_older in Hs.
    rewrite Hd, str_ltb_prefix in Hs. discriminate.
Qed.

Lemma year_alone_sorts_last_witness :
  exists l1 l2 l3,
    sort_by_date_reverse
      [ {| title := lit "A"; authors := []; journal := None; date := lit "2020"; doi := None |};
        {| title := lit "B"; authors := []; journal := None; date := lit "2020-03";
           doi := None |} ]
    = l1 ++ {| title := lit "B"; authors := []; journal := None; date := lit "2020-03";
               doi := None |}
         :: l2 ++ {| title := lit "A"; authors := []; journal := None; date := lit "2020";
                     doi := None |} :: l3.
Proof.
  apply (year_alone_sorts_last _ _ _ (chr "-") (lit "03"));
    [left; reflexivity | right; left; reflexivity | reflexivity].
Defined.

(** ** The fields of a record *)

(** What a record is made of. *)
Lemma bib_entry_to_publication_inv (e : entry) (p : Publication) :
  bib_entry_to_publication e = Ret (Some p) ->
  exists (raw_title raw_year t v : str) (month : option str),
    e !! lit "title" = Some raw_title /\ e !! lit "year" = Some raw_year
    /\ _strip_braces raw_title = Ret t /\ title p = _clean_latex t
    /\ authors p
       = _emphasise_owner
           (concat (map part_names
                      (Re.split and_separator (default [] (e !! lit "author")))))
    /\ _strip_braces (str_or (default [] (e !! lit "journal"))
                        (str_or (default [] (e !! lit "booktitle")) [])) = Ret v
    /\ journal p = (if truthy (_clean_latex v) then Some (_clean_latex v) else None)
    /\ _resolve_month (e !! lit "month") = Ret month
    /\ ((truthy_opt (e !! lit "doi") = false /\ doi p = None)
        \/ exists d s, e !! lit "doi" = Some d /\ d <> [] /\ _strip_braces d = Ret s
                       /\ doi p = Some s).
Proof.
  unfold bib_entry_to_publication.
  destruct (e !! lit "title") as [raw_title|]; [|discriminate].
  destruct (e !! lit "year") as [raw_year|]; [|discriminate].
  destruct (_ || _); [discriminate|].
  destruct (_strip_braces raw_title) as [t| |] eqn:Ht; cbn [bind]; try discriminate.
  rewrite _parse_author_list_names. cbn [bind].
  destruct (_strip_braces (str_or _ _)) as [v| |] eqn:Hv; cbn [bind]; try discriminate.
  destruct (_resolve_month _) as [month| |] eqn:Hm; cbn [bind]; try discriminate.
  destruct (truthy_opt (e !! lit "doi")) eqn:Hd.
  - destruct (e !! lit "doi") as [d|] eqn:Hed; [|discriminate Hd].
    destruct (_strip_braces d) as [s| |] eqn:Hs; cbn [bind]; try discriminate.
    intros [= <-]. exists raw_title, raw_year, t, v, month. cbn [title authors journal doi].
    repeat split; try assumption; try reflexivity.
    right. exists d, s. repeat split; try assumption. intros ->. discriminate Hd.
  - cbn [bind]. intros [= <-]. exists raw_title, raw_year, t, v, month.
    cbn [title authors journal doi]. repeat split; try assumption; try reflexivity.
    left. split; reflexivity.
Qed.

(** X23.  The venue of a record is taken from the first of the two
    fields [journal] and [booktitle] that is there and not empty, and from
    that field only: a [journal] that is not empty but cleans to nothing
    hides the [booktitle], and the record is then without a venue.  With
    neither field, or both empty, the record has no venue. *)
Theorem venue_is_first_field (e : entry) (p : Publication) :
  bib_entry_to_publication e = Ret (Some p) ->
  (forall j, e !! lit "journal" = Some j -> j <> [] ->
     exists v, _strip_braces j = Ret v
               /\ journal p = if truthy (_clean_latex v) then Some (_clean_latex v)
                              else None)
  /\ (forall b, truthy_opt (e !! lit "journal") = false ->
        e !! lit "booktitle" = Some b -> b <> [] ->
        exists v, _strip_braces b = Ret v
                  /\ journal p = if truthy (_clean_latex v) then Some (_clean_latex v)
                                 else None)
  /\ (truthy_opt (e !! lit "journal") = false ->
      truthy_opt (e !! lit "booktitle") = false -> journal p = None).
Proof.
  intros H. apply bib_entry_to_publication_inv in H
    as (_ & _ & _ & v & _ & _ & _ & _ & _ & _ & Hv & Hj & _).
  unfold str_or in Hv. repeat apply conj.
  - intros j Hej Hne. rewrite Hej in Hv. cbn [default] in Hv.
    destruct j as [|c j]; [contradiction|]. cbn [truthy] in Hv. eauto.
  - intros b Hj0 Heb Hne. rewrite Heb in Hv. cbn [default] in Hv.
    assert (Hjt : truthy (default [] (e !! lit "journal")) = false).
    { destruct (e !! lit "journal") as [j|]; [exact Hj0 | reflexivity]. }
    rewrite Hjt in Hv. destruct b as [|c b]; [contradiction|]. cbn [truthy] in Hv. eauto.
  - intros Hj0 Hb0.
    assert (Hjt : truthy (default [] (e !! lit "journal")) = false).
    { destruct (e !! lit "journal") as [j|]; [exact Hj0 | reflexivity]. }
    assert (Hbt : truthy (default [] (e !! lit "booktitle")) = false).
    { destruct (e !! lit "booktitle") as [b|]; [exact Hb0 | reflexivity]. }
    rewrite Hjt, Hbt in Hv. vm_compute in Hv. injection Hv as <-. exact Hj.
Qed.

Lemma venue_is_first_field_witness :
  exists v, _strip_braces (lit "{ }") = Ret v
            /\ journal {| title := lit "T"; authors := []; journal := None;
                          date := lit "2020"; doi := None |}
               = if truthy (_clean_latex v) then Some (_clean_latex v) else None.
Proof.
  destruct (venue_is_first_field
              {[ lit "title" := lit "T"; lit "year" := lit "2020";
                 lit "journal" := lit "{ }"; lit "booktitle" := lit "Proceedings" ]}
              {| title := lit "T"; authors := []; journal := None;
                 date := lit "2020"; doi := None |}) as (Hj & _).
  - vm_compute. reflexivity.
  - apply (Hj (lit "{ }")); [vm_compute; reflexivity | discriminate].
Defined.

(** X24.  The DOI of a record is the [doi] field without its outer
    braces and nothing else: white space and LaTeX markup stay, and a
    field that does not both start and end with a brace is kept as it is.
    An entry without the field, or with an empty one, gives a record
    without a DOI. *)
Theorem doi_is_stripped_only (e : entry) (p : Publication) :
  bib_entry_to_publication e = Ret (Some p) ->
  (truthy_opt (e !! lit "doi") = false -> doi p = None)
  /\ (forall d, e !! lit "doi" = Some d -> d <> [] ->
        exists (n : nat) (s : str),
          d = repeat (chr "{") n ++ s ++ repeat (chr "}") n
          /\ startswith s (lit "{") && endswith s (lit "}") = false
          /\ doi p = Some s)
  /\ (forall d, e !! lit "doi" = Some d -> d <> [] ->
        startswith d (lit "{") && endswith d (lit "}") = false -> doi p = Some d).
Proof.
  intros H. apply bib_entry_to_publication_inv in H
    as (_ & _ & _ & _ & _ & _ & _ & _ & _ & _ & _ & _ & _
        & [[H0 Hnone] | (d & s & Hed & Hne & Hs & Hdoi)]).
  - repeat apply conj.
    + intros _. exact Hnone.
    + intros d Hd Hne. rewrite Hd in H0. destruct d; [contradiction | discriminate H0].
    + intros d Hd Hne. rewrite Hd in H0. destruct d; [contradiction | discriminate H0].
  - destruct (_strip_braces_spec d) as (n & s' & Hs' & Hlayers & Hstop).
    rewrite Hs in Hs'. injection Hs' as <-.
    repeat apply conj.
    + intros H0. rewrite Hed in H0. destruct d; [contradiction | discriminate H0].
    + intros d' Hd' _. rewrite Hed in Hd'. injection Hd' as <-. eauto.
    + intros d' Hd' _ Hkeep. rewrite Hed in Hd'. injection Hd' as <-.
      rewrite Hdoi. f_equal.
      destruct n as [|n]; [cbn [repeat app] in Hlayers; rewrite app_nil_r in Hlayers; auto|].
      exfalso. rewrite Hlayers in Hkeep.
      assert (Hstart : startswith (repeat (chr "{") (S n) ++ s ++ repeat (chr "}") (S n))
                         (lit "{") = true).
      { cbn [repeat app]. exact (startswith_app [chr "{"] _). }
      assert (Hend : endswith (repeat (chr "{") (S n) ++ s ++ repeat (chr "}") (S n))
                       (lit "}") = true).
      { cbn [repeat]. rewrite (repeat_cons n (chr "}")), !app_assoc.
        unfold endswith. rewrite rev_app_distr.
        exact (startswith_app [chr "}"] _). }
      rewrite Hstart, Hend in Hkeep. discriminate.
Qed.

Lemma doi_is_stripped_only_witness :
  doi {| title := lit "T"; authors := []; journal := None; date := lit "2020";
         doi := Some (lit " {10.1000/x} ") |}
  = Some (lit " {10.1000/x} ").
Proof.
  destruct (doi_is_stripped_only
              {[ lit "title" := lit "T"; lit "year" := lit "2020";
                 lit "doi" := lit " {10.1000/x} " ]}
              {| title := lit "T"; authors := []; journal := None; date := lit "2020";
                 doi := Some (lit " {10.1000/x} ") |}) as (_ & _ & Hkeep).
  - vm_compute. reflexivity.
  - apply (Hkeep (lit " {10.1000/x} ")); [vm_compute; reflexivity | discriminate | reflexivity].
Defined.

Lemma _emphasise_owner_clean (names : list str) :
  Forall (fun name => name <> [] /\ ~ In (chr "{") name /\ ~ In (chr "}") name) names ->
  Forall (fun name => name <> [] /\ ~ In (chr "{") name /\ ~ In (chr "}") name)
    (_emphasise_owner names).
Proof.
  unfold _emphasise_owner. intros H. induction H as [|name names (Hne & Ho & Hc) _ IH];
    cbn [map]; constructor; [|exact IH].
  destruct (existsb _ _); [|auto]. repeat split.
  - discriminate.
  - intros Hin. apply in_app_or in Hin as [Hin|Hin];
      [vm_compute in Hin; intuition discriminate|].
    apply in_app_or in Hin as [Hin|Hin]; [contradiction|].
    vm_compute in Hin; intuition discriminate.
  - intros Hin. apply in_app_or in Hin as [Hin|Hin];
      [vm_compute in Hin; intuition discriminate|].
    apply in_app_or in Hin as [Hin|Hin]; [contradiction|].
    vm_compute in Hin; intuition discriminate.
Qed.

(** X25.  No brace of the entry reaches the title, the authors or the
    venue of its record; the title and the venue have no white space at
    either end, no author is empty, and a venue that is there is not
    empty. *)
Theorem record_has_no_braces (e : entry) (p : Publication) :
  bib_entry_to_publication e = Ret (Some p) ->
  (~ In (chr "{") (title p) /\ ~ In (chr "}") (title p) /\ trimmed (title p) = true)
  /\ Forall (fun name => name <> [] /\ ~ In (chr "{") name /\ ~ In (chr "}") name)
       (authors p)
  /\ (forall v, journal p = Some v ->
        v <> [] /\ ~ In (chr "{") v /\ ~ In (chr "}") v /\ trimmed v = true).
Proof.
  intros H. apply bib_entry_to_publication_inv in H
    as (_ & _ & t & v & _ & _ & _ & _ & Ht & Ha & _ & Hj & _).
  repeat apply conj.
  - rewrite Ht. apply _clean_latex_chars.
  - rewrite Ht. apply _clean_latex_chars.
  - rewrite Ht. apply _clean_latex_chars.
  - rewrite Ha. apply _emphasise_owner_clean.
    eapply Forall_impl; [apply part_names_clean|]. cbv beta. tauto.
  - intros x Hx. rewrite Hj in Hx.
    destruct (truthy (_clean_latex v)) eqn:Htv; [|discriminate Hx].
    injection Hx as <-. destruct (_clean_latex_chars v) as (H1 & H2 & _ & H4).
    repeat split; try assumption. intros Heq. rewrite Heq in Htv. discriminate Htv.
Qed.

Lemma record_has_no_braces_witness :
  (~ In (chr "{") (title sample_publication) /\ ~ In (chr "}") (title sample_publication)
   /\ trimmed (title sample_publication) = true)
  /\ Forall (fun name => name <> [] /\ ~ In (chr "{") name /\ ~ In (chr "}") name)
       (authors sample_publication)
  /\ (forall v, journal sample_publication = Some v ->
        v <> [] /\ ~ In (chr "{") v /\ ~ In (chr "}") v /\ trimmed v = true).
Proof.
  apply (record_has_no_braces
           {[ lit "title" := lit "{Foo}"; lit "author" := lit "Smith, Jane and Doe, John";
              lit "journal" := lit "Bar"; lit "year" := lit "2020";
              lit "month" := lit "mar" ]}).
  vm_compute. reflexivity.
Defined.
